(** * BOIIIWD download orchestrator: a shallow embedding of
      [api/boiiiwd_api_improved.py] and the properties of its specification.

    The development follows the source file top down: the string and number
    helpers ([extract_workshop_id], [to_int]), the progress estimator of the
    polling loop, the file system and the install step, the shared status
    record, the single-job machine [_perform_download], the commands of the
    [DownloadManager], the endpoints that change the pending queue, and the
    worker threads ([_process_queue], [_run_download]) with the requests
    that are served while they run.  Definitions come first, the theorems
    about them afterwards. *)

From Stdlib Require Import ZArith List Bool Ascii String DecimalString DecimalZ Lia Floats.
Import ListNotations.

Open Scope string_scope.
Open Scope list_scope.
Open Scope Z_scope.

(* ===================================================================== *)
(** ** Python [str]                                                       *)
(* ===================================================================== *)

(** A Python [str] is modelled by a Rocq [string] whose characters stand for
    the code points U+0000 .. U+00FF.  On that range the character classes
    below are the ones of CPython: [str.isspace], [str.isdigit]
    (Numeric_Type Digit or Decimal) and the class [\d] of [re] on [str]
    patterns (general category Nd). *)
Module PyStr.

Definition code (c : ascii) : N := N_of_ascii c.

Definition in_range (lo hi : N) (c : ascii) : bool :=
  ((lo <=? code c) && (code c <=? hi))%N.

(** [c.isspace()]: TAB..CR, FS..US, SPACE, NEL (U+0085), NBSP (U+00A0). *)
Definition isspace_char (c : ascii) : bool :=
  in_range 9 13 c || in_range 28 32 c || (code c =? 133)%N || (code c =? 160)%N.

(** [c.isdecimal()], also what [\d] matches: the digits 0..9. *)
Definition isdecimal_char (c : ascii) : bool := in_range 48 57 c.

(** [c.isdigit()]: the decimal digits and the superscripts
    U+00B2, U+00B3, U+00B9. *)
Definition isdigit_char (c : ascii) : bool :=
  isdecimal_char c || (code c =? 178)%N || (code c =? 179)%N || (code c =? 185)%N.

Fixpoint all_chars (p : ascii -> bool) (s : string) : bool :=
  match s with
  | EmptyString => true
  | String c r => p c && all_chars p r
  end.

Definition is_empty (s : string) : bool :=
  match s with EmptyString => true | String _ _ => false end.

(** [s.isdigit()]: at least one character, and all of them digits. *)
Definition isdigit (s : string) : bool :=
  negb (is_empty s) && all_chars isdigit_char s.

(** [s.isdecimal()]. *)
Definition isdecimal (s : string) : bool :=
  negb (is_empty s) && all_chars isdecimal_char s.

Fixpoint lstrip (s : string) : string :=
  match s with
  | EmptyString => EmptyString
  | String c r => if isspace_char c then lstrip r else s
  end.

Fixpoint rstrip (s : string) : string :=
  match s with
  | EmptyString => EmptyString
  | String c r =>
      let r' := rstrip r in
      if isspace_char c && is_empty r' then EmptyString else String c r'
  end.

(** [s.strip()] *)
Definition strip (s : string) : string := rstrip (lstrip s).

(** [c.lower()]: A..Z and the Latin-1 capitals U+00C0..U+00DE, the
    multiplication sign U+00D7 apart, move up by 32. *)
Definition lower_char (c : ascii) : ascii :=
  if in_range 65 90 c || (in_range 192 222 c && negb (code c =? 215)%N)
  then ascii_of_N (code c + 32) else c.

(** [s.lower()] *)
Fixpoint lower (s : string) : string :=
  match s with
  | EmptyString => EmptyString
  | String c r => String (lower_char c) (lower r)
  end.

(** [s.startswith(p)] *)
Fixpoint startswith (p s : string) : bool :=
  match p, s with
  | EmptyString, _ => true
  | String a p', String b s' => Ascii.eqb a b && startswith p' s'
  | String _ _, EmptyString => false
  end.

(** [s[n:]] for [0 <= n]. *)
Fixpoint drop (n : nat) (s : string) : string :=
  match n, s with
  | O, _ => s
  | S n', String _ r => drop n' r
  | S _, EmptyString => EmptyString
  end.

(** The longest prefix of [s] made of characters of class [p]: what a
    greedy [p+] consumes. *)
Fixpoint span (p : ascii -> bool) (s : string) : string :=
  match s with
  | String c r => if p c then String c (span p r) else EmptyString
  | EmptyString => EmptyString
  end.

(** [re.match(r"id=(\d+)", s)]: group 1 of a match anchored at the start
    of [s]. *)
Definition match_id_here (s : string) : option string :=
  if startswith "id=" s then
    let digits := span isdecimal_char (drop 3 s) in
    if is_empty digits then None else Some digits
  else None.

(** [re.search(r"id=(\d+)", s)]: group 1 of the leftmost match. *)
Fixpoint search_id (s : string) : option string :=
  match match_id_here s with
  | Some digits => Some digits
  | None =>
      match s with
      | EmptyString => None
      | String _ r => search_id r
      end
  end.

End PyStr.

(** [extract_workshop_id(value)] *)
Definition extract_workshop_id (value : string) : option string :=
  let value := PyStr.strip value in
  if PyStr.isdigit value then Some value
  else
    match PyStr.search_id value with
    | Some group1 => Some group1
    | None => None
    end.

(* ===================================================================== *)
(** ** Python numbers                                                     *)
(* ===================================================================== *)

(** The exceptions the modelled code can raise; [ConfigError] stands for
    [configparser.Error] and its subclasses. *)
Inductive exn : Type :=
| ValueError
| OverflowError
| AttributeError
| ZeroDivisionError
| IndexError
| TimeoutExpired
| OSError
| ConfigError.

(** A call either returns or raises. *)
Inductive result (A : Type) : Type :=
| Returns (a : A)
| Raises (e : exn).
Arguments Returns {A} a.
Arguments Raises {A} e.

(** The values that reach [to_int]: [None], [bool], [int], [float]
    (binary64), [str], and any other object. *)
Inductive pyobj : Type :=
| PyNone
| PyBool (b : bool)
| PyInt (z : Z)
| PyFloat (f : float)
| PyStr (s : string)
| PyOther.

Module PyNum.

(** The value of a string of decimal digits, most significant first. *)
Definition digit_value (c : ascii) : Z := Z.of_N (PyStr.code c) - 48.

Fixpoint digits_value (acc : Z) (s : string) : Z :=
  match s with
  | EmptyString => acc
  | String c r => digits_value (10 * acc + digit_value c) r
  end.

(** [sys.int_max_str_digits]: the limit [int] puts on the number of digits
    of a decimal literal, at its default, in CPython from 3.11 on (and in
    the later releases of 3.7 to 3.10). *)
Definition int_max_str_digits : Z := 4300.

(** The digits are counted as they stand, leading zeros included, the sign
    apart; a literal with more of them than the limit is refused. *)
Definition within_limit (digits : string) (z : Z) : result Z :=
  if int_max_str_digits <? Z.of_nat (String.length digits)
  then Raises ValueError else Returns z.

(** [int(s)] for a string [s] made of [isdigit] characters with an optional
    leading minus sign, the only strings [to_int] passes to it.  The
    superscript digits are digits for [isdigit] and no literal for [int].
    Integers are unbounded, the literals that are read are not. *)
Definition int_of_str (s : string) : result Z :=
  if PyStr.startswith "-" s then
    if PyStr.isdecimal (PyStr.drop 1 s)
    then within_limit (PyStr.drop 1 s) (- digits_value 0 (PyStr.drop 1 s))
    else Raises ValueError
  else
    if PyStr.isdecimal s then within_limit s (digits_value 0 s) else Raises ValueError.

(** The binary64 number nearest to [n / d] (ties to even), for [0 <= n]
    and [0 < d], as mantissa and exponent: the value is [m * 2 ^ e]. *)
Definition nearest (n d : Z) : Z * Z :=
  if n =? 0 then (0, 0)
  else
    let l := Z.log2 n - Z.log2 d in
    let l := if n * 2 ^ Z.max 0 (- l) <? d * 2 ^ Z.max 0 l then l - 1 else l in
    let e := Z.max (l - 52) (-1074) in
    let num := n * 2 ^ Z.max 0 (- e) in
    let den := d * 2 ^ Z.max 0 e in
    let q := num / den in
    let r := num mod den in
    let q := if (den <? 2 * r) || ((den =? 2 * r) && Z.odd q) then q + 1 else q in
    (q, e).

(** Does [m * 2 ^ e] exceed the largest finite binary64 number? *)
Definition overflows (me : Z * Z) : bool :=
  let (m, e) := me in 2 ^ 1024 <=? m * 2 ^ Z.max 0 e.

(** The [float] of sign [neg] nearest to [n / d]; infinite on overflow. *)
Definition float_of_ratio (neg : bool) (n d : Z) : float :=
  let me := nearest n d in
  if overflows me then (if neg then neg_infinity else infinity)
  else
    match fst me with
    | Zpos m => SF2Prim (S754_finite neg m (snd me))
    | _ => if neg then neg_zero else zero
    end.

(** [float(z)] for an [int] of magnitude below [2 ** 1024]. *)
Definition float_of_Z (z : Z) : float :=
  float_of_ratio (z <? 0) (Z.abs z) 1.

(** [a / b] on two [int]s: the correctly rounded quotient;
    [ZeroDivisionError] for [b = 0], [OverflowError] when the quotient is
    too large for a [float]. *)
Definition truediv (a b : Z) : result float :=
  if b =? 0 then Raises ZeroDivisionError
  else
    let neg := xorb (a <? 0) (b <? 0) in
    if overflows (nearest (Z.abs a) (Z.abs b)) then Raises OverflowError
    else Returns (float_of_ratio neg (Z.abs a) (Z.abs b)).

(** [a // b] on two [int]s: the floor of the quotient. *)
Definition floordiv (a b : Z) : result Z :=
  if b =? 0 then Raises ZeroDivisionError else Returns (a / b).

(** [round(f)]: the nearest integer, ties to even. *)
Definition round_of_float (f : float) : result Z :=
  match Prim2SF f with
  | S754_nan => Raises ValueError
  | S754_infinity _ => Raises OverflowError
  | S754_zero _ => Returns 0
  | S754_finite s m e =>
      let mag :=
        if 0 <=? e then Z.shiftl (Zpos m) e
        else
          let q := Z.shiftr (Zpos m) (- e) in
          let r := Zpos m - Z.shiftl q (- e) in
          let half := 2 ^ (- e - 1) in
          if (half <? r) || ((half =? r) && Z.odd q) then q + 1 else q in
      Returns (if s then - mag else mag)
  end.

(** [int(f)]: truncation toward zero; [OverflowError] on an infinity,
    [ValueError] on a NaN. *)
Definition int_of_float (f : float) : result Z :=
  match Prim2SF f with
  | S754_nan => Raises ValueError
  | S754_infinity _ => Raises OverflowError
  | S754_zero _ => Returns 0
  | S754_finite s m e =>
      let mag := if 0 <=? e then Z.shiftl (Zpos m) e else Z.shiftr (Zpos m) (- e) in
      Returns (if s then - mag else mag)
  end.

(** *** [float(s)] on a string *)

Definition is_underscore (c : ascii) : bool := Ascii.eqb c "_".

(** Underscores may only stand between two digits; they are removed
    before the number is read.  [prev] is the previous character. *)
Fixpoint remove_underscores (prev : option ascii) (s : string) : option string :=
  let prev_is p := match prev with Some c => p c | None => false end in
  match s with
  | EmptyString => if prev_is is_underscore then None else Some EmptyString
  | String c r =>
      if is_underscore c then
        if prev_is PyStr.isdecimal_char then remove_underscores (Some c) r else None
      else if prev_is is_underscore && negb (PyStr.isdecimal_char c) then None
      else option_map (String c) (remove_underscores (Some c) r)
  end.

(** An optional sign: is it a minus, and what follows it. *)
Definition split_sign (s : string) : bool * string :=
  match s with
  | String "-" r => (true, r)
  | String "+" r => (false, r)
  | _ => (false, s)
  end.

(** [e | E] [sign] digits, up to the end of the string: the exponent. *)
Definition parse_exponent (s : string) : option Z :=
  match s with
  | EmptyString => Some 0
  | String c r =>
      if Ascii.eqb (PyStr.lower_char c) "e" then
        let (neg, ds) := split_sign r in
        if PyStr.isdecimal ds
        then Some (if neg then - digits_value 0 ds else digits_value 0 ds)
        else None
      else None
  end.

(** digits [.] digits [exponent], with a digit on one side of the point
    at least: mantissa and decimal exponent. *)
Definition parse_number (s : string) : option (Z * Z) :=
  let ip := PyStr.span PyStr.isdecimal_char s in
  let r1 := PyStr.drop (String.length ip) s in
  let fp := match r1 with
            | String "." r => PyStr.span PyStr.isdecimal_char r
            | _ => EmptyString
            end in
  let r2 := match r1 with
            | String "." r => PyStr.drop (String.length fp) r
            | _ => r1
            end in
  if PyStr.is_empty ip && PyStr.is_empty fp then None
  else
    match parse_exponent r2 with
    | Some e => Some (digits_value 0 (ip ++ fp)%string, e - Z.of_nat (String.length fp))
    | None => None
    end.

(** [float(s)] for a stripped [s]; [None] stands for [ValueError]. *)
Definition float_of_str (s : string) : option float :=
  let (neg, body) := split_sign s in
  let word := PyStr.lower body in
  if String.eqb word "inf" || String.eqb word "infinity"
  then Some (if neg then neg_infinity else infinity)
  else if String.eqb word "nan" then Some nan
  else
    match remove_underscores None body with
    | None => None
    | Some plain =>
        match parse_number plain with
        | None => None
        | Some (m, e) =>
            Some (if 0 <=? e
                  then float_of_ratio neg (m * 10 ^ e) 1
                  else float_of_ratio neg m (10 ^ (- e)))
        end
    end.

End PyNum.

(** [to_int(value)] *)
Definition to_int (value : pyobj) : result Z :=
  match value with
  | PyBool b => Returns (if b then 1 else 0)
  | PyInt z => Returns z
  | PyFloat f => PyNum.int_of_float f
  | PyStr s =>
      let cleaned := PyStr.strip s in
      if PyStr.is_empty cleaned then Returns 0
      else if PyStr.isdigit cleaned
              || (PyStr.startswith "-" cleaned && PyStr.isdigit (PyStr.drop 1 cleaned))
      then PyNum.int_of_str cleaned
      else
        (* try: return int(float(cleaned))  except ValueError: return 0 *)
        match PyNum.float_of_str cleaned with
        | None => Returns 0
        | Some f =>
            match PyNum.int_of_float f with
            | Raises ValueError => Returns 0
            | r => r
            end
        end
  | PyNone | PyOther => Returns 0
  end.


(** Sequencing of calls that may raise. *)
Definition bind {A B : Type} (r : result A) (k : A -> result B) : result B :=
  match r with
  | Returns a => k a
  | Raises e => Raises e
  end.

Notation "x <- r ;; k" := (bind r (fun x => k))
  (at level 61, r at next level, right associativity).

(* ===================================================================== *)
(** ** Progress estimator: the arithmetic of one polling tick             *)
(* ===================================================================== *)

Module Progress.

(** [sum(l)] *)
Definition sum (l : list Z) : Z := fold_right Z.add 0 l.

(** [l[-5:]]: the last five elements, or all of them. *)
Definition last5 (l : list Z) : list Z := skipn (List.length l - 5) l.

(** [size_samples.append(total_bytes)], then [pop(0)] beyond 60 samples. *)
Definition push_sample (size_samples : list Z) (total_bytes : Z) : list Z :=
  let appended := size_samples ++ [total_bytes] in
  if (60 <? List.length appended)%nat then tl appended else appended.

(** [sum(size_samples[-5:]) // min(len(size_samples), 5)] *)
Definition average_bytes (size_samples : list Z) : result Z :=
  PyNum.floordiv (sum (last5 size_samples))
                 (Z.of_nat (Nat.min (List.length size_samples) 5)).

(** The percentage before clamping:
    [progress = 0]
    [if file_size_bytes: progress = min(int(average_bytes / file_size_bytes * 100), 100)] *)
Definition raw_progress (average file_size_bytes : Z) : result Z :=
  if file_size_bytes =? 0 then Returns 0
  else
    ratio <- PyNum.truediv average file_size_bytes ;;
    percent <- PyNum.int_of_float (ratio * PyNum.float_of_Z 100)%float ;;
    Returns (Z.min percent 100).

(** The two clamps:
    [if progress < current_progress: progress = current_progress]
    [if progress >= 100 and self.process.poll() is None: progress = 99] *)
Definition clamp (progress current_progress : Z) (running : bool) : Z :=
  let progress := if progress <? current_progress then current_progress else progress in
  if (100 <=? progress) && running then 99 else progress.

(** The percentage a tick reports, from the history after the new sample
    was pushed. *)
Definition tick_progress (size_samples : list Z) (file_size_bytes current_progress : Z)
           (running : bool) : result Z :=
  average <- average_bytes size_samples ;;
  progress <- raw_progress average file_size_bytes ;;
  Returns (clamp progress current_progress running).

(** The formula of the specification, with [round] where the code has
    [int]: [min(round(average / total * 100), 100)]. *)
Definition spec_percentage (average file_size_bytes : Z) : result Z :=
  ratio <- PyNum.truediv average file_size_bytes ;;
  percent <- PyNum.round_of_float (ratio * PyNum.float_of_Z 100)%float ;;
  Returns (Z.min percent 100).

End Progress.

(* ===================================================================== *)
(** ** Paths and the file system                                          *)
(* ===================================================================== *)

(** A [pathlib] path is the list of its components, the flavour is POSIX.
    The file system is an association list from paths to nodes with at most
    one entry per path.  Of the failures of the operating system only those
    of a file standing where a directory is needed (or conversely) are
    modelled. *)
Module Fs.

Definition path : Type := list string.

Inductive node : Type :=
| Dir
| File (content : string).

Definition t : Type := list (path * node).

Definition path_eqb (p q : path) : bool :=
  if list_eq_dec string_dec p q then true else false.

(** [s.split("/")] *)
Fixpoint split_slash (s : string) : list string :=
  match s with
  | EmptyString => [EmptyString]
  | String c r =>
      if Ascii.eqb c "/" then EmptyString :: split_slash r
      else
        match split_slash r with
        | h :: tl => String c h :: tl
        | [] => [String c EmptyString]
        end
  end.

(** The components of a path string: empty ones and ["."] are dropped. *)
Definition components (s : string) : path :=
  filter (fun c => negb (PyStr.is_empty c) && negb (String.eqb c ".")) (split_slash s).

(** [base / s]: an absolute [s] replaces [base]. *)
Definition join (base : path) (s : string) : path :=
  if PyStr.startswith "/" s then components s else base ++ components s.

(** [p.name]: the last component, or the empty string. *)
Definition name (p : path) : string := last p EmptyString.

Fixpoint lookup (fs : t) (p : path) : option node :=
  match fs with
  | [] => None
  | (q, n) :: rest => if path_eqb q p then Some n else lookup rest p
  end.

(** [p.exists()] *)
Definition exists_ (fs : t) (p : path) : bool :=
  match lookup fs p with Some _ => true | None => false end.

Definition write (fs : t) (p : path) (n : node) : t :=
  (p, n) :: filter (fun e => negb (path_eqb (fst e) p)) fs.

(** [rel] with [p = base ++ rel], when [base] is a prefix of [p]. *)
Fixpoint relative_to (base p : path) : option path :=
  match base, p with
  | [], _ => Some p
  | b :: base', c :: p' => if String.eqb b c then relative_to base' p' else None
  | _ :: _, [] => None
  end.

Definition under (base p : path) : bool :=
  match relative_to base p with Some _ => true | None => false end.

(** The non-empty prefixes of [p], shortest first. *)
Fixpoint prefixes (p : path) : list path :=
  match p with
  | [] => []
  | c :: r => [c] :: map (cons c) (prefixes r)
  end.

Definition mkdir (fs : t) (p : path) : result t :=
  match lookup fs p with
  | Some Dir => Returns fs
  | Some (File _) => Raises OSError
  | None => Returns (write fs p Dir)
  end.

(** [p.mkdir(parents=True, exist_ok=True)], the body of [ensure_directory]. *)
Definition makedirs (fs : t) (p : path) : result t :=
  fold_left (fun acc q => fs' <- acc ;; mkdir fs' q) (prefixes p) (Returns fs).

(** One entry of the source tree.  A directory is made at the destination.
    A file is copied by [copy2]: onto the path of the same name, or, when a
    directory stands there, into that directory under the name of the file;
    a directory standing at the path the file is written to is an error. *)
Definition copy_entry (src dst : path) (acc : result t) (e : path * node) : result t :=
  fs <- acc ;;
  match relative_to src (fst e) with
  | None | Some [] => Returns fs
  | Some rel =>
      match snd e with
      | Dir => makedirs fs (dst ++ rel)
      | File content =>
          fs <- makedirs fs (dst ++ removelast rel) ;;
          let target := match lookup fs (dst ++ rel) with
                        | Some Dir => dst ++ rel ++ [name rel]
                        | _ => dst ++ rel
                        end in
          match lookup fs target with
          | Some Dir => Raises OSError
          | _ => Returns (write fs target (File content))
          end
      end
  end.

(** [shutil.copytree(src, dst, dirs_exist_ok=True)]: the source must be a
    directory; directories that exist are kept, files that exist are
    overwritten.  The copy goes on after an entry has failed and raises at
    its end; of a copy that fails only the failure is modelled. *)
Definition copytree (fs : t) (src dst : path) : result t :=
  match lookup fs src with
  | Some Dir =>
      fs0 <- makedirs fs dst ;;
      fold_left (copy_entry src dst) fs (Returns fs0)
  | _ => Raises OSError
  end.

(** [remove_tree(p)]: [shutil.rmtree(p, ignore_errors=True)] removes the
    directory [p] with all it holds, and leaves a file standing at [p]
    where it is. *)
Definition remove_tree (fs : t) (p : path) : t :=
  match lookup fs p with
  | Some Dir => filter (fun e => negb (under p (fst e))) fs
  | _ => fs
  end.

End Fs.

(* ===================================================================== *)
(** ** The install step                                                   *)
(* ===================================================================== *)

(** A value of [workshop.json]: absent or [null], a string, an integer. *)
Inductive jvalue : Type :=
| JNull
| JStr (s : string)
| JInt (z : Z).

(** The manifest fields the install step reads ([metadata.get(...)]). *)
Record Manifest : Type := {
  FolderName : jvalue;
  PublisherID : jvalue;
  Type_ : jvalue
}.

Module Install.

Definition truthy (v : jvalue) : bool :=
  match v with
  | JNull => false
  | JStr s => negb (PyStr.is_empty s)
  | JInt z => negb (z =? 0)
  end.

(** [a or b] *)
Definition or_ (a b : jvalue) : jvalue := if truthy a then a else b.

Definition str_of_Z (z : Z) : string := NilZero.string_of_int (Z.to_int z).

(** [str(v)] *)
Definition str (v : jvalue) : string :=
  match v with
  | JNull => "None"
  | JStr s => s
  | JInt z => str_of_Z z
  end.

(** [metadata.get("FolderName") or metadata.get("PublisherID") or workshop_id] *)
Definition folder_name_of (metadata : Manifest) (workshop_id : string) : jvalue :=
  or_ (FolderName metadata) (or_ (PublisherID metadata) (JStr workshop_id)).

(** [(metadata.get("Type") or "map").lower()] *)
Definition item_type_of (metadata : Manifest) : result string :=
  match or_ (Type_ metadata) (JStr "map") with
  | JStr s => Returns (PyStr.lower s)
  | _ => Raises AttributeError
  end.

(** [destination_folder / ("usermaps" if item_type == "map" else "mods")] *)
Definition destination_base_of (destination_folder : Fs.path) (item_type : string) : Fs.path :=
  Fs.join destination_folder (if String.eqb item_type "map" then "usermaps" else "mods").

(** [final_folder.name != folder_name]: a [str] and an [int] always
    differ. *)
Definition name_differs (final_folder : Fs.path) (folder_name : jvalue) : bool :=
  match folder_name with
  | JStr s => negb (String.eqb (Fs.name final_folder) s)
  | _ => true
  end.

(** [f"{folder_name}_{workshop_id}_{attempts}"] *)
Definition suffixed (folder_name : jvalue) (workshop_id : string) (attempts : Z) : string :=
  (str folder_name ++ "_" ++ workshop_id ++ "_" ++ str_of_Z attempts)%string.

(** [while final_folder.exists() and attempts < 10 and final_folder.name != folder_name:]
    [[
        attempts += 1
        final_folder = destination_base / f"{folder_name}_{workshop_id}_{attempts}"
    ]]
    The loop runs ten times at most; [rounds] counts the iterations left. *)
Fixpoint resolve (rounds : nat) (fs : Fs.t) (destination_base : Fs.path)
         (folder_name : jvalue) (workshop_id : string)
         (attempts : Z) (final_folder : Fs.path) : Fs.path :=
  match rounds with
  | O => final_folder
  | S rounds' =>
      if Fs.exists_ fs final_folder && (attempts <? 10) && name_differs final_folder folder_name
      then
        let attempts := attempts + 1 in
        resolve rounds' fs destination_base folder_name workshop_id attempts
                (Fs.join destination_base (suffixed folder_name workshop_id attempts))
      else final_folder
  end.

(** The folder the item is installed into. *)
Definition final_folder_of (fs : Fs.t) (destination_base : Fs.path)
           (folder_name : jvalue) (workshop_id : string) : Fs.path :=
  resolve 10 fs destination_base folder_name workshop_id 0
          (Fs.join destination_base (str folder_name)).

End Install.


(* ===================================================================== *)
(** ** The shared status record                                           *)
(* ===================================================================== *)

(** The values of [app_state["download_status"]]. *)
Inductive phase : Type :=
| Idle
| Preparing
| Downloading
| Installing
| Completed
| Error
| Stopped.

(** The keys of [app_state] the orchestrator works with.  The keys
    ["file_size"], ["library_items"], ["progress_samples"] and
    ["last_update"] are written and never read by it; they are left out. *)
Record AppState : Type := {
  download_progress : Z;
  download_status : phase;
  current_download : option string;
  current_title : string;
  queue : list string;
  downloading : bool;
  download_speed : string;
  status_message : string
}.

(** The initial value of [app_state]. *)
Definition initial_state : AppState := {|
  download_progress := 0;
  download_status := Idle;
  current_download := None;
  current_title := "";
  queue := [];
  downloading := false;
  download_speed := "0 B/s";
  status_message := ""
|}.

(** One keyword argument of [_update_state]. *)
Inductive assign : Type :=
| Status (p : phase)
| ProgressIs (z : Z)
| Message (s : string)
| CurrentDownload (o : option string)
| CurrentTitle (s : string)
| IsDownloading (b : bool)
| Speed (s : string)
| Queue (q : list string).

Definition apply_assign (st : AppState) (a : assign) : AppState :=
  match a with
  | Status p =>
      {| download_progress := download_progress st; download_status := p;
         current_download := current_download st; current_title := current_title st;
         queue := queue st; downloading := downloading st;
         download_speed := download_speed st; status_message := status_message st |}
  | ProgressIs z =>
      {| download_progress := z; download_status := download_status st;
         current_download := current_download st; current_title := current_title st;
         queue := queue st; downloading := downloading st;
         download_speed := download_speed st; status_message := status_message st |}
  | Message s =>
      {| download_progress := download_progress st; download_status := download_status st;
         current_download := current_download st; current_title := current_title st;
         queue := queue st; downloading := downloading st;
         download_speed := download_speed st; status_message := s |}
  | CurrentDownload o =>
      {| download_progress := download_progress st; download_status := download_status st;
         current_download := o; current_title := current_title st;
         queue := queue st; downloading := downloading st;
         download_speed := download_speed st; status_message := status_message st |}
  | CurrentTitle s =>
      {| download_progress := download_progress st; download_status := download_status st;
         current_download := current_download st; current_title := s;
         queue := queue st; downloading := downloading st;
         download_speed := download_speed st; status_message := status_message st |}
  | IsDownloading b =>
      {| download_progress := download_progress st; download_status := download_status st;
         current_download := current_download st; current_title := current_title st;
         queue := queue st; downloading := b;
         download_speed := download_speed st; status_message := status_message st |}
  | Speed s =>
      {| download_progress := download_progress st; download_status := download_status st;
         current_download := current_download st; current_title := current_title st;
         queue := queue st; downloading := downloading st;
         download_speed := s; status_message := status_message st |}
  | Queue q =>
      {| download_progress := download_progress st; download_status := download_status st;
         current_download := current_download st; current_title := current_title st;
         queue := q; downloading := downloading st;
         download_speed := download_speed st; status_message := status_message st |}
  end.

(** [app_state.update(kwargs)] *)
Definition update (kwargs : list assign) (st : AppState) : AppState :=
  fold_left apply_assign kwargs st.

(** A worker's view of the record: its current value and, in order, the
    value after each call of [_update_state], which is what a reader of the
    status can observe. *)
Record Job : Type := {
  state : AppState;
  reports : list AppState
}.

Definition start_job (st : AppState) : Job := {| state := st; reports := [] |}.

(** [self._update_state] with its keyword arguments in order. *)
Definition _update_state (kwargs : list assign) (job : Job) : Job :=
  let st := update kwargs (state job) in
  {| state := st; reports := reports job ++ [st] |}.

(* ===================================================================== *)
(** ** The single-job machine: [_perform_download]                        *)
(* ===================================================================== *)

(** What one iteration of the polling loop observes. *)
Record Tick : Type := {
  (** [self.stop_event.is_set()] at the top of the iteration *)
  stop_is_set : bool;
  (** [self.process.wait(timeout=5)] raises [TimeoutExpired] *)
  wait_times_out : bool;
  (** [get_folder_size] of the download area, when it exists *)
  download_size : option Z;
  (** [get_folder_size] of the content area, when it exists *)
  content_size : option Z;
  (** [format_speed(delta / elapsed)], or ["0 B/s"] *)
  speed : string;
  (** [self.process.poll() is None] once the tick has slept and sampled *)
  still_running : bool
}.

(** The world of one job: what the calls that leave the program answer.

    The three settings are the outcomes of [get_setting], which reads and
    interpolates the configuration file at every call and raises when it
    cannot.  [disk] is the file system at admission.  [details] is the
    outcome of [request_workshop_details]: the text of the exception it
    raised, or the title and the file size of the item; [scraped_size] is
    what [get_workshop_file_size] returns.  [popen] is the exception
    [subprocess.Popen] raises, if it does.  [ticks] are the iterations of the
    polling loop up to the exit of the external process, [return_code] its
    exit code.  [downloaded] is the file system once the process has exited
    and the wait for [workshop.json] is over (that wait reports nothing and
    changes nothing); [metadata] is what [read_workshop_json] returns on the
    manifest found, [None] for a file that cannot be parsed or holds no
    field.  [library] is the exception [load_library_if_available] raises, if
    it does.  [exc_text] is [str(exc)] for the exception the handler of the
    job catches: the libraries make that text from the arguments of the call
    that failed (the command line, a path), so it belongs to the world.  The
    scans of [get_folder_size] are taken to succeed. *)
Record Env : Type := {
  DestinationFolder : result string;
  SteamCMDPath : result string;
  clean_on_finish : result string;
  disk : Fs.t;
  details : string + (option string * pyobj);
  scraped_size : option Z;
  popen : option exn;
  ticks : list Tick;
  return_code : Z;
  downloaded : Fs.t;
  metadata : option Manifest;
  library : option exn;
  exc_text : exn -> string
}.

(** [DownloadResult] *)
Record DownloadResult : Type := {
  success : bool;
  message : string
}.

(** A run of [_perform_download]: the status record with its reports, what
    the call returned or the exception that escaped it, whether the external
    process was started, and the file system of the last step that
    succeeded (what a copy that fails leaves behind is not modelled). *)
Record Run : Type := {
  job : Job;
  outcome : result DownloadResult;
  spawned : bool;
  fs_out : Fs.t
}.

Module Worker.

Definition STEAM_APP_ID : string := "311210".

(** [str(path)] *)
Definition str_path (p : Fs.path) : string :=
  fold_right (fun c acc => ("/" ++ c ++ acc)%string) "" p.

(** [get_folder_size(path)]: [os.walk] visits the directory [path] and
    what is below it, and the sizes of the files found are added up; a path
    that is missing or is a file is not walked. *)
Definition get_folder_size (fs : Fs.t) (p : Fs.path) : Z :=
  match Fs.lookup fs p with
  | Some Fs.Dir =>
      fold_right
        (fun e acc =>
           match snd e with
           | Fs.File content =>
               if Fs.under p (fst e) then Z.of_nat (String.length content) + acc else acc
           | Fs.Dir => acc
           end)
        0 fs
  | _ => 0
  end.

(** [convert_bytes_to_readable(size)] on an [int].  The text it returns
    goes to the key ["file_size"], which is left out; what is kept is
    whether the call returns: [float(total_bytes)] raises [OverflowError] on
    an [int] too large for a [float]. *)
Definition convert_bytes_to_readable (total_bytes : Z) : result unit :=
  if total_bytes <=? 0 then Returns tt
  else if PyNum.overflows (PyNum.nearest total_bytes 1) then Raises OverflowError
  else Returns tt.

(** An early [return DownloadResult(False, result_message)] after a report
    of the error. *)
Definition reject (kwargs : list assign) (result_message : string)
           (j : Job) (started : bool) (fs : Fs.t) : Run :=
  {| job := _update_state kwargs j;
     outcome := Returns {| success := false; message := result_message |};
     spawned := started;
     fs_out := fs |}.

(** The usual error report: the message goes to the status and to the
    result. *)
Definition fail (msg : string) (j : Job) (started : bool) (fs : Fs.t) : Run :=
  reject [Status Error; Message msg; IsDownloading false] msg j started fs.

(** [except Exception as exc:] around the polling loop and the install:
    [str(exc)] goes to the status and to the result. *)
Definition handle (env : Env) (e : exn) (j : Job) (fs : Fs.t) : Run :=
  fail (exc_text env e) j true fs.

(** An exception that nothing catches. *)
Definition escape (e : exn) (j : Job) (started : bool) (fs : Fs.t) : Run :=
  {| job := j; outcome := Raises e; spawned := started; fs_out := fs |}.

(** How the polling loop ends. *)
Inductive loop_exit : Type :=
| LoopStopped (j : Job)
| LoopRaised (e : exn) (j : Job)
| LoopDone (j : Job).

(** [max(get_folder_size(path) - baseline, 0)] when [path] exists, else 0 *)
Definition growth (size : option Z) (baseline : Z) : Z :=
  match size with
  | Some bytes => Z.max (bytes - baseline) 0
  | None => 0
  end.

(** [while self.process.poll() is None:] one tick per iteration; the process
    is found exited when the ticks are used up, or after a tick that saw it
    exit. *)
Fixpoint download_loop (file_size_bytes baseline_download_bytes baseline_content_bytes : Z)
         (ticks : list Tick) (size_samples : list Z) (j : Job) : loop_exit :=
  match ticks with
  | [] => LoopDone j
  | t :: rest =>
      if stop_is_set t then
        (* self.process.terminate(); self.process.wait(timeout=5) *)
        if wait_times_out t then LoopRaised TimeoutExpired j
        else
          LoopStopped
            (_update_state [Status Stopped; Message "Download cancelled by user";
                            IsDownloading false; Speed "0 B/s"] j)
      else
        let download_bytes := growth (download_size t) baseline_download_bytes in
        let content_bytes := growth (content_size t) baseline_content_bytes in
        let total_bytes := download_bytes + content_bytes in
        let size_samples := Progress.push_sample size_samples total_bytes in
        let current_progress := download_progress (state j) in
        match Progress.tick_progress size_samples file_size_bytes current_progress
                                     (still_running t) with
        | Raises e => LoopRaised e j
        | Returns progress =>
            let j := _update_state [ProgressIs progress; Speed (speed t);
                                    Message "Downloading from Steam Workshop..."] j in
            if still_running t
            then download_loop file_size_bytes baseline_download_bytes
                               baseline_content_bytes rest size_samples j
            else LoopDone j
        end
  end.

(** The manifest the finalizer settles on: [content/workshop.json], else the
    first [workshop.json] found below the content area, else the first one
    below the download area. *)
Definition find_manifest (fs : Fs.t) (content_path download_path : Fs.path) : option Fs.path :=
  let workshop_json := Fs.join content_path "workshop.json" in
  let named root e :=
      Fs.under root (fst e) && String.eqb (Fs.name (fst e)) "workshop.json" in
  if Fs.exists_ fs workshop_json then Some workshop_json
  else
    let candidates :=
        if Fs.exists_ fs content_path then filter (named content_path) fs else [] in
    let candidates :=
        match candidates with
        | [] => if Fs.exists_ fs download_path then filter (named download_path) fs else []
        | _ => candidates
        end in
    match candidates with
    | c :: _ => Some (fst c)
    | [] => None
    end.

(** The end of the install step, once the files are copied: the clean-up,
    the report of the completion, and the refresh of the library listing,
    which still runs under the handler of the job. *)
Definition complete (env : Env) (download_path content_path : Fs.path)
           (fs : Fs.t) (j : Job) : Run :=
  match clean_on_finish env with
  | Raises e => handle env e j fs
  | Returns setting =>
      let fs :=
          if String.eqb (PyStr.lower setting) "on"
          then Fs.remove_tree (Fs.remove_tree fs download_path) content_path
          else fs in
      let j := _update_state [Status Completed; ProgressIs 100; Speed "0 B/s";
                              Message "Download completed successfully";
                              IsDownloading false] j in
      (* app_state["library_items"] = load_library_if_available() *)
      match library env with
      | Some e => handle env e j fs
      | None =>
          {| job := j;
             outcome := Returns {| success := true; message := "Download completed" |};
             spawned := true;
             fs_out := fs |}
      end
  end.

(** The install step, from the read of the manifest on. *)
Definition install (env : Env) (workshop_id : string)
           (destination_folder download_path content_path source_root : Fs.path)
           (manifest : Manifest) (fs : Fs.t) (j : Job) : Run :=
  let folder_name := Install.folder_name_of manifest workshop_id in
  match Install.item_type_of manifest with
  | Raises e => handle env e j fs
  | Returns item_type =>
      let destination_base := Install.destination_base_of destination_folder item_type in
      match Fs.makedirs fs destination_base with
      | Raises e => handle env e j fs
      | Returns fs1 =>
          let final_folder := Install.final_folder_of fs1 destination_base folder_name workshop_id in
          let zone_folder := Fs.join final_folder "zone" in
          match Fs.makedirs fs1 zone_folder with
          | Raises e => handle env e j fs1
          | Returns fs2 =>
              let j := _update_state [Status Installing;
                                      Message "Installing into game folder..."] j in
              match Fs.copytree fs2 source_root zone_folder with
              | Raises e => handle env e j fs2
              | Returns fs3 => complete env download_path content_path fs3 j
              end
          end
      end
  end.

(** After the polling loop: the exit code, the manifest, the install. *)
Definition finalize (env : Env) (workshop_id : string)
           (destination_folder download_path content_path : Fs.path) (j : Job) : Run :=
  let fs := downloaded env in
  if negb (return_code env =? 0) then
    fail "SteamCMD failed to download the item" j true fs
  else
    let j := _update_state [Message "Finalizing download..."] j in
    match find_manifest fs content_path download_path with
    | None => fail "workshop.json was not produced by SteamCMD" j true fs
    | Some workshop_json =>
        let source_root :=
            if Fs.exists_ fs content_path && Fs.under content_path workshop_json
            then content_path else removelast workshop_json in
        match metadata env with
        | None => fail "Unable to read workshop.json" j true fs
        | Some manifest =>
            install env workshop_id destination_folder download_path content_path
                    source_root manifest fs j
        end
    end.

(** From the creation of the download area to the end of the job. *)
Definition supervise (env : Env) (workshop_id : string) (file_size_bytes : Z)
           (destination_folder steamcmd_path : Fs.path) (fs : Fs.t) (j : Job) : Run :=
  let area kind :=
      steamcmd_path ++ ["steamapps"; "workshop"; kind; STEAM_APP_ID; workshop_id] in
  let workshop_download_path := area "downloads" in
  let workshop_content_path := area "content" in
  match Fs.makedirs fs workshop_download_path with
  | Raises e => escape e j false fs
  | Returns fs =>
      let baseline_download_bytes := get_folder_size fs workshop_download_path in
      let baseline_content_bytes :=
          if Fs.exists_ fs workshop_content_path
          then get_folder_size fs workshop_content_path else 0 in
      (* self.process = subprocess.Popen(command, ...) *)
      match popen env with
      | Some e => escape e j false fs
      | None =>
          match download_loop file_size_bytes baseline_download_bytes baseline_content_bytes
                              (ticks env) [] j with
          | LoopStopped j =>
              {| job := j;
                 outcome := Returns {| success := false; message := "Download stopped" |};
                 spawned := true;
                 fs_out := fs |}
          | LoopRaised e j => handle env e j fs
          | LoopDone j =>
              finalize env workshop_id destination_folder
                       workshop_download_path workshop_content_path j
          end
      end
  end.

(** The lookup of the item and the switch to the downloading phase. *)
Definition lookup_item (env : Env) (workshop_id : string)
           (destination_folder steamcmd_path : Fs.path) (j : Job) : Run :=
  let fs := disk env in
  match details env with
  | inl exc => fail exc j false fs
  | inr (title, reported_size) =>
      let item_title := match title with
                        | Some t => if PyStr.is_empty t then workshop_id else t
                        | None => workshop_id
                        end in
      match to_int reported_size with
      | Raises e => escape e j false fs
      | Returns file_size_bytes =>
          let scraped := match scraped_size env with
                         | Some z => PyInt z
                         | None => PyNone
                         end in
          match (if file_size_bytes =? 0 then to_int scraped else Returns file_size_bytes) with
          | Raises e => escape e j false fs
          | Returns file_size_bytes =>
              (* file_size=convert_bytes_to_readable(file_size_bytes)
                           if file_size_bytes else "Unknown" *)
              match (if file_size_bytes =? 0 then Returns tt
                     else convert_bytes_to_readable file_size_bytes) with
              | Raises e => escape e j false fs
              | Returns _ =>
                  let j := _update_state [IsDownloading true;
                                          CurrentDownload (Some workshop_id);
                                          CurrentTitle item_title; Status Downloading;
                                          Message "Downloading from Steam Workshop..."] j in
                  supervise env workshop_id file_size_bytes destination_folder
                            steamcmd_path fs j
              end
          end
      end
  end.

(** The checks of the destination folder and of SteamCMD. *)
Definition check_paths (env : Env) (workshop_id : string)
           (destination_folder steamcmd_path : Fs.path) (j : Job) : Run :=
  let fs := disk env in
  if negb (Fs.exists_ fs destination_folder) then
    fail "Destination folder does not exist" j false fs
  else
    let is_file := match Fs.lookup fs steamcmd_path with
                   | Some (Fs.File _) => true
                   | _ => false
                   end in
    if is_file && negb (String.eqb (PyStr.lower (Fs.name steamcmd_path)) "steamcmd.exe") then
      fail ("Invalid SteamCMD executable: " ++ Fs.name steamcmd_path)%string j false fs
    else
      let steamcmd_exe :=
          if is_file then steamcmd_path else Fs.join steamcmd_path "steamcmd.exe" in
      let steamcmd_path := if is_file then removelast steamcmd_path else steamcmd_path in
      if negb (Fs.exists_ fs steamcmd_path) then
        fail ("SteamCMD path does not exist: " ++ str_path steamcmd_path)%string j false fs
      else if negb (Fs.exists_ fs steamcmd_exe) then
        reject [Status Error;
                Message ("steamcmd.exe not found in " ++ str_path steamcmd_path)%string;
                IsDownloading false]
               "SteamCMD was not found" j false fs
      else lookup_item env workshop_id destination_folder steamcmd_path j.

(** The checks of the two settings and of the identifier. *)
Definition check_settings (env : Env) (workshop_id destination steamcmd : string)
           (j : Job) : Run :=
  let fs := disk env in
  let destination_raw := PyStr.strip destination in
  let steamcmd_raw := PyStr.strip steamcmd in
  if PyStr.is_empty destination_raw then fail "Destination folder is not set" j false fs
  else if PyStr.is_empty steamcmd_raw then fail "SteamCMD path is not set" j false fs
  else
    let destination_folder := Fs.join [] destination_raw in
    let steamcmd_path := Fs.join [] steamcmd_raw in
    if negb (PyStr.isdigit workshop_id) then
      match extract_workshop_id workshop_id with
      | None =>
          reject [Status Error; Message "Invalid Workshop ID"] "Invalid Workshop ID" j false fs
      | Some extracted =>
          check_paths env extracted destination_folder steamcmd_path j
      end
    else check_paths env workshop_id destination_folder steamcmd_path j.

(** [_perform_download(workshop_id)] on the status record [st]. *)
Definition _perform_download (env : Env) (st : AppState) (workshop_id : string) : Run :=
  let fs := disk env in
  let workshop_id := PyStr.strip workshop_id in
  let j := _update_state [Status Preparing; ProgressIs 0; Message "Preparing download...";
                          CurrentDownload (Some workshop_id); CurrentTitle "";
                          IsDownloading true; Speed "0 B/s"] (start_job st) in
  (* destination_raw = get_setting("DestinationFolder", "").strip()
     steamcmd_raw = get_setting("SteamCMDPath", "").strip() *)
  match DestinationFolder env with
  | Raises e => escape e j false fs
  | Returns destination =>
      match SteamCMDPath env with
      | Raises e => escape e j false fs
      | Returns steamcmd => check_settings env workshop_id destination steamcmd j
      end
  end.

End Worker.

(* ===================================================================== *)
(** ** [DownloadManager]: admission and the queue                          *)
(* ===================================================================== *)

(** [self.current_mode] *)
Inductive mode : Type :=
| SingleMode
| QueueMode.

(** What a worker thread was started to run. *)
Inductive target : Type :=
| RunDownload (workshop_id : string)
| ProcessQueue.

(** A [threading.Thread]: its target and whether it is still alive. *)
Record Thread : Type := {
  runs : target;
  is_alive : bool
}.

Record DownloadManager : Type := {
  thread : option Thread;
  queue_thread : option Thread;
  stop_event : bool;
  current_mode : option mode
}.

(** The process-wide state: [app_state] and [download_manager]. *)
Record System : Type := {
  app_state : AppState;
  download_manager : DownloadManager
}.

Definition initial_manager : DownloadManager := {|
  thread := None;
  queue_thread := None;
  stop_event := false;
  current_mode := None
|}.

Definition initial_system : System := {|
  app_state := initial_state;
  download_manager := initial_manager
|}.

Module Manager.

Definition alive (t : option Thread) : bool :=
  match t with
  | Some th => is_alive th
  | None => false
  end.

(** [is_busy()] *)
Definition is_busy (m : DownloadManager) : bool :=
  let running := alive (thread m) in
  let queued := alive (queue_thread m) in
  running || queued.

(** [start_download(workshop_id)]: the system afterwards and the pair the
    call returns. *)
Definition start_download (sys : System) (workshop_id : string)
  : System * (bool * option string) :=
  let m := download_manager sys in
  if is_busy m then (sys, (false, Some "Another download is already running"))
  else
    ({| app_state := app_state sys;
        download_manager :=
          {| thread := Some {| runs := RunDownload workshop_id; is_alive := true |};
             queue_thread := queue_thread m;
             stop_event := false;
             current_mode := Some SingleMode |} |},
     (true, None)).

(** [start_queue()] *)
Definition start_queue (sys : System) : System * (bool * option string) :=
  let m := download_manager sys in
  if is_busy m then (sys, (false, Some "A download is already running"))
  else
    match queue (app_state sys) with
    | [] => (sys, (false, Some "The queue is empty"))
    | _ :: _ =>
        ({| app_state := app_state sys;
            download_manager :=
              {| thread := thread m;
                 queue_thread := Some {| runs := ProcessQueue; is_alive := true |};
                 stop_event := false;
                 current_mode := Some QueueMode |} |},
         (true, None))
    end.

(** [item in app_state["queue"]] *)
Definition mem (item : string) (q : list string) : bool :=
  existsb (String.eqb item) q.

(** The loop of [enqueue(items)]: the queue and the list [added], both in
    the order of [items]. *)
Fixpoint enqueue_loop (items q added : list string) : list string * list string :=
  match items with
  | [] => (q, added)
  | item :: rest =>
      if mem item q then enqueue_loop rest q added
      else enqueue_loop rest (q ++ [item]) (added ++ [item])
  end.

(** [enqueue(items)]: the status record afterwards and the list returned. *)
Definition enqueue (st : AppState) (items : list string) : AppState * list string :=
  let (q, added) := enqueue_loop items (queue st) [] in
  (update [Queue q] st, added).

(** [stop()]: the event is set; the termination of the external process
    shows in the ticks of the job. *)
Definition stop (m : DownloadManager) : DownloadManager :=
  {| thread := thread m; queue_thread := queue_thread m;
     stop_event := true; current_mode := current_mode m |}.

(** The endpoint [POST /api/download]: the HTTP status it answers with. *)
Definition download_workshop_item (sys : System) (workshop_id : string) : System * Z :=
  if PyStr.is_empty workshop_id then (sys, 400)
  else
    let (sys', answer) := start_download sys workshop_id in
    if fst answer then (sys', 200) else (sys', 409).

(** The endpoint [POST /api/queue] on a list of items: those with an
    extractable identifier are enqueued. *)
Definition add_to_queue (st : AppState) (raw_items : list string) : AppState * list string :=
  let cleaned :=
      flat_map (fun item => match extract_workshop_id item with
                            | Some extracted => [extracted]
                            | None => []
                            end) raw_items in
  enqueue st cleaned.

End Manager.

(* ===================================================================== *)
(** ** The rest of the API                                                *)
(* ===================================================================== *)

Module Api.

(** [WORKSHOP_URL.format(id=workshop_id)] *)
Definition WORKSHOP_URL (workshop_id : string) : string :=
  ("https://steamcommunity.com/sharedfiles/filedetails/?id=" ++ workshop_id)%string.

(** [l.remove(x)]: the first occurrence of [x] is taken out. *)
Fixpoint list_remove (x : string) (l : list string) : list string :=
  match l with
  | [] => []
  | y :: rest => if String.eqb y x then rest else y :: list_remove x rest
  end.

(** The endpoint [DELETE /api/queue/<item_id>]: the status record
    afterwards and the HTTP status answered. *)
Definition remove_from_queue (st : AppState) (item_id : string) : AppState * Z :=
  let item_id := match extract_workshop_id item_id with
                 | Some extracted => extracted
                 | None => item_id
                 end in
  if Manager.mem item_id (queue st)
  then (update [Queue (list_remove item_id (queue st))] st, 200)
  else (st, 404).

(** The endpoint [DELETE /api/queue]: [app_state["queue"].clear()] *)
Definition clear_queue (st : AppState) : AppState := update [Queue []] st.

End Api.

(* ===================================================================== *)
(** ** The worker threads and the requests served while they run          *)
(* ===================================================================== *)

(** A request that changes the pending queue.  The API serves requests on
    threads of their own, and none of the three endpoints takes the lock or
    looks at the worker, so a request can be served between any two steps of
    a worker thread. *)
Inductive request : Type :=
| AddToQueue (raw_items : list string)
| ClearQueue
| RemoveFromQueue (item_id : string).

Module Runner.

(** One iteration of the loop of [_process_queue] as the thread lives it:
    the value of the stop event when the loop tests it, the requests served
    between that test and the read of [queue[0]], the world of the job, the
    requests served while the job runs (the first batch before its first
    report, the next one between its first and its second report, and so
    on; what is left once the reports are used up is served before the job
    returns), the value of [self.current_mode] when the thread reads it
    ([start_queue] assigns it after it has started the thread, so a thread
    that gets there first reads what was left behind), and the requests
    served between [pop(0)] and what the thread does next. *)
Record Round : Type := {
  stop_requested : bool;
  before_read : list request;
  world : Env;
  during : list (list request);
  mode_read : option mode;
  after_pop : list request
}.

(** A run of the queue thread: the status record it leaves, everything it
    reported, the identifiers it passed to [_perform_download] in order, the
    exception that killed the thread if one did, and whether the schedule
    was used up before the loop ended. *)
Record Drain : Type := {
  left : AppState;
  reported : list AppState;
  attempted : list string;
  died : option exn;
  out_of_fuel : bool
}.

(** The effect of a request on the status record. *)
Definition serve (st : AppState) (r : request) : AppState :=
  match r with
  | AddToQueue raw_items => fst (Manager.add_to_queue st raw_items)
  | ClearQueue => Api.clear_queue st
  | RemoveFromQueue item_id => fst (Api.remove_from_queue st item_id)
  end.

Definition serve_all (requests : list request) (st : AppState) : AppState :=
  fold_left serve requests st.

(** The reports of a job as a reader of the status sees them.  The job
    neither reads nor writes the queue, so its reports are those of a run
    that nothing disturbs, each with the queue as the requests served so far
    have left it.  [live] carries that queue; the result is the reports and
    the record the last request leaves. *)
Fixpoint observe (batches : list (list request)) (live : AppState)
         (job_reports : list AppState) : list AppState * AppState :=
  match job_reports with
  | [] => ([], serve_all (List.concat batches) live)
  | report :: rest =>
      let live := serve_all (hd [] batches) live in
      let (seen, live') := observe (tl batches) live rest in
      (update [Queue (queue live)] report :: seen, live')
  end.

(** A job run by a worker thread on the status record [st] while the
    requests [batches] are served: its run, the reports as they were seen,
    and the status record when the job is over. *)
Definition run_job (env : Env) (batches : list (list request)) (st : AppState)
           (workshop_id : string) : Run * list AppState * AppState :=
  let run := Worker._perform_download env st workshop_id in
  let (seen, live) := observe batches st (reports (job run)) in
  (run, seen, update [Queue (queue live)] (state (job run))).

(** [app_state["queue"].pop(0)] *)
Definition pop0 (st : AppState) : result AppState :=
  match queue st with
  | [] => Raises IndexError
  | _ :: rest => Returns (update [Queue rest] st)
  end.

(** The reset both workers end with. *)
Definition release : list assign :=
  [IsDownloading false; CurrentDownload None; CurrentTitle ""; Speed "0 B/s"].

(** The end of [_process_queue], after its loop. *)
Definition finish (j : Job) (ids : list string) : Drain :=
  let j := _update_state release j in
  {| left := state j; reported := reports j; attempted := ids;
     died := None; out_of_fuel := false |}.

(** An exception that nothing catches ends the thread where it is. *)
Definition crash (e : exn) (j : Job) (ids : list string) : Drain :=
  {| left := state j; reported := reports j; attempted := ids;
     died := Some e; out_of_fuel := false |}.

(** One iteration of
    [[
        while app_state["queue"] and not self.stop_event.is_set():
            next_id = app_state["queue"][0]
            result = self._perform_download(next_id)
            if not result.success and self.current_mode == "queue":
                app_state["queue"].pop(0)
                break
            app_state["queue"].pop(0)
    ]]
    from the test of the loop on: the end of the thread, or the job and the
    identifiers the next iteration starts from. *)
Definition step (round : Round) (j : Job) (ids : list string) : Drain + Job * list string :=
  match queue (state j) with
  | [] => inl (finish j ids)
  | _ :: _ =>
      if stop_requested round then inl (finish j ids)
      else
        let st := serve_all (before_read round) (state j) in
        match queue st with
        | [] => inl (crash IndexError {| state := st; reports := reports j |} ids)
        | next_id :: _ =>
            let '(run, seen, st) := run_job (world round) (during round) st next_id in
            let j := {| state := st; reports := reports j ++ seen |} in
            let ids := ids ++ [next_id] in
            match outcome run with
            | Raises e => inl (crash e j ids)
            | Returns result =>
                let failed_in_queue_mode :=
                    negb (success result)
                    && match mode_read round with Some QueueMode => true | _ => false end in
                match pop0 (state j) with
                | Raises e => inl (crash e j ids)
                | Returns st =>
                    let j := {| state := serve_all (after_pop round) st;
                                reports := reports j |} in
                    if failed_in_queue_mode then inl (finish j ids) else inr (j, ids)
                end
            end
        end
  end.

(** The loop over the rounds of a schedule.  Requests can refill the queue
    for ever, so the loop has no bound of its own: a schedule that is used
    up before the loop has ended shows in [out_of_fuel]. *)
Fixpoint queue_loop (schedule : list Round) (j : Job) (ids : list string) : Drain :=
  match schedule with
  | [] => {| left := state j; reported := reports j; attempted := ids;
             died := None; out_of_fuel := true |}
  | round :: later =>
      match step round j ids with
      | inl drain => drain
      | inr (j, ids) => queue_loop later j ids
      end
  end.

(** [_process_queue()] on the status record [st]. *)
Definition _process_queue (schedule : list Round) (st : AppState) : Drain :=
  queue_loop schedule (start_job st) [].

(** [_run_download(workshop_id)] while the requests [batches] are served:
    what was reported and the status record afterwards, and the exception
    that killed the thread if one did; the release is then not reached. *)
Definition _run_download (env : Env) (batches : list (list request)) (st : AppState)
           (workshop_id : string) : Job * option exn :=
  let '(run, seen, st) := run_job env batches st workshop_id in
  let j := {| state := st; reports := seen |} in
  match outcome run with
  | Raises e => (j, Some e)
  | Returns _ => (_update_state release j, None)
  end.

End Runner.


(* ===================================================================== *)
(** ** The repair of folder names                                         *)
(* ===================================================================== *)

Module Repair.

(** [f"{expected_folder}_{suffix}"] *)
Definition suffixed (expected_folder : string) (suffix : Z) : string :=
  (expected_folder ++ "_" ++ Install.str_of_Z suffix)%string.

(** The search for the new name of an entry in
    [fix_bo3_enhanced_compatibility], for a declared folder name that is a
    string:
    [[
        while target_path.exists() and target_path != entry:
            suffix += 1
            target_path = usermaps_dir / f"{expected_folder}_{suffix}"
    ]]
    The loop has no bound of its own; [fuel] counts the rounds the model
    allows, and [None] says that they were used up. *)
Fixpoint rename_target (fuel : nat) (fs : Fs.t) (usermaps_dir entry : Fs.path)
         (expected_folder : string) (suffix : Z) (target_path : Fs.path)
  : option Fs.path :=
  match fuel with
  | O => None
  | S fuel' =>
      if Fs.exists_ fs target_path && negb (Fs.path_eqb target_path entry) then
        let suffix := suffix + 1 in
        rename_target fuel' fs usermaps_dir entry expected_folder suffix
                      (Fs.join usermaps_dir (suffixed expected_folder suffix))
      else Some target_path
  end.

(** The search from [target_path = usermaps_dir / expected_folder] and
    [suffix = 0], with one round more than the file system has entries. *)
Definition free_target (fs : Fs.t) (usermaps_dir entry : Fs.path)
           (expected_folder : string) : option Fs.path :=
  rename_target (S (List.length fs)) fs usermaps_dir entry expected_folder 0
                (Fs.join usermaps_dir expected_folder).

End Repair.

(* ===================================================================== *)
(** ** Specification predicates                                           *)
(* ===================================================================== *)

Module Spec.

(** [s] begins with [id=], then the digit run [d], then no further digit:
    what [id=(\d+)] matches at the start of [s], with [d] as its group. *)
Definition id_digits_here (s d : string) : Prop :=
  exists post : string,
    s = ("id=" ++ d ++ post)%string
    /\ PyStr.isdecimal d = true
    /\ match post with
       | String c _ => PyStr.isdecimal_char c = false
       | EmptyString => True
       end.

(** [d] is the digit run of the first occurrence of [id=<digits>] in [v]. *)
Definition first_id_digits (v d : string) : Prop :=
  exists pre tail : string,
    v = (pre ++ tail)%string
    /\ id_digits_here tail d
    /\ forall pre' tail' d',
        v = (pre' ++ tail')%string ->
        (String.length pre' < String.length pre)%nat ->
        ~ id_digits_here tail' d'.

(** [v] has no occurrence of [id=<digits>]. *)
Definition no_id_digits (v : string) : Prop :=
  forall pre tail d, v = (pre ++ tail)%string -> ~ id_digits_here tail d.

(** Any earlier report shows at most the progress of any later one. *)
Definition non_decreasing (l : list AppState) : Prop :=
  forall (i k : nat) (a b : AppState),
    (i <= k)%nat -> nth_error l i = Some a -> nth_error l k = Some b ->
    download_progress a <= download_progress b.

(** Keyword arguments that touch neither the progress nor the queue. *)
Definition quiet (kwargs : list assign) : bool :=
  forallb (fun a => match a with
                    | ProgressIs _ | Queue _ => false
                    | _ => true
                    end) kwargs.

(** The job and all its reports show the queue [q]. *)
Definition same_queue (q : list string) (j : Job) : Prop :=
  queue (state j) = q /\ Forall (fun s => queue s = q) (reports j).

(** The reports of the job never regress, stay between 0 and the current
    value, and the current value is at most [hi]. *)
Definition ordered (hi : Z) (j : Job) : Prop :=
  non_decreasing (reports j)
  /\ Forall (fun s => 0 <= download_progress s <= download_progress (state j)) (reports j)
  /\ 0 <= download_progress (state j) <= hi.

(** Nothing above 99 was reported so far. *)
Definition capped (j : Job) : Prop :=
  download_progress (state j) <= 99
  /\ Forall (fun s => download_progress s <= 99) (reports j).

(** Every report is at most 99, the report of the completion apart. *)
Definition capped_or_completed (j : Job) : Prop :=
  Forall (fun s => download_progress s <= 99
                   \/ (download_status s = Completed /\ download_progress s = 100))
         (reports j).

(** The job has just reported its completion: nothing it reported before is
    above 99, and its last report, which is its state, shows the completed
    phase and 100. *)
Definition just_completed (j : Job) : Prop :=
  exists below : list AppState,
    reports j = below ++ [state j]
    /\ Forall (fun s => download_progress s <= 99) below
    /\ download_status (state j) = Completed
    /\ download_progress (state j) = 100.

(** Nothing above 99 is reported before the report of the completion, which
    shows 100; the one report that can follow it is the report of an error,
    which leaves the 100 in place. *)
Definition capped_until_completion (l : list AppState) : Prop :=
  Forall (fun s => download_progress s <= 99) l
  \/ exists (below : list AppState) (completed : AppState) (after : list AppState),
       l = below ++ completed :: after
       /\ Forall (fun s => download_progress s <= 99) below
       /\ download_status completed = Completed
       /\ download_progress completed = 100
       /\ (after = []
           \/ exists failed : AppState,
                after = [failed]
                /\ download_status failed = Error
                /\ download_progress failed = 100).

(** The reports of the job begin with [first]. *)
Definition opens_with (first : AppState) (j : Job) : Prop :=
  exists later : list AppState, reports j = first :: later.

(** The items of a call of [enqueue] that are appended: an item is taken
    when the queue [q] does not hold it and the call does not have it at an
    earlier position; [seen] is what comes before it in the call.  The items
    taken keep the order of the call. *)
Fixpoint fresh_from (q seen items : list string) : list string :=
  match items with
  | [] => []
  | item :: rest =>
      if Manager.mem item q || Manager.mem item seen
      then fresh_from q (seen ++ [item]) rest
      else item :: fresh_from q (seen ++ [item]) rest
  end.

Definition fresh_items (q items : list string) : list string := fresh_from q [] items.

(** No request is served in the round. *)
Definition undisturbed (round : Runner.Round) : Prop :=
  Runner.before_read round = []
  /\ Forall (fun batch => batch = []) (Runner.during round)
  /\ Runner.after_pop round = [].

(** The status a run leaves agrees with what it returned: a success goes
    with the completed phase, full progress and a started process, a
    failure with the error or the stopped phase. *)
Definition settled (run : Run) : Prop :=
  match outcome run with
  | Returns result =>
      if success result
      then download_status (state (job run)) = Completed
           /\ download_progress (state (job run)) = 100
           /\ downloading (state (job run)) = false
           /\ spawned run = true
      else download_status (state (job run)) = Error
           \/ download_status (state (job run)) = Stopped
  | Raises _ => True
  end.

(** The job is shown as active: downloading, with a current identifier, in
    the preparing or the downloading phase. *)
Definition shown_active (st : AppState) : Prop :=
  downloading st = true
  /\ current_download st <> None
  /\ (download_status st = Preparing \/ download_status st = Downloading).

(** The status record shows no active download. *)
Definition released (st : AppState) : Prop :=
  downloading st = false
  /\ current_download st = None
  /\ current_title st = ""
  /\ download_speed st = "0 B/s".

(** The file system [fs'] is [fs] with directories added: every entry of
    [fs] is what it was, and a path that appears is a directory. *)
Definition grows_by_dirs (fs fs' : Fs.t) : Prop :=
  (forall q n, Fs.lookup fs q = Some n -> Fs.lookup fs' q = Some n)
  /\ (forall q, Fs.lookup fs q = None ->
                Fs.lookup fs' q = None \/ Fs.lookup fs' q = Some Fs.Dir).

(** Files are leaves: no entry lies below a file. *)
Definition tree_like (fs : Fs.t) : Prop :=
  forall p content q n,
    In (p, Fs.File content) fs -> In (q, n) fs -> Fs.under p q = true -> q = p.

(** In [fs] no directory stands where a file of the tree [src] of [fs0] has
    its place below [dst]. *)
Definition unobstructed (fs0 : Fs.t) (src dst : Fs.path) (fs : Fs.t) : Prop :=
  forall p content rel,
    In (p, Fs.File content) fs0 -> Fs.relative_to src p = Some rel -> rel <> [] ->
    Fs.lookup fs (dst ++ rel) <> Some Fs.Dir.

(** A plain folder name: not empty, not ["."], without a separator. *)
Definition plain_name (s : string) : bool :=
  negb (PyStr.is_empty s) && negb (String.eqb s ".")
  && PyStr.all_chars (fun c => negb (Ascii.eqb c "/")) s.

(** The folders the install step considers, in order: the declared name,
    then the names with the suffixes 1, 2, ... *)
Definition candidate (destination_base : Fs.path) (folder_name : jvalue)
           (workshop_id : string) (k : Z) : Fs.path :=
  if k =? 0 then Fs.join destination_base (Install.str folder_name)
  else Fs.join destination_base (Install.suffixed folder_name workshop_id k).

(** The names the repair considers, in order: the declared name, then the
    names with the suffixes 1, 2, ... *)
Definition repair_candidate (usermaps_dir : Fs.path) (expected_folder : string)
           (k : Z) : Fs.path :=
  if k =? 0 then Fs.join usermaps_dir expected_folder
  else Fs.join usermaps_dir (Repair.suffixed expected_folder k).

End Spec.

(* ===================================================================== *)
(** ** Sample inputs                                                      *)
(* ===================================================================== *)

(** The superscript two, U+00B2: a digit for [str.isdigit], not a decimal
    digit. *)
Definition superscript_two : string := String "178"%char EmptyString.

Module Sample.

(** A destination folder and a SteamCMD folder with its executable. *)
Definition disk0 : Fs.t :=
  [ (["games"], Fs.Dir);
    (["games"; "bo3"], Fs.Dir);
    (["steamcmd"], Fs.Dir);
    (["steamcmd"; "steamcmd.exe"], Fs.File "MZ") ].

Definition content_999 : Fs.path :=
  ["steamcmd"; "steamapps"; "workshop"; "content"; "311210"; "999"].

(** The same disk once SteamCMD has fetched item 999: a manifest and one
    data file. *)
Definition disk_fetched : Fs.t :=
  [ (content_999 ++ ["workshop.json"], Fs.File "{}");
    (content_999 ++ ["data.ff"], Fs.File "new") ]
  ++ map (fun p => (p, Fs.Dir)) (tl (Fs.prefixes content_999))
  ++ disk0.

(** The folder [usermaps/cool_map] of another item, already installed. *)
Definition other_item : Fs.t :=
  [ (["games"; "bo3"; "usermaps"], Fs.Dir);
    (["games"; "bo3"; "usermaps"; "cool_map"], Fs.Dir);
    (["games"; "bo3"; "usermaps"; "cool_map"; "zone"], Fs.Dir);
    (["games"; "bo3"; "usermaps"; "cool_map"; "zone"; "data.ff"], Fs.File "old");
    (["games"; "bo3"; "usermaps"; "cool_map"; "zone"; "workshop.json"], Fs.File "{111}") ].

Definition cool_map : Manifest :=
  {| FolderName := JStr "cool_map"; PublisherID := JStr "999"; Type_ := JStr "map" |}.

(** [str(exc)] for the exceptions of the jobs below: the text of the
    [TimeoutExpired] that [wait(timeout=5)] raises carries the command line
    of item 999. *)
Definition text (e : exn) : string :=
  match e with
  | TimeoutExpired =>
      "Command '['/steamcmd/steamcmd.exe', '+login', 'anonymous', 'app_update', '311210', '+workshop_download_item', '311210', '999', 'validate', '+quit']' timed out after 5 seconds"
  | AttributeError => "'int' object has no attribute 'lower'"
  | OverflowError => "integer division result too large for a float"
  | OSError => "[Errno 13] Permission denied: '/games/bo3/usermaps'"
  | _ => "unexpected"
  end.

(** A job that can run to completion: item 999 of 100 bytes, the given ticks
    and exit code. *)
Definition env (observed : list Tick) (exit_code : Z) (before after : Fs.t) : Env :=
  {| DestinationFolder := Returns "/games/bo3";
     SteamCMDPath := Returns "/steamcmd";
     clean_on_finish := Returns "on";
     disk := before;
     details := inr (Some "Cool Map", PyStr "100");
     scraped_size := None;
     popen := None;
     ticks := observed;
     return_code := exit_code;
     downloaded := after;
     metadata := Some cool_map;
     library := None;
     exc_text := text |}.

(** A job whose destination folder is not configured. *)
Definition env_unset : Env :=
  {| DestinationFolder := Returns "";
     SteamCMDPath := Returns "/steamcmd";
     clean_on_finish := Returns "on";
     disk := disk0;
     details := inr (Some "Cool Map", PyStr "100");
     scraped_size := None;
     popen := None;
     ticks := [];
     return_code := 0;
     downloaded := disk0;
     metadata := None;
     library := None;
     exc_text := text |}.

(** A round of the queue thread in which no stop is requested and no
    request is served, with the mode as [start_queue] has assigned it. *)
Definition calm (env : Env) : Runner.Round :=
  {| Runner.stop_requested := false;
     Runner.before_read := [];
     Runner.world := env;
     Runner.during := [];
     Runner.mode_read := Some QueueMode;
     Runner.after_pop := [] |}.

(** A tick in which [bytes] bytes are found in the download area. *)
Definition sampled (bytes : Z) (running : bool) : Tick :=
  {| stop_is_set := false; wait_times_out := false;
     download_size := Some bytes; content_size := None;
     speed := "1.00 KB/s"; still_running := running |}.

(** A tick that finds the stop event set; [late] tells whether the process
    outlives the five seconds it is given to exit. *)
Definition cancelled (late : bool) : Tick :=
  {| stop_is_set := true; wait_times_out := late;
     download_size := None; content_size := None;
     speed := "0 B/s"; still_running := true |}.

(** A manager whose single-download thread is alive. *)
Definition busy_system : System :=
  {| app_state := update [Queue ["7"]; CurrentDownload (Some "5"); Status Downloading]
                         initial_state;
     download_manager :=
       {| thread := Some {| runs := RunDownload "5"; is_alive := true |};
          queue_thread := None;
          stop_event := false;
          current_mode := Some SingleMode |} |}.

(** A status record with the given pending queue. *)
Definition pending (q : list string) : AppState := update [Queue q] initial_state.

End Sample.

(** A job whose item reports the file size ["inf"]. *)
Definition Sample_env_infinite : Env :=
  {| DestinationFolder := Returns "/games/bo3";
     SteamCMDPath := Returns "/steamcmd";
     clean_on_finish := Returns "on";
     disk := Sample.disk0;
     details := inr (Some "Cool Map", PyStr "inf");
     scraped_size := None;
     popen := None;
     ticks := [];
     return_code := 0;
     downloaded := Sample.disk0;
     metadata := None;
     library := None;
     exc_text := Sample.text |}.

(** A source tree with one file and a destination that holds a file of the
    same name and one of its own. *)
Definition Sample_trees : Fs.t :=
  [ (["src"], Fs.Dir);
    (["src"; "a"], Fs.File "new");
    (["dst"], Fs.Dir);
    (["dst"; "a"], Fs.File "old");
    (["dst"; "b"], Fs.File "kept") ].

(** A [usermaps] folder where the declared name of the entry [123456] and
    its first suffixed name are taken. *)
Definition Sample_usermaps : Fs.t :=
  [ (["usermaps"], Fs.Dir);
    (["usermaps"; "123456"], Fs.Dir);
    (["usermaps"; "zm_town"], Fs.Dir);
    (["usermaps"; "zm_town_1"], Fs.Dir) ].

(* ===================================================================== *)
(** * Properties                                                          *)
(* ===================================================================== *)

(** ** [extract_workshop_id] *)

Lemma isdecimal_char_isdigit_char (c : ascii) :
  PyStr.isdecimal_char c = true -> PyStr.isdigit_char c = true.
Proof.
  unfold PyStr.isdigit_char. intros ->. reflexivity.
Qed.

Lemma all_decimal_all_digit (s : string) :
  PyStr.all_chars PyStr.isdecimal_char s = true ->
  PyStr.all_chars PyStr.isdigit_char s = true.
Proof.
  induction s as [|c r IH]; simpl; intros H; [reflexivity|].
  apply andb_true_iff in H as [Hc Hr].
  rewrite (isdecimal_char_isdigit_char c Hc), (IH Hr). reflexivity.
Qed.

Lemma isdecimal_isdigit (s : string) :
  PyStr.isdecimal s = true -> PyStr.isdigit s = true.
Proof.
  unfold PyStr.isdecimal, PyStr.isdigit. intros H.
  apply andb_true_iff in H as [Hne Hall].
  rewrite Hne, (all_decimal_all_digit s Hall). reflexivity.
Qed.

Lemma span_all (p : ascii -> bool) (s : string) :
  PyStr.all_chars p (PyStr.span p s) = true.
Proof.
  induction s as [|c r IH]; simpl; [reflexivity|].
  destruct (p c) eqn:Hc; simpl; [rewrite Hc, IH|]; reflexivity.
Qed.

(** [span] splits a string into the run and a rest that does not go on
    with the class. *)
Lemma span_split (p : ascii -> bool) (s : string) :
  exists post : string,
    s = (PyStr.span p s ++ post)%string
    /\ match post with String c _ => p c = false | EmptyString => True end.
Proof.
  induction s as [|c r [post [Heq Hpost]]]; simpl.
  - exists EmptyString. split; [reflexivity|exact I].
  - destruct (p c) eqn:Hc.
    + exists post. split; [simpl; f_equal; exact Heq|exact Hpost].
    + exists (String c r). split; [reflexivity|exact Hc].
Qed.

Lemma span_run (p : ascii -> bool) (d post : string) :
  PyStr.all_chars p d = true ->
  match post with String c _ => p c = false | EmptyString => True end ->
  PyStr.span p (d ++ post) = d.
Proof.
  intros Hd Hpost. induction d as [|c r IH]; simpl in *.
  - destruct post as [|c r]; simpl; [reflexivity|]. rewrite Hpost. reflexivity.
  - apply andb_true_iff in Hd as [Hc Hr]. rewrite Hc, (IH Hr). reflexivity.
Qed.

Lemma startswith_split (p s : string) :
  PyStr.startswith p s = true -> s = (p ++ PyStr.drop (String.length p) s)%string.
Proof.
  revert s. induction p as [|a p IH]; intros s H; simpl in *; [reflexivity|].
  destruct s as [|b s]; [discriminate|].
  apply andb_true_iff in H as [Hab Hs].
  apply Ascii.eqb_eq in Hab. subst b. simpl. f_equal. apply IH, Hs.
Qed.

Lemma startswith_append (p s : string) : PyStr.startswith p (p ++ s) = true.
Proof.
  induction p as [|a p IH]; simpl; [reflexivity|].
  rewrite Ascii.eqb_refl, IH. reflexivity.
Qed.

Lemma drop_append (p s : string) : PyStr.drop (String.length p) (p ++ s) = s.
Proof.
  induction p as [|a p IH]; simpl; [reflexivity|exact IH].
Qed.

(** The anchored match finds exactly the digit run the specification
    describes. *)
Lemma match_id_here_spec (s d : string) :
  PyStr.match_id_here s = Some d <-> Spec.id_digits_here s d.
Proof.
  unfold PyStr.match_id_here, Spec.id_digits_here. split.
  - destruct (PyStr.startswith "id=" s) eqn:Hs; [|discriminate].
    destruct (PyStr.is_empty (PyStr.span PyStr.isdecimal_char (PyStr.drop 3 s))) eqn:He;
      [discriminate|].
    intros [= Hd]. subst d.
    destruct (span_split PyStr.isdecimal_char (PyStr.drop 3 s)) as [post [Heq Hpost]].
    exists post. split; [|split].
    + etransitivity; [exact (startswith_split "id=" s Hs)|].
      simpl. do 3 f_equal. exact Heq.
    + apply andb_true_iff. split; [exact (f_equal negb He)|apply span_all].
    + exact Hpost.
  - intros [post [-> [Hd Hpost]]].
    change (PyStr.startswith "id=" ("id=" ++ (d ++ post)) = true)
      with (PyStr.startswith "id=" ("id=" ++ d ++ post) = true) in *.
    rewrite (startswith_append "id=" (d ++ post)).
    change 3%nat with (String.length "id=").
    rewrite (drop_append "id=" (d ++ post)).
    unfold PyStr.isdecimal in Hd. apply andb_true_iff in Hd as [Hne Hall].
    rewrite (span_run _ d post Hall Hpost).
    destruct (PyStr.is_empty d); [discriminate|reflexivity].
Qed.

Lemma match_id_here_none (s d : string) :
  PyStr.match_id_here s = None -> ~ Spec.id_digits_here s d.
Proof.
  intros Hn Hd. apply match_id_here_spec in Hd. congruence.
Qed.

Lemma search_id_eq (s : string) :
  PyStr.search_id s =
  match PyStr.match_id_here s with
  | Some d => Some d
  | None => match s with
            | EmptyString => None
            | String _ r => PyStr.search_id r
            end
  end.
Proof.
  destruct s; reflexivity.
Qed.

(** A successful search returns the digit run of the leftmost match. *)
Lemma search_id_first (s d : string) :
  PyStr.search_id s = Some d -> Spec.first_id_digits s d.
Proof.
  revert d. induction s as [|c r IH]; intros d; rewrite search_id_eq.
  - destruct (PyStr.match_id_here "") eqn:Hm; [|discriminate].
    intros [= ->]. exists EmptyString, EmptyString.
    split; [reflexivity|split].
    + apply match_id_here_spec, Hm.
    + intros pre' tail' d' _ Hlt. inversion Hlt.
  - destruct (PyStr.match_id_here (String c r)) eqn:Hm.
    + intros [= ->]. exists EmptyString, (String c r).
      split; [reflexivity|split].
      * apply match_id_here_spec, Hm.
      * intros pre' tail' d' _ Hlt. inversion Hlt.
    + intros Hr. destruct (IH d Hr) as [pre [tail [Heq [Hhere Hfirst]]]].
      exists (String c pre), tail. split; [simpl; f_equal; exact Heq|split].
      * exact Hhere.
      * intros pre' tail' d' Hsplit Hlt. destruct pre' as [|c' pre'].
        -- simpl in Hsplit. subst tail'. apply match_id_here_none, Hm.
        -- simpl in Hsplit. injection Hsplit as _ Hsplit.
           apply (Hfirst pre' tail' d' Hsplit). simpl in Hlt. lia.
Qed.

(** A failed search means that no position matches. *)
Lemma search_id_absent (s : string) :
  PyStr.search_id s = None -> Spec.no_id_digits s.
Proof.
  induction s as [|c r IH]; rewrite search_id_eq.
  - destruct (PyStr.match_id_here "") eqn:Hm; [discriminate|].
    intros _ pre tail d Hsplit.
    destruct pre; [|discriminate]. simpl in Hsplit. subst tail.
    apply match_id_here_none, Hm.
  - destruct (PyStr.match_id_here (String c r)) eqn:Hm; [discriminate|].
    intros Hr pre tail d Hsplit. destruct pre as [|c' pre].
    + simpl in Hsplit. subst tail. apply match_id_here_none, Hm.
    + simpl in Hsplit. injection Hsplit as _ Hsplit.
      exact (IH Hr pre tail d Hsplit).
Qed.

(** C9, as stated, fails: [extract_workshop_id] returns the string made of
    the superscript two unchanged, and that string does not consist of
    decimal digits. *)
Lemma extract_workshop_id_superscript :
  ~ (extract_workshop_id superscript_two = None
     \/ exists s : string,
          extract_workshop_id superscript_two = Some s
          /\ s <> EmptyString
          /\ PyStr.all_chars PyStr.isdecimal_char s = true).
Proof.
  intros [Hnone | [s [Hsome [_ Hdec]]]].
  - vm_compute in Hnone. discriminate.
  - vm_compute in Hsome. injection Hsome as <-. vm_compute in Hdec. discriminate.
Qed.

(** C9, amended: [extract_workshop_id] returns [None] or a string that
    satisfies [str.isdigit] (non-empty, every character a digit in the sense
    of [isdigit], which reaches beyond the decimal digits); when the
    stripped input satisfies [isdigit] it is returned unchanged; otherwise
    the result is the run of decimal digits of the first [id=<digits>]
    occurrence in the stripped input, and [None] when there is none. *)
Theorem extract_workshop_id_spec (value : string) :
  (extract_workshop_id value = None
   \/ exists s : string, extract_workshop_id value = Some s /\ PyStr.isdigit s = true)
  /\ (PyStr.isdigit (PyStr.strip value) = true ->
      extract_workshop_id value = Some (PyStr.strip value))
  /\ (PyStr.isdigit (PyStr.strip value) = false ->
      match extract_workshop_id value with
      | Some d => PyStr.isdecimal d = true /\ Spec.first_id_digits (PyStr.strip value) d
      | None => Spec.no_id_digits (PyStr.strip value)
      end).
Proof.
  unfold extract_workshop_id.
  destruct (PyStr.isdigit (PyStr.strip value)) eqn:Hdigit.
  - split; [right; eexists; split; [reflexivity|exact Hdigit]|].
    split; [reflexivity|discriminate].
  - destruct (PyStr.search_id (PyStr.strip value)) as [d|] eqn:Hsearch.
    + pose proof (search_id_first _ _ Hsearch) as Hfirst.
      assert (Hdec : PyStr.isdecimal d = true).
      { destruct Hfirst as [pre [tail [_ [[post [_ [Hd _]]] _]]]]. exact Hd. }
      split; [right; exists d; split; [reflexivity|apply isdecimal_isdigit, Hdec]|].
      split; [discriminate|]. intros _. split; assumption.
    + split; [left; reflexivity|].
      split; [discriminate|]. intros _. apply search_id_absent, Hsearch.
Qed.

(** ** [to_int] *)

(** C10: [to_int] raises on inputs of its own domain.  The string ["inf"]
    (and any numeral too large for a [float], such as ["1e999"]) parses to an
    infinite [float], whose conversion raises [OverflowError], which the
    handler for [ValueError] does not catch; a [float] infinity or NaN raises
    outside the handler; a string of superscript digits passes [isdigit] and
    is no literal for [int]. *)
Theorem to_int_raises :
  to_int (PyStr "inf") = Raises OverflowError
  /\ to_int (PyStr "1e999") = Raises OverflowError
  /\ to_int (PyFloat infinity) = Raises OverflowError
  /\ to_int (PyFloat nan) = Raises ValueError
  /\ to_int (PyStr superscript_two) = Raises ValueError.
Proof.
  repeat split; vm_compute; reflexivity.
Qed.

(** Where [to_int] does what C10 says: no exception on [None], [bool],
    [int] and other objects, 0 on an empty or blank string, 0 on a string
    that [float] rejects, the truncated [float] on a finite numeral. *)
Lemma to_int_total_cases :
  to_int PyNone = Returns 0
  /\ to_int PyOther = Returns 0
  /\ (forall b, exists z, to_int (PyBool b) = Returns z)
  /\ (forall z, to_int (PyInt z) = Returns z)
  /\ to_int (PyStr "   ") = Returns 0
  /\ to_int (PyStr "abc") = Returns 0
  /\ to_int (PyStr "nan") = Returns 0
  /\ to_int (PyStr " 42 ") = Returns 42
  /\ to_int (PyStr "-17") = Returns (-17)
  /\ to_int (PyStr "-2.7") = Returns (-2)
  /\ to_int (PyStr "0.9999999999999999999") = Returns 1.
Proof.
  repeat split; try (vm_compute; reflexivity).
  intros [|]; eexists; reflexivity.
Qed.

(** ** The progress estimator *)

(** C4, as stated, fails: with the single sample 2 and an expected size of
    3 the code reports 66 where the formula with [round] gives 67. *)
Lemma raw_progress_truncates :
  Progress.average_bytes (Progress.push_sample [] 2) = Returns 2
  /\ Progress.raw_progress 2 3 = Returns 66
  /\ Progress.spec_percentage 2 3 = Returns 67
  /\ Progress.raw_progress 2 3 <> Progress.spec_percentage 2 3.
Proof.
  repeat split; try (vm_compute; reflexivity).
  vm_compute. discriminate.
Qed.

Lemma last5_suffix (l : list Z) :
  exists front : list Z, l = front ++ Progress.last5 l.
Proof.
  exists (firstn (List.length l - 5) l). unfold Progress.last5.
  symmetry. apply firstn_skipn.
Qed.

Lemma last5_length (l : list Z) :
  List.length (Progress.last5 l) = Nat.min (List.length l) 5.
Proof.
  unfold Progress.last5. rewrite length_skipn. lia.
Qed.

Lemma push_sample_nonempty (size_samples : list Z) (total_bytes : Z) :
  (1 <= List.length (Progress.push_sample size_samples total_bytes))%nat.
Proof.
  unfold Progress.push_sample.
  destruct (Nat.ltb_spec 60 (List.length (size_samples ++ [total_bytes]))) as [H|H].
  - destruct (size_samples ++ [total_bytes]) as [|x l]; simpl in *; lia.
  - rewrite length_app. simpl. lia.
Qed.

(** The history never grows beyond 60 samples. *)
Lemma push_sample_bounded (size_samples : list Z) (total_bytes : Z) :
  (List.length size_samples <= 60)%nat ->
  (List.length (Progress.push_sample size_samples total_bytes) <= 60)%nat.
Proof.
  intros Hlen. unfold Progress.push_sample.
  destruct (Nat.ltb_spec 60 (List.length (size_samples ++ [total_bytes]))) as [H|H].
  - rewrite length_app in H. simpl in H.
    destruct size_samples as [|x l]; simpl in *; [lia|].
    rewrite length_app. simpl. lia.
  - exact H.
Qed.

Lemma int_of_float_no_zero_division (f : float) :
  PyNum.int_of_float f <> Raises ZeroDivisionError.
Proof.
  unfold PyNum.int_of_float. destruct (Prim2SF f); discriminate.
Qed.

Lemma raw_progress_bound (average file_size_bytes p : Z) :
  Progress.raw_progress average file_size_bytes = Returns p -> p <= 100.
Proof.
  unfold Progress.raw_progress.
  destruct (file_size_bytes =? 0); [intros [= <-]; lia|].
  destruct (PyNum.truediv average file_size_bytes) as [ratio|e]; simpl; [|discriminate].
  destruct (PyNum.int_of_float _) as [percent|e]; simpl; [|discriminate].
  intros [= <-]. lia.
Qed.

Lemma raw_progress_no_zero_division (average file_size_bytes : Z) :
  Progress.raw_progress average file_size_bytes <> Raises ZeroDivisionError.
Proof.
  unfold Progress.raw_progress.
  destruct (file_size_bytes =? 0) eqn:Hz; [discriminate|].
  unfold PyNum.truediv. rewrite Hz.
  destruct (PyNum.overflows _); simpl; [discriminate|].
  match goal with
  | |- context [PyNum.int_of_float ?f] =>
      pose proof (int_of_float_no_zero_division f) as H
  end.
  destruct (PyNum.int_of_float _) as [percent|e]; simpl; [discriminate|exact H].
Qed.

(** C4, amended: on each polling tick the new sample is pushed and the
    average is the floor of the mean of the last [min(n, 5)] samples, of
    which there is at least one; with a non-zero expected size the
    percentage before clamping is [min(int(average / size * 100), 100)],
    [int] truncating toward zero, hence at most 100; with an expected size
    of 0 it is 0, so that the tick reports the last reported value again
    (99 in place of a value of 100 or more while the process runs); no tick
    divides by zero. *)
Theorem tick_percentage_spec (size_samples : list Z)
        (total_bytes file_size_bytes current_progress : Z) (running : bool) :
  let samples := Progress.push_sample size_samples total_bytes in
  let window := Progress.last5 samples in
  (exists front : list Z, samples = front ++ window)
  /\ List.length window = Nat.min (List.length samples) 5
  /\ (1 <= List.length window)%nat
  /\ Progress.average_bytes samples
     = Returns (Progress.sum window / Z.of_nat (List.length window))
  /\ (forall average : Z,
        file_size_bytes <> 0 ->
        Progress.raw_progress average file_size_bytes
        = (ratio <- PyNum.truediv average file_size_bytes ;;
           percent <- PyNum.int_of_float (ratio * PyNum.float_of_Z 100)%float ;;
           Returns (Z.min percent 100))
        /\ forall p, Progress.raw_progress average file_size_bytes = Returns p -> p <= 100)
  /\ (file_size_bytes = 0 ->
      0 <= current_progress ->
      Progress.tick_progress samples file_size_bytes current_progress running
      = Returns (if (100 <=? current_progress) && running then 99 else current_progress))
  /\ Progress.tick_progress samples file_size_bytes current_progress running
     <> Raises ZeroDivisionError.
Proof.
  intros samples window.
  pose proof (push_sample_nonempty size_samples total_bytes) as Hne.
  fold samples in Hne.
  assert (Hwin : List.length window = Nat.min (List.length samples) 5)
    by apply last5_length.
  assert (Havg : Progress.average_bytes samples
                 = Returns (Progress.sum window / Z.of_nat (List.length window))).
  { unfold Progress.average_bytes, PyNum.floordiv. rewrite <- Hwin.
    destruct (Z.eqb_spec (Z.of_nat (List.length window)) 0) as [H0|_]; [lia|reflexivity]. }
  split; [apply last5_suffix|]. split; [exact Hwin|]. split; [lia|].
  split; [exact Havg|]. split; [|split].
  - intros average Hsize. split.
    + unfold Progress.raw_progress.
      destruct (Z.eqb_spec file_size_bytes 0) as [H0|_]; [contradiction|reflexivity].
    + intros p. apply raw_progress_bound.
  - intros -> Hcur. unfold Progress.tick_progress. rewrite Havg. simpl.
    unfold Progress.clamp.
    destruct (Z.ltb_spec 0 current_progress) as [Hlt|Hge].
    + reflexivity.
    + assert (current_progress = 0) by lia. subst current_progress. reflexivity.
  - unfold Progress.tick_progress. rewrite Havg. simpl.
    pose proof (raw_progress_no_zero_division
                  (Progress.sum window / Z.of_nat (List.length window)) file_size_bytes) as H.
    destruct (Progress.raw_progress _ _) as [p|e]; simpl; [discriminate|exact H].
Qed.

(** ** Admission *)

(** C6: while a worker is alive both admissions answer with a rejection and
    its message, and the whole system (threads, stop event, mode, pending
    queue, status record) is what it was: no thread is started and the
    request is not queued.  The download endpoint answers 409. *)
Theorem busy_rejects (sys : System) (workshop_id : string) :
  Manager.is_busy (download_manager sys) = true ->
  Manager.start_download sys workshop_id
  = (sys, (false, Some "Another download is already running"))
  /\ Manager.start_queue sys = (sys, (false, Some "A download is already running"))
  /\ (workshop_id <> EmptyString ->
      Manager.download_workshop_item sys workshop_id = (sys, 409)).
Proof.
  intros Hbusy. unfold Manager.download_workshop_item, Manager.start_download,
    Manager.start_queue. rewrite Hbusy.
  split; [reflexivity|]. split; [reflexivity|].
  intros Hne. destruct workshop_id; [contradiction|reflexivity].
Qed.

Lemma busy_rejects_witness :
  Manager.start_download Sample.busy_system "999"
  = (Sample.busy_system, (false, Some "Another download is already running"))
  /\ Manager.start_queue Sample.busy_system
     = (Sample.busy_system, (false, Some "A download is already running"))
  /\ ("999" <> EmptyString ->
      Manager.download_workshop_item Sample.busy_system "999" = (Sample.busy_system, 409)).
Proof.
  apply (busy_rejects Sample.busy_system "999"). reflexivity.
Defined.

(** Without a live worker the admission starts one, whatever the
    identifier. *)
Lemma idle_admits (sys : System) (workshop_id : string) :
  Manager.is_busy (download_manager sys) = false ->
  exists sys' : System,
    Manager.start_download sys workshop_id = (sys', (true, None))
    /\ app_state sys' = app_state sys
    /\ thread (download_manager sys')
       = Some {| runs := RunDownload workshop_id; is_alive := true |}
    /\ Manager.is_busy (download_manager sys') = true.
Proof.
  intros Hidle. unfold Manager.start_download. rewrite Hidle.
  eexists. split; [reflexivity|]. repeat split.
Qed.

(** ** Invariants of a job *)

Lemma update_quiet (kwargs : list assign) (st : AppState) :
  Spec.quiet kwargs = true ->
  download_progress (update kwargs st) = download_progress st
  /\ queue (update kwargs st) = queue st.
Proof.
  revert st. induction kwargs as [|a kw IH]; intros st Hq; [split; reflexivity|].
  simpl in Hq. apply andb_true_iff in Hq as [Ha Hkw].
  unfold update in *. simpl. destruct (IH (apply_assign st a) Hkw) as [Hp Hqu].
  rewrite Hp, Hqu. destruct a; try discriminate; split; reflexivity.
Qed.

Lemma reports_update (kwargs : list assign) (j : Job) :
  reports (_update_state kwargs j) = reports j ++ [state (_update_state kwargs j)].
Proof.
  reflexivity.
Qed.

(** The kernel of the invariant proofs: a property [P] that holds while the
    polling loop runs, a property [Q] that holds from the end of the loop
    on, a property [C] of the job that has reported its completion, and a
    property [R] of the job when [_perform_download] is over.  [T]
    restricts the ticks the world may show. *)
Section JobInvariant.

Variable env : Env.
Variable T : Tick -> Prop.
Variables P Q C R : Job -> Prop.

Hypothesis observed : Forall T (ticks env).
Hypothesis P_Q : forall j, P j -> Q j.
Hypothesis Q_R : forall j, Q j -> R j.
Hypothesis C_R : forall j, C j -> R j.
Hypothesis P_quiet :
  forall kwargs j, Spec.quiet kwargs = true -> P j -> P (_update_state kwargs j).
Hypothesis Q_quiet :
  forall kwargs j, Spec.quiet kwargs = true -> Q j -> Q (_update_state kwargs j).
Hypothesis P_tick :
  forall t j size_samples file_size_bytes progress,
    T t ->
    Progress.tick_progress size_samples file_size_bytes
                           (download_progress (state j)) (still_running t)
    = Returns progress ->
    P j ->
    (if still_running t then P else Q)
      (_update_state [ProgressIs progress; Speed (speed t);
                      Message "Downloading from Steam Workshop..."] j).
Hypothesis Q_completed :
  forall j, Q j ->
    C (_update_state [Status Completed; ProgressIs 100; Speed "0 B/s";
                      Message "Download completed successfully";
                      IsDownloading false] j).
Hypothesis C_failed :
  forall e j, library env = Some e -> C j ->
    R (_update_state [Status Error; Message (exc_text env e); IsDownloading false] j).

Lemma reject_invariant (kwargs : list assign) (msg : string) (j : Job)
      (started : bool) (fs : Fs.t) :
  Spec.quiet kwargs = true -> Q j -> R (job (Worker.reject kwargs msg j started fs)).
Proof.
  intros Hq Hj. apply Q_R, Q_quiet; assumption.
Qed.

Lemma fail_invariant (msg : string) (j : Job) (started : bool) (fs : Fs.t) :
  Q j -> R (job (Worker.fail msg j started fs)).
Proof.
  apply reject_invariant. reflexivity.
Qed.

Lemma download_loop_invariant (file_size_bytes b1 b2 : Z) (seen : list Tick)
      (size_samples : list Z) (j : Job) :
  Forall T seen -> P j ->
  match Worker.download_loop file_size_bytes b1 b2 seen size_samples j with
  | Worker.LoopStopped j' => Q j'
  | Worker.LoopRaised _ j' => Q j'
  | Worker.LoopDone j' => Q j'
  end.
Proof.
  intros Hobs. revert size_samples j.
  induction Hobs as [|t rest Ht Hrest IH]; intros size_samples j Hj; simpl.
  - apply P_Q, Hj.
  - destruct (stop_is_set t).
    + destruct (wait_times_out t); [apply P_Q, Hj|].
      apply P_Q, P_quiet; [reflexivity|exact Hj].
    + destruct (Progress.tick_progress _ _ _ _) as [progress|e] eqn:Htick;
        [|apply P_Q, Hj].
      pose proof (P_tick t j _ _ _ Ht Htick Hj) as Hstep.
      destruct (still_running t); [apply IH, Hstep|exact Hstep].
Qed.

Lemma complete_invariant (download_path content_path : Fs.path) (fs : Fs.t) (j : Job) :
  Q j -> R (job (Worker.complete env download_path content_path fs j)).
Proof.
  intros Hj. unfold Worker.complete, Worker.handle.
  destruct (clean_on_finish env) as [setting|e]; [|apply fail_invariant, Hj].
  destruct (library env) as [e|] eqn:Hlib.
  - apply (C_failed e _ eq_refl), Q_completed, Hj.
  - apply C_R, Q_completed, Hj.
Qed.

Lemma install_invariant (workshop_id : string)
      (destination_folder download_path content_path source_root : Fs.path)
      (manifest : Manifest) (fs : Fs.t) (j : Job) :
  Q j ->
  R (job (Worker.install env workshop_id destination_folder download_path
                         content_path source_root manifest fs j)).
Proof.
  intros Hj. unfold Worker.install, Worker.handle.
  destruct (Install.item_type_of manifest) as [item_type|e];
    [|apply fail_invariant, Hj].
  destruct (Fs.makedirs fs _) as [fs1|e]; [|apply fail_invariant, Hj].
  destruct (Fs.makedirs fs1 _) as [fs2|e]; [|apply fail_invariant, Hj].
  destruct (Fs.copytree fs2 _ _) as [fs3|e].
  - apply complete_invariant, Q_quiet; [reflexivity|exact Hj].
  - apply fail_invariant, Q_quiet; [reflexivity|exact Hj].
Qed.

Lemma finalize_invariant (workshop_id : string)
      (destination_folder download_path content_path : Fs.path) (j : Job) :
  Q j ->
  R (job (Worker.finalize env workshop_id destination_folder download_path
                          content_path j)).
Proof.
  intros Hj. unfold Worker.finalize.
  destruct (negb (return_code env =? 0)); [apply fail_invariant, Hj|].
  assert (Hj' : Q (_update_state [Message "Finalizing download..."] j))
    by (apply Q_quiet; [reflexivity|exact Hj]).
  destruct (Worker.find_manifest _ _ _) as [workshop_json|];
    [|apply fail_invariant, Hj'].
  destruct (metadata env) as [manifest|]; [|apply fail_invariant, Hj'].
  apply install_invariant, Hj'.
Qed.

Lemma supervise_invariant (workshop_id : string) (file_size_bytes : Z)
      (destination_folder steamcmd_path : Fs.path) (fs : Fs.t) (j : Job) :
  P j ->
  R (job (Worker.supervise env workshop_id file_size_bytes destination_folder
                           steamcmd_path fs j)).
Proof.
  intros Hj. unfold Worker.supervise.
  destruct (Fs.makedirs fs _) as [fs1|e]; [|apply Q_R, P_Q, Hj].
  destruct (popen env) as [e|]; [apply Q_R, P_Q, Hj|].
  pose proof (download_loop_invariant file_size_bytes
                (Worker.get_folder_size fs1
                   (steamcmd_path ++ ["steamapps"; "workshop"; "downloads";
                                      Worker.STEAM_APP_ID; workshop_id]))
                (if Fs.exists_ fs1
                      (steamcmd_path ++ ["steamapps"; "workshop"; "content";
                                         Worker.STEAM_APP_ID; workshop_id])
                 then Worker.get_folder_size fs1
                        (steamcmd_path ++ ["steamapps"; "workshop"; "content";
                                           Worker.STEAM_APP_ID; workshop_id])
                 else 0)
                (ticks env) [] j observed Hj) as Hloop.
  destruct (Worker.download_loop _ _ _ _ _ _) as [j'|e j'|j'].
  - apply Q_R, Hloop.
  - apply fail_invariant, Hloop.
  - apply finalize_invariant, Hloop.
Qed.

Lemma lookup_item_invariant (workshop_id : string)
      (destination_folder steamcmd_path : Fs.path) (j : Job) :
  P j ->
  R (job (Worker.lookup_item env workshop_id destination_folder steamcmd_path j)).
Proof.
  intros Hj. unfold Worker.lookup_item.
  destruct (details env) as [exc|[title reported_size]];
    [apply fail_invariant, P_Q, Hj|].
  destruct (to_int reported_size) as [file_size_bytes|e]; [|apply Q_R, P_Q, Hj].
  destruct (if file_size_bytes =? 0 then _ else _) as [size|e];
    [|apply Q_R, P_Q, Hj].
  destruct (if size =? 0 then _ else _) as [readable|e];
    [|apply Q_R, P_Q, Hj].
  apply supervise_invariant.
  apply P_quiet; [reflexivity|exact Hj].
Qed.

Lemma check_paths_invariant (workshop_id : string)
      (destination_folder steamcmd_path : Fs.path) (j : Job) :
  P j ->
  R (job (Worker.check_paths env workshop_id destination_folder steamcmd_path j)).
Proof.
  intros Hj. unfold Worker.check_paths.
  destruct (negb (Fs.exists_ _ destination_folder)); [apply fail_invariant, P_Q, Hj|].
  destruct (_ && negb (String.eqb _ "steamcmd.exe")); [apply fail_invariant, P_Q, Hj|].
  destruct (negb (Fs.exists_ _ _)); [apply fail_invariant, P_Q, Hj|].
  destruct (negb (Fs.exists_ _ _));
    [apply reject_invariant; [reflexivity|apply P_Q, Hj]|].
  apply lookup_item_invariant; assumption.
Qed.

Lemma check_settings_invariant (workshop_id destination steamcmd : string) (j : Job) :
  P j ->
  R (job (Worker.check_settings env workshop_id destination steamcmd j)).
Proof.
  intros Hj. unfold Worker.check_settings.
  destruct (PyStr.is_empty (PyStr.strip destination)); [apply fail_invariant, P_Q, Hj|].
  destruct (PyStr.is_empty (PyStr.strip steamcmd)); [apply fail_invariant, P_Q, Hj|].
  destruct (negb (PyStr.isdigit workshop_id)).
  - destruct (extract_workshop_id workshop_id) as [extracted|].
    + apply check_paths_invariant; assumption.
    + apply reject_invariant; [reflexivity|apply P_Q, Hj].
  - apply check_paths_invariant; assumption.
Qed.

(** A property of the first report that the polling loop maintains, the
    finalizer keeps and the completion establishes holds of the whole
    job. *)
Lemma perform_download_invariant (st : AppState) (workshop_id : string) :
  P (_update_state [Status Preparing; ProgressIs 0; Message "Preparing download...";
                    CurrentDownload (Some (PyStr.strip workshop_id)); CurrentTitle "";
                    IsDownloading true; Speed "0 B/s"] (start_job st)) ->
  R (job (Worker._perform_download env st workshop_id)).
Proof.
  intros Hj. unfold Worker._perform_download.
  destruct (DestinationFolder env) as [destination|e]; [|apply Q_R, P_Q, Hj].
  destruct (SteamCMDPath env) as [steamcmd|e]; [|apply Q_R, P_Q, Hj].
  apply check_settings_invariant, Hj.
Qed.

End JobInvariant.

(** *** The queue is not touched by a job *)


Lemma same_queue_step (q : list string) (kwargs : list assign) (j : Job) :
  queue (update kwargs (state j)) = queue (state j) ->
  Spec.same_queue q j -> Spec.same_queue q (_update_state kwargs j).
Proof.
  intros Hkw [Hst Hrep]. unfold Spec.same_queue, _update_state. simpl.
  rewrite Hkw. split; [exact Hst|].
  apply Forall_app. split; [exact Hrep|]. constructor; [congruence|constructor].
Qed.

Lemma perform_download_queue (env : Env) (st : AppState) (workshop_id : string) :
  Spec.same_queue (queue st) (job (Worker._perform_download env st workshop_id)).
Proof.
  apply (perform_download_invariant env (fun _ => True)
           (Spec.same_queue (queue st)) (Spec.same_queue (queue st))
           (Spec.same_queue (queue st)) (Spec.same_queue (queue st))).
  - apply Forall_forall. auto.
  - auto.
  - auto.
  - auto.
  - intros kwargs j Hq. apply same_queue_step, update_quiet, Hq.
  - intros kwargs j Hq. apply same_queue_step, update_quiet, Hq.
  - intros t j samples size progress _ _ Hj.
    destruct (still_running t); apply same_queue_step; auto.
  - intros j. apply same_queue_step. reflexivity.
  - intros e j _. apply same_queue_step. reflexivity.
  - apply same_queue_step; [reflexivity|].
    split; [reflexivity|constructor].
Qed.

(** *** Progress only grows *)


Lemma non_decreasing_snoc (l : list AppState) (x : AppState) :
  Spec.non_decreasing l ->
  Forall (fun s => download_progress s <= download_progress x) l ->
  Spec.non_decreasing (l ++ [x]).
Proof.
  intros Hl Hx i k a b Hik Ha Hb.
  destruct (Nat.lt_ge_cases k (List.length l)) as [Hk|Hk].
  - rewrite nth_error_app1 in Ha by lia. rewrite nth_error_app1 in Hb by lia.
    exact (Hl i k a b Hik Ha Hb).
  - rewrite nth_error_app2 in Hb by lia.
    destruct (k - List.length l)%nat as [|m] eqn:Hm;
      [|destruct m; discriminate].
    injection Hb as <-.
    destruct (Nat.lt_ge_cases i (List.length l)) as [Hi|Hi].
    + rewrite nth_error_app1 in Ha by lia.
      rewrite Forall_forall in Hx. apply Hx. eapply nth_error_In, Ha.
    + rewrite nth_error_app2 in Ha by lia.
      replace (i - List.length l)%nat with 0%nat in Ha by lia.
      injection Ha as <-. lia.
Qed.

Lemma ordered_step (hi hi' : Z) (kwargs : list assign) (j : Job) :
  download_progress (state j) <= download_progress (update kwargs (state j)) ->
  download_progress (update kwargs (state j)) <= hi' ->
  Spec.ordered hi j -> Spec.ordered hi' (_update_state kwargs j).
Proof.
  intros Hup Hhi [Hsorted [Hall Hcur]]. unfold Spec.ordered, _update_state. simpl.
  split; [|split].
  - apply non_decreasing_snoc; [exact Hsorted|].
    eapply Forall_impl; [|exact Hall]. simpl. intros s Hs. lia.
  - apply Forall_app. split.
    + eapply Forall_impl; [|exact Hall]. simpl. intros s Hs. lia.
    + constructor; [lia|constructor].
  - lia.
Qed.

Lemma ordered_quiet (hi : Z) (kwargs : list assign) (j : Job) :
  Spec.quiet kwargs = true -> Spec.ordered hi j -> Spec.ordered hi (_update_state kwargs j).
Proof.
  intros Hq Hj. destruct (update_quiet kwargs (state j) Hq) as [Hp _].
  pose proof Hj as [_ [_ Hcur]].
  apply (ordered_step hi hi); [lia|lia|exact Hj].
Qed.

Lemma ordered_weaken (hi hi' : Z) (j : Job) :
  hi <= hi' -> Spec.ordered hi j -> Spec.ordered hi' j.
Proof.
  intros Hle [Hs [Ha Hc]]. repeat split; try assumption; lia.
Qed.

(** The clamps keep the reported value at or above the last one as long as
    that one is below 100, and below 100 while the process runs. *)
Lemma clamp_bounds (progress current_progress : Z) (running : bool) :
  progress <= 100 -> current_progress <= 99 ->
  current_progress <= Progress.clamp progress current_progress running
  /\ Progress.clamp progress current_progress running <= (if running then 99 else 100).
Proof.
  intros Hp Hc. unfold Progress.clamp.
  destruct (Z.ltb_spec progress current_progress);
    destruct running; simpl;
    repeat match goal with
           | |- context [?a <=? ?b] => destruct (Z.leb_spec a b)
           end; simpl; lia.
Qed.

Lemma clamp_running (progress current_progress : Z) :
  Progress.clamp progress current_progress true <= 99.
Proof.
  unfold Progress.clamp.
  destruct (progress <? current_progress);
    match goal with
    | |- context [?a <=? ?b] => destruct (Z.leb_spec a b)
    end; simpl; lia.
Qed.

Lemma tick_progress_clamp (size_samples : list Z)
      (file_size_bytes current_progress p : Z) (running : bool) :
  Progress.tick_progress size_samples file_size_bytes current_progress running = Returns p ->
  exists raw : Z, raw <= 100 /\ p = Progress.clamp raw current_progress running.
Proof.
  unfold Progress.tick_progress.
  destruct (Progress.average_bytes size_samples) as [average|e]; simpl; [|discriminate].
  destruct (Progress.raw_progress average file_size_bytes) as [raw|e] eqn:Hraw; simpl;
    [|discriminate].
  intros [= <-]. exists raw. split; [|reflexivity].
  eapply raw_progress_bound, Hraw.
Qed.

(** While the external process runs a tick reports 99 at most. *)
Lemma tick_progress_running (size_samples : list Z)
      (file_size_bytes current_progress p : Z) :
  Progress.tick_progress size_samples file_size_bytes current_progress true = Returns p ->
  p <= 99.
Proof.
  intros H. apply tick_progress_clamp in H as [raw [_ ->]].
  apply clamp_running.
Qed.

Lemma perform_download_ordered (env : Env) (st : AppState) (workshop_id : string) :
  Spec.ordered 100 (job (Worker._perform_download env st workshop_id)).
Proof.
  apply (perform_download_invariant env (fun _ => True)
           (Spec.ordered 99) (Spec.ordered 100) (Spec.ordered 100) (Spec.ordered 100)).
  - apply Forall_forall. auto.
  - intros j. apply ordered_weaken. lia.
  - auto.
  - auto.
  - intros kwargs j. apply ordered_quiet.
  - intros kwargs j. apply ordered_quiet.
  - intros t j samples size progress _ Htick Hj.
    apply tick_progress_clamp in Htick as [raw [Hraw ->]].
    pose proof Hj as [_ [_ Hcur]].
    pose proof (clamp_bounds raw (download_progress (state j)) (still_running t)
                  Hraw ltac:(lia)) as [Hlo Hhi].
    destruct (still_running t); eapply ordered_step; try exact Hj; simpl; lia.
  - intros j Hj. pose proof Hj as [_ [_ Hcur]].
    eapply ordered_step; try exact Hj; simpl; lia.
  - intros e j _. apply ordered_quiet. reflexivity.
  - unfold Spec.ordered, _update_state. simpl. split; [|split].
    + apply (non_decreasing_snoc []); [|constructor].
      intros i k a b _ Ha. destruct i; discriminate.
    + constructor; [simpl; lia|constructor].
    + lia.
Qed.

(** *** Below 100 until completion, when no tick sees the process gone *)


Lemma capped_step (kwargs : list assign) (j : Job) :
  download_progress (update kwargs (state j)) <= 99 ->
  Spec.capped j -> Spec.capped (_update_state kwargs j).
Proof.
  intros Hkw [Hst Hrep]. unfold Spec.capped, _update_state. simpl.
  split; [exact Hkw|].
  apply Forall_app. split; [exact Hrep|]. constructor; [exact Hkw|constructor].
Qed.

Lemma perform_download_capped (env : Env) (st : AppState) (workshop_id : string) :
  Forall (fun t => still_running t = true) (ticks env) ->
  library env = None ->
  Spec.capped_or_completed (job (Worker._perform_download env st workshop_id)).
Proof.
  intros Hobs Hlib.
  apply (perform_download_invariant env (fun t => still_running t = true)
           Spec.capped Spec.capped Spec.capped_or_completed Spec.capped_or_completed);
    try exact Hobs.
  - auto.
  - intros j [_ Hrep]. unfold Spec.capped_or_completed.
    eapply Forall_impl; [|exact Hrep]. simpl. auto.
  - auto.
  - intros kwargs j Hq Hj. apply capped_step; [|exact Hj].
    destruct (update_quiet kwargs (state j) Hq) as [-> _]. apply Hj.
  - intros kwargs j Hq Hj. apply capped_step; [|exact Hj].
    destruct (update_quiet kwargs (state j) Hq) as [-> _]. apply Hj.
  - intros t j samples size progress Ht Htick Hj. rewrite Ht in *.
    apply capped_step; [|exact Hj]. simpl.
    eapply tick_progress_running, Htick.
  - intros j [_ Hrep]. unfold Spec.capped_or_completed, _update_state. simpl.
    apply Forall_app. split.
    + eapply Forall_impl; [|exact Hrep]. simpl. auto.
    + constructor; [right; split; reflexivity|constructor].
  - intros e j He. rewrite Hlib in He. discriminate He.
  - unfold Spec.capped, _update_state. simpl.
    split; [lia|]. constructor; [simpl; lia|constructor].
Qed.

(** When every tick finds the process running, nothing above 99 is reported
    before the completion; a refresh of the library listing that fails
    afterwards adds the report of its error. *)
Lemma perform_download_capped_until_completion (env : Env) (st : AppState)
      (workshop_id : string) :
  Forall (fun t => still_running t = true) (ticks env) ->
  Spec.capped_until_completion (reports (job (Worker._perform_download env st workshop_id))).
Proof.
  intros Hobs.
  apply (perform_download_invariant env (fun t => still_running t = true)
           Spec.capped Spec.capped Spec.just_completed
           (fun j => Spec.capped_until_completion (reports j)));
    try exact Hobs.
  - auto.
  - intros j [_ Hrep]. left. exact Hrep.
  - intros j [below [Hrep [Hbelow [Hstatus Hprogress]]]]. right.
    exists below, (state j), []. repeat split; auto.
  - intros kwargs j Hq Hj. apply capped_step; [|exact Hj].
    destruct (update_quiet kwargs (state j) Hq) as [-> _]. apply Hj.
  - intros kwargs j Hq Hj. apply capped_step; [|exact Hj].
    destruct (update_quiet kwargs (state j) Hq) as [-> _]. apply Hj.
  - intros t j samples size progress Ht Htick Hj. rewrite Ht in *.
    apply capped_step; [|exact Hj]. simpl.
    eapply tick_progress_running, Htick.
  - intros j [_ Hrep]. exists (reports j). repeat split. exact Hrep.
  - intros e j _ [below [Hrep [Hbelow [Hstatus Hprogress]]]]. right.
    exists below, (state j),
      [update [Status Error; Message (exc_text env e); IsDownloading false] (state j)].
    split; [unfold _update_state; simpl; rewrite Hrep, <- app_assoc; reflexivity|].
    split; [exact Hbelow|]. split; [exact Hstatus|]. split; [exact Hprogress|].
    right. eexists. split; [reflexivity|]. split; [reflexivity|exact Hprogress].
  - unfold Spec.capped, _update_state. simpl.
    split; [lia|]. constructor; [simpl; lia|constructor].
Qed.

(** ** Reported progress *)

(** C3, as stated, fails: the process exits during a tick that finds the
    expected 100 bytes, the tick reports 100, and the exit code 1 then ends
    the job in the error phase.  The value 100 was reported without a
    successful completion. *)
Lemma full_progress_before_failure :
  let run := Worker._perform_download
               (Sample.env [Sample.sampled 100 false] 1 Sample.disk0 Sample.disk0)
               initial_state "999" in
  map (fun s => (download_status s, download_progress s)) (reports (job run))
  = [(Preparing, 0); (Downloading, 0); (Downloading, 100); (Error, 100)]
  /\ outcome run
     = Returns {| success := false; message := "SteamCMD failed to download the item" |}.
Proof.
  vm_compute. split; reflexivity.
Qed.

(** C3, amended: over the reports of a job, from its admission to its
    terminal phase, the progress never decreases and stays between 0 and
    100; a tick that finds the external process still running reports 99 at
    most; and when every tick finds it running, nothing above 99 is reported
    before the report of the completion, which shows 100, and the only
    report that can follow that one is the error of a refresh of the library
    listing that failed, with the 100 left in place; when the refresh
    raises nothing, the only report above 99 is the 100 of the completion.
    (A tick that finds the process gone may report 100 before the exit code
    is known.) *)
Theorem progress_reports (env : Env) (st : AppState) (workshop_id : string) :
  let run := Worker._perform_download env st workshop_id in
  Spec.non_decreasing (reports (job run))
  /\ Forall (fun s => 0 <= download_progress s <= 100) (reports (job run))
  /\ (forall size_samples file_size_bytes current_progress p,
        Progress.tick_progress size_samples file_size_bytes current_progress true
        = Returns p ->
        p <= 99)
  /\ (Forall (fun t => still_running t = true) (ticks env) ->
      Spec.capped_until_completion (reports (job run))
      /\ (library env = None ->
          Forall (fun s => download_progress s <= 99
                           \/ (download_status s = Completed /\ download_progress s = 100))
                 (reports (job run)))).
Proof.
  intros run. destruct (perform_download_ordered env st workshop_id) as [Hs [Ha Hc]].
  fold run in Hs, Ha, Hc.
  split; [exact Hs|]. split; [|split].
  - eapply Forall_impl; [|exact Ha]. simpl. intros s Hs'. lia.
  - apply tick_progress_running.
  - intros Hobs. split.
    + apply perform_download_capped_until_completion, Hobs.
    + intros Hlib. apply perform_download_capped; assumption.
Qed.

(** ** The pending queue and the active job *)

Lemma mem_In (item : string) (q : list string) :
  Manager.mem item q = true <-> In item q.
Proof.
  unfold Manager.mem. rewrite existsb_exists. split.
  - intros [x [Hx Heq]]. apply String.eqb_eq in Heq. subst. exact Hx.
  - intros H. exists item. split; [exact H|apply String.eqb_refl].
Qed.

(** The loop of [enqueue] appends to the queue, in their order, the items
    that the queue does not hold, each once. *)
Lemma enqueue_loop_spec (items q added : list string) :
  exists new : list string,
    Manager.enqueue_loop items q added = (q ++ new, added ++ new)
    /\ (forall x, In x new <-> In x items /\ ~ In x q)
    /\ NoDup new.
Proof.
  revert q added. induction items as [|item rest IH]; intros q added; simpl.
  - exists []. rewrite !app_nil_r. split; [reflexivity|].
    split; [|constructor]. intros x. simpl. tauto.
  - destruct (Manager.mem item q) eqn:Hmem.
    + apply mem_In in Hmem.
      destruct (IH q added) as [new [Heq [Hin Hnd]]].
      exists new. split; [exact Heq|]. split; [|exact Hnd].
      intros x. rewrite Hin. split; [tauto|].
      intros [[->|Hx] Hq]; [contradiction|tauto].
    + assert (Hnot : ~ In item q).
      { intros H. apply mem_In in H. congruence. }
      destruct (IH (q ++ [item]) (added ++ [item])) as [new [Heq [Hin Hnd]]].
      exists (item :: new). rewrite Heq, <- !app_assoc. simpl.
      split; [reflexivity|]. split.
      * intros x. simpl. rewrite Hin, in_app_iff. simpl.
        destruct (string_dec item x) as [->|Hne]; [tauto|]. split.
        -- intros [H|[Hx Hq]]; [contradiction|]. tauto.
        -- intros [[H|Hx] Hq]; [contradiction|]. right. split; [exact Hx|].
           intros [H|[H|[]]]; [contradiction|congruence].
      * constructor; [|exact Hnd]. rewrite Hin, in_app_iff. simpl. tauto.
Qed.

(** What [enqueue] appends is what the call holds that is new: the items
    the queue does not hold, each at its first position in the call. *)
Lemma enqueue_loop_fresh (items q seen kept added : list string) :
  (forall x, In x kept <-> In x seen /\ ~ In x q) ->
  Manager.enqueue_loop items (q ++ kept) added
  = (q ++ kept ++ Spec.fresh_from q seen items, added ++ Spec.fresh_from q seen items).
Proof.
  revert seen kept added. induction items as [|item rest IH]; intros seen kept added Hkept.
  - simpl. rewrite !app_nil_r. reflexivity.
  - cbn [Manager.enqueue_loop Spec.fresh_from].
    assert (Hmem : Manager.mem item (q ++ kept)
                   = Manager.mem item q || Manager.mem item seen).
    { destruct (Manager.mem item q) eqn:Hq.
      - apply mem_In. apply in_app_iff. left. apply mem_In, Hq.
      - cbn [orb]. destruct (Manager.mem item seen) eqn:Hseen.
        + apply mem_In, in_app_iff. right. apply Hkept. split; [apply mem_In, Hseen|].
          intros H. apply mem_In in H. congruence.
        + destruct (Manager.mem item (q ++ kept)) eqn:Hboth; [|reflexivity].
          apply mem_In, in_app_iff in Hboth. destruct Hboth as [H|H].
          * apply mem_In in H. congruence.
          * apply Hkept in H as [H _]. apply mem_In in H. congruence. }
    rewrite Hmem. destruct (Manager.mem item q || Manager.mem item seen) eqn:Hold.
    + apply IH. intros x. rewrite Hkept, in_app_iff. simpl. split; [tauto|].
      intros [[H|[<-|[]]] Hq]; [tauto|]. split; [|exact Hq].
      apply orb_true_iff in Hold as [H|H]; apply mem_In in H; [contradiction|exact H].
    + rewrite <- (app_assoc q kept [item]), (IH (seen ++ [item]) (kept ++ [item])).
      * rewrite <- !app_assoc. reflexivity.
      * apply orb_false_iff in Hold as [Hq Hseen].
        intros x. rewrite !in_app_iff, Hkept. simpl. split.
        -- intros [[H1 H2]|[<-|[]]]; [tauto|]. split; [tauto|].
           intros H. apply mem_In in H. congruence.
        -- intros [[H|[<-|[]]] H2]; tauto.
Qed.

Lemma enqueue_fresh (st : AppState) (items : list string) :
  Manager.enqueue st items
  = (update [Queue (queue st ++ Spec.fresh_items (queue st) items)] st,
     Spec.fresh_items (queue st) items).
Proof.
  unfold Manager.enqueue, Spec.fresh_items.
  pose proof (enqueue_loop_fresh items (queue st) [] [] []) as H.
  rewrite app_nil_r in H. rewrite H; [reflexivity|].
  intros x. simpl. tauto.
Qed.

(** ** The queue thread *)

Lemma with_own_queue (st : AppState) : update [Queue (queue st)] st = st.
Proof.
  destruct st. reflexivity.
Qed.

Lemma concat_empty_batches (batches : list (list request)) :
  Forall (fun batch => batch = []) batches -> List.concat batches = [].
Proof.
  induction 1 as [|batch rest Hbatch _ IH]; [reflexivity|].
  simpl. rewrite Hbatch, IH. reflexivity.
Qed.

(** While no request is served the reports are seen as the job made
    them. *)
Lemma observe_undisturbed (batches : list (list request)) (live : AppState)
      (job_reports : list AppState) :
  Forall (fun batch => batch = []) batches ->
  Forall (fun s => queue s = queue live) job_reports ->
  Runner.observe batches live job_reports = (job_reports, live).
Proof.
  intros Hbatches Hqueue. revert batches Hbatches.
  induction Hqueue as [|report rest Hreport _ IH]; intros batches Hbatches.
  - simpl. rewrite (concat_empty_batches batches Hbatches). reflexivity.
  - cbn [Runner.observe].
    assert (Hhd : hd [] batches = []) by (destruct Hbatches; [reflexivity|assumption]).
    assert (Htl : Forall (fun batch => batch = []) (tl batches))
      by (destruct Hbatches; [constructor|assumption]).
    rewrite Hhd. cbn [Runner.serve_all fold_left]. rewrite (IH (tl batches) Htl).
    rewrite <- Hreport, with_own_queue. reflexivity.
Qed.

Lemma run_job_undisturbed (env : Env) (batches : list (list request)) (st : AppState)
      (workshop_id : string) :
  Forall (fun batch => batch = []) batches ->
  let run := Worker._perform_download env st workshop_id in
  Runner.run_job env batches st workshop_id = (run, reports (job run), state (job run)).
Proof.
  intros Hbatches run. unfold Runner.run_job. fold run.
  destruct (perform_download_queue env st workshop_id) as [Hstate Hreports].
  fold run in Hstate, Hreports.
  rewrite (observe_undisturbed batches st (reports (job run)) Hbatches Hreports).
  rewrite <- Hstate, with_own_queue. reflexivity.
Qed.

(** A round in which no stop is requested and no request is served: the
    job of the head of the queue runs, and the head is removed when it has
    returned; the loop ends there when the job has failed and the mode is
    read as the queue mode. *)
Lemma step_undisturbed (round : Runner.Round) (j : Job) (ids : list string)
      (next_id : string) (rest : list string) :
  queue (state j) = next_id :: rest ->
  Runner.stop_requested round = false ->
  Spec.undisturbed round ->
  let run := Worker._perform_download (Runner.world round) (state j) next_id in
  let after := {| state := update [Queue rest] (state (job run));
                  reports := reports j ++ reports (job run) |} in
  Runner.step round j ids
  = match outcome run with
    | Raises e =>
        inl (Runner.crash e {| state := state (job run);
                               reports := reports j ++ reports (job run) |}
                          (ids ++ [next_id]))
    | Returns result =>
        if negb (success result)
           && match Runner.mode_read round with Some QueueMode => true | _ => false end
        then inl (Runner.finish after (ids ++ [next_id]))
        else inr (after, ids ++ [next_id])
    end.
Proof.
  intros Hq Hstop [Hbefore [Hduring Hafter]] run after.
  unfold Runner.step. rewrite Hq, Hstop, Hbefore.
  cbn [Runner.serve_all fold_left]. rewrite Hq.
  rewrite (run_job_undisturbed (Runner.world round) (Runner.during round) (state j)
             next_id Hduring).
  fold run. cbn [state reports].
  destruct (outcome run) as [result|e]; [|reflexivity].
  destruct (perform_download_queue (Runner.world round) (state j) next_id) as [Hstate _].
  fold run in Hstate. rewrite Hq in Hstate.
  unfold Runner.pop0. rewrite Hstate, Hafter. reflexivity.
Qed.

(** A round only adds to what was reported. *)
Lemma step_reported (round : Runner.Round) (j : Job) (ids : list string) :
  match Runner.step round j ids with
  | inl drain => exists later, Runner.reported drain = reports j ++ later
  | inr (j', _) => exists later, reports j' = reports j ++ later
  end.
Proof.
  unfold Runner.step.
  destruct (queue (state j)) as [|head tail]; [eexists; reflexivity|].
  destruct (Runner.stop_requested round); [eexists; reflexivity|].
  destruct (queue (Runner.serve_all _ _)) as [|next_id rest].
  { exists []. simpl. rewrite app_nil_r. reflexivity. }
  destruct (Runner.run_job _ _ _ _) as [[run seen] st'].
  destruct (outcome run) as [result|e]; [|eexists; reflexivity].
  cbn [state reports]. destruct (Runner.pop0 st') as [st''|e]; [|eexists; reflexivity].
  destruct (_ && _).
  - eexists. simpl. rewrite <- app_assoc. reflexivity.
  - eexists. reflexivity.
Qed.

Lemma queue_loop_reported (schedule : list Runner.Round) (j : Job) (ids : list string) :
  exists later : list AppState,
    Runner.reported (Runner.queue_loop schedule j ids) = reports j ++ later.
Proof.
  revert j ids. induction schedule as [|round later_rounds IH]; intros j ids.
  - exists []. simpl. rewrite app_nil_r. reflexivity.
  - cbn [Runner.queue_loop]. pose proof (step_reported round j ids) as Hstep.
    destruct (Runner.step round j ids) as [drain|[j' ids']]; [exact Hstep|].
    destruct Hstep as [seen Hseen]. destruct (IH j' ids') as [later Hlater].
    rewrite Hlater, Hseen, <- app_assoc. eexists. reflexivity.
Qed.

(** C2, as stated, fails on both counts: while the queue thread runs the
    download of ["1"] that identifier is still in the reported queue, and
    [enqueue] adds the identifier of the active single download. *)
Lemma active_id_in_queue :
  let drain := Runner._process_queue [Sample.calm Sample.env_unset; Sample.calm Sample.env_unset]
                                     (Sample.pending ["1"; "2"]) in
  let st := app_state Sample.busy_system in
  (exists s : AppState,
      In s (Runner.reported drain)
      /\ downloading s = true
      /\ current_download s = Some "1"
      /\ In "1" (queue s))
  /\ current_download st = Some "5"
  /\ queue (fst (Manager.enqueue st ["5"])) = ["7"; "5"]
  /\ current_download (fst (Manager.enqueue st ["5"])) = Some "5".
Proof.
  split; [|vm_compute; repeat split; reflexivity].
  eexists. split; [vm_compute; left; reflexivity|].
  vm_compute. repeat split; try reflexivity. left. reflexivity.
Qed.

Lemma opens_with_step (first : AppState) (kwargs : list assign) (j : Job) :
  Spec.opens_with first j -> Spec.opens_with first (_update_state kwargs j).
Proof.
  intros [later Heq]. exists (later ++ [update kwargs (state j)]).
  unfold _update_state. simpl. rewrite Heq. reflexivity.
Qed.

(** The first report of a job is the one of the preparing phase. *)
Lemma perform_download_opens (env : Env) (st : AppState) (workshop_id : string) :
  Spec.opens_with
    (update [Status Preparing; ProgressIs 0; Message "Preparing download...";
             CurrentDownload (Some (PyStr.strip workshop_id)); CurrentTitle "";
             IsDownloading true; Speed "0 B/s"] st)
    (job (Worker._perform_download env st workshop_id)).
Proof.
  set (first := update _ st).
  apply (perform_download_invariant env (fun _ => True)
           (Spec.opens_with first) (Spec.opens_with first)
           (Spec.opens_with first) (Spec.opens_with first));
    auto using opens_with_step.
  - apply Forall_forall. auto.
  - intros t j samples size progress _ _ Hj.
    destruct (still_running t); apply opens_with_step, Hj.
  - exists []. reflexivity.
Qed.

(** C2, amended: in a round of the queue loop in which no request is served,
    the identifier the loop runs is at the head of the pending queue in
    every report of its job (the first shows it as the current download, in
    the preparing phase) and is removed only when the job has returned: the
    round leaves the rest of the queue, with what the job reported.
    [enqueue] appends the items that the pending queue does not hold, each
    once, at its first position in the call and in the order of the call; it
    consults the pending queue only, not the current download. *)
Theorem queue_keeps_active_id (round : Runner.Round) (st : AppState)
        (next_id : string) (rest : list string) :
  queue st = next_id :: rest ->
  Runner.stop_requested round = false ->
  Spec.undisturbed round ->
  let run := Worker._perform_download (Runner.world round) st next_id in
  Forall (fun s => queue s = next_id :: rest) (reports (job run))
  /\ (exists first later,
         reports (job run) = first :: later
         /\ download_status first = Preparing
         /\ downloading first = true
         /\ current_download first = Some (PyStr.strip next_id))
  /\ (forall later_rounds : list Runner.Round,
         exists later,
           Runner.reported (Runner._process_queue (round :: later_rounds) st)
           = reports (job run) ++ later)
  /\ (forall result : DownloadResult,
         outcome run = Returns result ->
         exists j : Job,
           (Runner.step round (start_job st) [] = inr (j, [next_id])
            \/ Runner.step round (start_job st) [] = inl (Runner.finish j [next_id]))
           /\ reports j = reports (job run)
           /\ queue (state j) = rest)
  /\ (forall (st0 : AppState) (items : list string),
         let added := Spec.fresh_items (queue st0) items in
         Manager.enqueue st0 items = (update [Queue (queue st0 ++ added)] st0, added)
         /\ (forall x, In x added <-> In x items /\ ~ In x (queue st0))
         /\ NoDup added
         /\ current_download (fst (Manager.enqueue st0 items)) = current_download st0).
Proof.
  intros Hq Hstop Hcalm run.
  destruct (perform_download_queue (Runner.world round) st next_id) as [Hstate Hreports].
  fold run in Hstate, Hreports. rewrite Hq in Hstate, Hreports.
  pose proof (step_undisturbed round (start_job st) [] next_id rest Hq Hstop Hcalm) as Hstep.
  cbn [start_job state reports app] in Hstep. fold run in Hstep.
  split; [exact Hreports|]. split; [|split; [|split]].
  - destruct (perform_download_opens (Runner.world round) st next_id) as [later Heq].
    fold run in Heq. eexists. exists later. split; [exact Heq|]. repeat split.
  - intros later_rounds. unfold Runner._process_queue. cbn [Runner.queue_loop].
    rewrite Hstep. destruct (outcome run) as [result|e].
    + destruct (_ && _).
      * eexists. unfold Runner.finish. cbn. reflexivity.
      * match goal with
        | |- context [Runner.queue_loop later_rounds ?j' ?ids'] =>
            destruct (queue_loop_reported later_rounds j' ids') as [later Hlater]
        end.
        exists later. exact Hlater.
    + exists []. cbn. rewrite app_nil_r. reflexivity.
  - intros result Hresult. rewrite Hresult in Hstep.
    eexists. split; [|split].
    + destruct (_ && _); [right|left]; exact Hstep.
    + reflexivity.
    + reflexivity.
  - intros st0 items added. split; [apply enqueue_fresh|].
    destruct (enqueue_loop_spec items (queue st0) []) as [new [Heq [Hin Hnd]]].
    pose proof (enqueue_fresh st0 items) as Hfresh. unfold Manager.enqueue in Hfresh.
    rewrite Heq in Hfresh. cbn [app] in Hfresh.
    assert (Hnew : new = added) by (injection Hfresh as _ H; exact H).
    subst new. split; [exact Hin|]. split; [exact Hnd|].
    rewrite enqueue_fresh. reflexivity.
Qed.

Lemma queue_keeps_active_id_witness :
  let round := Sample.calm Sample.env_unset in
  let st := Sample.pending ["1"; "2"] in
  let run := Worker._perform_download (Runner.world round) st "1" in
  Forall (fun s => queue s = ["1"; "2"]) (reports (job run))
  /\ (exists first later,
         reports (job run) = first :: later
         /\ download_status first = Preparing
         /\ downloading first = true
         /\ current_download first = Some (PyStr.strip "1"))
  /\ (forall later_rounds : list Runner.Round,
         exists later,
           Runner.reported (Runner._process_queue (round :: later_rounds) st)
           = reports (job run) ++ later)
  /\ (forall result : DownloadResult,
         outcome run = Returns result ->
         exists j : Job,
           (Runner.step round (start_job st) [] = inr (j, ["1"])
            \/ Runner.step round (start_job st) [] = inl (Runner.finish j ["1"]))
           /\ reports j = reports (job run)
           /\ queue (state j) = ["2"])
  /\ (forall (st0 : AppState) (items : list string),
         let added := Spec.fresh_items (queue st0) items in
         Manager.enqueue st0 items = (update [Queue (queue st0 ++ added)] st0, added)
         /\ (forall x, In x added <-> In x items /\ ~ In x (queue st0))
         /\ NoDup added
         /\ current_download (fst (Manager.enqueue st0 items)) = current_download st0).
Proof.
  apply (queue_keeps_active_id (Sample.calm Sample.env_unset)
           (Sample.pending ["1"; "2"]) "1" ["2"]).
  - reflexivity.
  - reflexivity.
  - unfold Spec.undisturbed. simpl. repeat split. constructor.
Defined.

(** ** The queue loop after a failure *)

(** C5: the queue holds ["1"] and ["999"], the queue thread reads the mode
    that [start_queue] has assigned, no stop is requested and no request is
    served.  The job of ["1"] fails (no destination folder is configured);
    the loop removes ["1"] and ends: ["999"] stays pending and is never
    passed to the download, although its job could run.  A thread that reads
    the mode before [start_queue] has assigned it does go on to ["999"]. *)
Theorem failed_job_stops_queue :
  let failing := Sample.calm Sample.env_unset in
  let good := Sample.calm (Sample.env [] 0 Sample.disk0 Sample.disk_fetched) in
  let st := Sample.pending ["1"; "999"] in
  let drain := Runner._process_queue [failing; good; good] st in
  let early := {| Runner.stop_requested := false; Runner.before_read := [];
                  Runner.world := Sample.env_unset; Runner.during := [];
                  Runner.mode_read := None; Runner.after_pop := [] |} in
  outcome (Worker._perform_download Sample.env_unset st "1")
  = Returns {| success := false; message := "Destination folder is not set" |}
  /\ Runner.attempted drain = ["1"]
  /\ queue (Runner.left drain) = ["999"]
  /\ Runner.died drain = None
  /\ Runner.out_of_fuel drain = false
  /\ ~ In "999" (Runner.attempted drain)
  /\ Runner.attempted (Runner._process_queue [early; good; good] st) = ["1"; "999"].
Proof.
  vm_compute. repeat split. intros [H|[]]. discriminate.
Qed.

(** ** Cancellation *)

(** A tick that finds the stop event set ends the job as stopped when the
    terminated process exits within five seconds, and raises
    [TimeoutExpired] when it does not. *)
Lemma download_loop_cancel (file_size_bytes b1 b2 : Z) (t : Tick) (rest : list Tick)
      (size_samples : list Z) (j : Job) :
  stop_is_set t = true ->
  Worker.download_loop file_size_bytes b1 b2 (t :: rest) size_samples j
  = if wait_times_out t
    then Worker.LoopRaised TimeoutExpired j
    else Worker.LoopStopped
           (_update_state [Status Stopped; Message "Download cancelled by user";
                           IsDownloading false; Speed "0 B/s"] j).
Proof.
  intros Hstop. simpl. rewrite Hstop. reflexivity.
Qed.

(** C7: a cancellation during the downloading phase ends the job in the
    error phase when the external process outlives the five seconds of
    [wait(timeout=5)]: the [TimeoutExpired] it raises is caught by the
    handler of all exceptions, and its text, which names the command line,
    becomes the message of the failure.  When the process exits in time the job is
    stopped.  When the process, terminated by [stop()], is found gone by the
    test of the loop before the stop event is looked at, its exit code ends
    the job in the error phase as well. *)
Theorem cancel_with_late_exit_is_error :
  let run observed exit_code :=
      Worker._perform_download (Sample.env observed exit_code Sample.disk0 Sample.disk0)
                               initial_state "999" in
  let late := run [Sample.sampled 50 true; Sample.cancelled true] 0 in
  let in_time := run [Sample.sampled 50 true; Sample.cancelled false] 0 in
  let gone := run [Sample.sampled 50 true] 1 in
  download_status (state (job late)) = Error
  /\ outcome late
     = Returns {| success := false;
                  message := "Command '['/steamcmd/steamcmd.exe', '+login', 'anonymous', 'app_update', '311210', '+workshop_download_item', '311210', '999', 'validate', '+quit']' timed out after 5 seconds" |}
  /\ download_status (state (job in_time)) = Stopped
  /\ download_status (state (job gone)) = Error.
Proof.
  vm_compute. repeat split.
Qed.

(** ** Malformed identifiers *)

Lemma rstrip_idempotent (s : string) : PyStr.rstrip (PyStr.rstrip s) = PyStr.rstrip s.
Proof.
  induction s as [|c r IH]; [reflexivity|]. simpl.
  destruct (PyStr.isspace_char c && PyStr.is_empty (PyStr.rstrip r)) eqn:Hc;
    [reflexivity|].
  simpl. rewrite IH, Hc. reflexivity.
Qed.

Lemma lstrip_head (s : string) :
  match PyStr.lstrip s with
  | EmptyString => True
  | String c _ => PyStr.isspace_char c = false
  end.
Proof.
  induction s as [|c r IH]; simpl; [exact I|].
  destruct (PyStr.isspace_char c) eqn:Hc; [exact IH|exact Hc].
Qed.

Lemma lstrip_fixed (s : string) :
  match s with
  | EmptyString => True
  | String c _ => PyStr.isspace_char c = false
  end ->
  PyStr.lstrip s = s.
Proof.
  destruct s as [|c r]; simpl; [reflexivity|]. intros ->. reflexivity.
Qed.

(** [strip] is idempotent. *)
Lemma strip_idempotent (s : string) : PyStr.strip (PyStr.strip s) = PyStr.strip s.
Proof.
  unfold PyStr.strip. rewrite (lstrip_fixed (PyStr.rstrip (PyStr.lstrip s))).
  - apply rstrip_idempotent.
  - pose proof (lstrip_head s) as H. destruct (PyStr.lstrip s) as [|c r]; [exact I|].
    simpl. rewrite H. simpl. exact H.
Qed.

Lemma extract_workshop_id_strip (value : string) :
  extract_workshop_id (PyStr.strip value) = extract_workshop_id value.
Proof.
  unfold extract_workshop_id. rewrite strip_idempotent. reflexivity.
Qed.




(** ** The install step *)

(** The suffix loop never runs for a declared name that is a string and a
    single path component: the name of the first candidate is the declared
    name, so the test [final_folder.name != folder_name] fails at once,
    whether the folder exists or not. *)
Lemma final_folder_declared_name (fs : Fs.t) (destination_base : Fs.path)
      (folder_name workshop_id : string) :
  Fs.name (Fs.join destination_base folder_name) = folder_name ->
  Install.final_folder_of fs destination_base (JStr folder_name) workshop_id
  = Fs.join destination_base folder_name.
Proof.
  intros Hname. unfold Install.final_folder_of. simpl.
  rewrite Hname, String.eqb_refl, !andb_false_r. reflexivity.
Qed.

(** A declared name that is a number does go through the loop: the folder
    [123] exists, the item is installed into [123_999_1]. *)
Lemma numeric_name_is_suffixed :
  Install.final_folder_of [(["usermaps"], Fs.Dir); (["usermaps"; "123"], Fs.Dir)]
                          ["usermaps"] (JInt 123) "999"
  = ["usermaps"; "123_999_1"].
Proof.
  vm_compute. reflexivity.
Qed.

(** C1: item 999 declares the folder name [cool_map] and the kind [map];
    [usermaps/cool_map] exists and holds the files of another item.  The
    install step picks [usermaps/cool_map] itself, copies into it, and
    replaces the other item's [zone/data.ff] and [zone/workshop.json]; the
    job completes. *)
Theorem install_overwrites_existing_folder :
  let before := Sample.disk0 ++ Sample.other_item in
  let after := Sample.disk_fetched ++ Sample.other_item in
  let run := Worker._perform_download (Sample.env [] 0 before after)
                                      initial_state "999" in
  let usermaps := ["games"; "bo3"; "usermaps"] in
  let target := usermaps ++ ["cool_map"] in
  Fs.exists_ after target = true
  /\ Install.final_folder_of after usermaps (JStr "cool_map") "999" = target
  /\ outcome run = Returns {| success := true; message := "Download completed" |}
  /\ download_status (state (job run)) = Completed
  /\ Fs.lookup after (target ++ ["zone"; "data.ff"]) = Some (Fs.File "old")
  /\ Fs.lookup (fs_out run) (target ++ ["zone"; "data.ff"]) = Some (Fs.File "new")
  /\ Fs.lookup after (target ++ ["zone"; "workshop.json"]) = Some (Fs.File "{111}")
  /\ Fs.lookup (fs_out run) (target ++ ["zone"; "workshop.json"]) = Some (Fs.File "{}")
  /\ Fs.exists_ (fs_out run) (usermaps ++ ["cool_map_999_1"]) = false.
Proof.
  vm_compute. repeat split.
Qed.

(* ===================================================================== *)
(** * Further properties of the code                                      *)
(* ===================================================================== *)

(** ** Identifiers and links *)

Lemma isdigit_char_not_space (c : ascii) :
  PyStr.isdigit_char c = true -> PyStr.isspace_char c = false.
Proof.
  unfold PyStr.isdigit_char, PyStr.isdecimal_char, PyStr.isspace_char, PyStr.in_range.
  generalize (PyStr.code c). intros n H.
  repeat match goal with
         | |- context [(?a <=? ?b)%N] => destruct (N.leb_spec a b)
         | |- context [(?a =? ?b)%N] => destruct (N.eqb_spec a b)
         | H : context [(?a <=? ?b)%N] |- _ => destruct (N.leb_spec a b)
         | H : context [(?a =? ?b)%N] |- _ => destruct (N.eqb_spec a b)
         end; simpl in *; try reflexivity; try discriminate; lia.
Qed.

Lemma lstrip_clean (s : string) :
  PyStr.all_chars (fun c => negb (PyStr.isspace_char c)) s = true -> PyStr.lstrip s = s.
Proof.
  destruct s as [|c r]; simpl; [reflexivity|]. intros H.
  apply andb_true_iff in H as [Hc _]. apply negb_true_iff in Hc. rewrite Hc. reflexivity.
Qed.

Lemma rstrip_clean (s : string) :
  PyStr.all_chars (fun c => negb (PyStr.isspace_char c)) s = true -> PyStr.rstrip s = s.
Proof.
  induction s as [|c r IH]; simpl; [reflexivity|]. intros H.
  apply andb_true_iff in H as [Hc Hr]. apply negb_true_iff in Hc.
  rewrite Hc, (IH Hr). reflexivity.
Qed.

(** A string without white space is its own [strip]. *)
Lemma strip_clean (s : string) :
  PyStr.all_chars (fun c => negb (PyStr.isspace_char c)) s = true -> PyStr.strip s = s.
Proof.
  intros H. unfold PyStr.strip. rewrite (lstrip_clean s H). apply rstrip_clean, H.
Qed.

Lemma all_chars_impl (p q : ascii -> bool) (s : string) :
  (forall c, p c = true -> q c = true) ->
  PyStr.all_chars p s = true -> PyStr.all_chars q s = true.
Proof.
  intros Hpq. induction s as [|c r IH]; simpl; [reflexivity|]. intros H.
  apply andb_true_iff in H as [Hc Hr]. rewrite (Hpq c Hc), (IH Hr). reflexivity.
Qed.

Lemma all_chars_app (p : ascii -> bool) (s t : string) :
  PyStr.all_chars p (s ++ t) = PyStr.all_chars p s && PyStr.all_chars p t.
Proof.
  induction s as [|c r IH]; simpl; [reflexivity|]. rewrite IH, andb_assoc. reflexivity.
Qed.

Lemma isdigit_clean (s : string) :
  PyStr.isdigit s = true ->
  PyStr.all_chars (fun c => negb (PyStr.isspace_char c)) s = true.
Proof.
  unfold PyStr.isdigit. intros H. apply andb_true_iff in H as [_ H].
  eapply all_chars_impl; [|exact H]. intros c Hc. simpl.
  rewrite (isdigit_char_not_space c Hc). reflexivity.
Qed.

Lemma span_whole (p : ascii -> bool) (s : string) :
  PyStr.all_chars p s = true -> PyStr.span p s = s.
Proof.
  induction s as [|c r IH]; simpl; [reflexivity|]. intros H.
  apply andb_true_iff in H as [Hc Hr]. rewrite Hc, (IH Hr). reflexivity.
Qed.

(** X1: the link the API builds for an identifier made of decimal digits
    leads back to that identifier. *)
Theorem workshop_url_round_trip (workshop_id : string) :
  PyStr.isdecimal workshop_id = true ->
  extract_workshop_id (Api.WORKSHOP_URL workshop_id) = Some workshop_id.
Proof.
  intros Hdec. pose proof Hdec as Hd. unfold PyStr.isdecimal in Hd.
  apply andb_true_iff in Hd as [Hne Hall].
  assert (Hclean : PyStr.strip (Api.WORKSHOP_URL workshop_id) = Api.WORKSHOP_URL workshop_id).
  { apply strip_clean. unfold Api.WORKSHOP_URL. rewrite all_chars_app.
    apply andb_true_iff. split; [vm_compute; reflexivity|].
    apply isdigit_clean, isdecimal_isdigit, Hdec. }
  unfold extract_workshop_id. rewrite Hclean.
  unfold Api.WORKSHOP_URL. cbn.
  rewrite (span_whole _ _ Hall).
  destruct workshop_id; [discriminate|reflexivity].
Qed.

Lemma workshop_url_round_trip_witness :
  extract_workshop_id (Api.WORKSHOP_URL "2565540604") = Some "2565540604".
Proof.
  apply (workshop_url_round_trip "2565540604"). reflexivity.
Defined.

(** X2: [extract_workshop_id] does not see white space around its input,
    and an identifier it returns is returned again when it is fed back. *)
Theorem extract_workshop_id_stable (value : string) :
  extract_workshop_id (PyStr.strip value) = extract_workshop_id value
  /\ forall extracted : string,
      extract_workshop_id value = Some extracted ->
      extract_workshop_id extracted = Some extracted.
Proof.
  split; [apply extract_workshop_id_strip|].
  intros extracted. unfold extract_workshop_id at 1.
  destruct (PyStr.isdigit (PyStr.strip value)) eqn:Hdigit.
  - intros [= <-]. unfold extract_workshop_id.
    rewrite strip_idempotent, Hdigit. reflexivity.
  - destruct (PyStr.search_id (PyStr.strip value)) as [d|] eqn:Hsearch; [|discriminate].
    intros [= <-]. apply search_id_first in Hsearch.
    destruct Hsearch as [pre [tail [_ [[post [_ [Hd _]]] _]]]].
    apply isdecimal_isdigit in Hd. unfold extract_workshop_id.
    rewrite (strip_clean d (isdigit_clean d Hd)), Hd. reflexivity.
Qed.

(** ** [to_int] beyond its failures *)

Lemma isdigit_no_minus (s : string) :
  PyStr.isdigit s = true -> PyStr.startswith "-" s = false.
Proof.
  destruct s as [|c r]; [reflexivity|]. unfold PyStr.isdigit.
  cbn [PyStr.is_empty negb andb PyStr.all_chars PyStr.startswith].
  intros H. apply andb_true_iff in H as [Hc _].
  destruct (Ascii.eqb "-" c) eqn:Heq; [|reflexivity].
  apply Ascii.eqb_eq in Heq. subst c. vm_compute in Hc. discriminate Hc.
Qed.

(** X3: [to_int] raises on a [float] that is a NaN or an infinity, on a
    string of digits (after an optional minus sign) that are not all decimal
    digits or are more than [int] reads, and on a string that [float] reads
    as an infinity; it raises nothing else and on nothing else. *)
Theorem to_int_raises_only (value : pyobj) (e : exn) :
  to_int value = Raises e ->
  match value with
  | PyFloat f =>
      (e = ValueError /\ Prim2SF f = S754_nan)
      \/ (e = OverflowError /\ exists sign, Prim2SF f = S754_infinity sign)
  | PyStr s =>
      let cleaned := PyStr.strip s in
      let digits := if PyStr.startswith "-" cleaned then PyStr.drop 1 cleaned else cleaned in
      (e = ValueError /\ PyStr.isdigit digits = true /\ PyStr.isdecimal digits = false)
      \/ (e = ValueError /\ PyStr.isdecimal digits = true
          /\ PyNum.int_max_str_digits < Z.of_nat (String.length digits))
      \/ (e = OverflowError
          /\ exists f sign, PyNum.float_of_str cleaned = Some f
                            /\ Prim2SF f = S754_infinity sign)
  | _ => False
  end.
Proof.
  destruct value as [|b|z|f|s|]; try discriminate.
  - unfold to_int, PyNum.int_of_float. destruct (Prim2SF f) eqn:Hf; try discriminate.
    + intros [= <-]. right. split; [reflexivity|]. eexists. reflexivity.
    + intros [= <-]. left. split; reflexivity.
  - unfold to_int. cbv zeta. set (cleaned := PyStr.strip s).
    destruct (PyStr.is_empty cleaned); [discriminate|].
    destruct (PyStr.isdigit cleaned) eqn:Hd; cbn [orb].
    + unfold PyNum.int_of_str, PyNum.within_limit. rewrite (isdigit_no_minus cleaned Hd).
      destruct (PyStr.isdecimal cleaned) eqn:Hdec.
      * destruct (Z.ltb_spec PyNum.int_max_str_digits (Z.of_nat (String.length cleaned)));
          [|discriminate].
        intros [= <-]. right. left. repeat split; assumption.
      * intros [= <-]. left. repeat split; assumption.
    + destruct (PyStr.startswith "-" cleaned) eqn:Hm; cbn [andb].
      * destruct (PyStr.isdigit (PyStr.drop 1 cleaned)) eqn:Hd1.
        -- unfold PyNum.int_of_str, PyNum.within_limit. rewrite Hm.
           destruct (PyStr.isdecimal (PyStr.drop 1 cleaned)) eqn:Hdec.
           ++ destruct (Z.ltb_spec PyNum.int_max_str_digits
                          (Z.of_nat (String.length (PyStr.drop 1 cleaned))));
                [|discriminate].
              intros [= <-]. right. left. repeat split; assumption.
           ++ intros [= <-]. left. repeat split; assumption.
        -- destruct (PyNum.float_of_str cleaned) as [f|] eqn:Hf; [|discriminate].
           unfold PyNum.int_of_float. destruct (Prim2SF f) eqn:Hsf; try discriminate.
           intros [= <-]. right. right. split; [reflexivity|]. exists f. eexists. split; eauto.
      * destruct (PyNum.float_of_str cleaned) as [f|] eqn:Hf; [|discriminate].
        unfold PyNum.int_of_float. destruct (Prim2SF f) eqn:Hsf; try discriminate.
        intros [= <-]. right. right. split; [reflexivity|]. exists f. eexists. split; eauto.
Qed.

Lemma to_int_raises_only_witness :
  let cleaned := PyStr.strip "1e999" in
  let digits := if PyStr.startswith "-" cleaned then PyStr.drop 1 cleaned else cleaned in
  (OverflowError = ValueError
   /\ PyStr.isdigit digits = true /\ PyStr.isdecimal digits = false)
  \/ (OverflowError = ValueError /\ PyStr.isdecimal digits = true
      /\ PyNum.int_max_str_digits < Z.of_nat (String.length digits))
  \/ (OverflowError = OverflowError
      /\ exists f sign, PyNum.float_of_str cleaned = Some f
                        /\ Prim2SF f = S754_infinity sign).
Proof.
  apply (to_int_raises_only (PyStr "1e999") OverflowError). vm_compute. reflexivity.
Defined.

Lemma digits_value_nonneg (s : string) (acc : Z) :
  PyStr.all_chars PyStr.isdecimal_char s = true -> 0 <= acc ->
  0 <= PyNum.digits_value acc s.
Proof.
  revert acc. induction s as [|c r IH]; intros acc Hall Hacc;
    cbn [PyNum.digits_value]; [exact Hacc|].
  simpl in Hall. apply andb_true_iff in Hall as [Hc Hr]. apply IH; [exact Hr|].
  unfold PyStr.isdecimal_char, PyStr.in_range in Hc.
  apply andb_true_iff in Hc as [Hlo _]. apply N.leb_le in Hlo.
  unfold PyNum.digit_value. lia.
Qed.

(** X4: on a string of decimal digits, white space around it allowed,
    [to_int] returns the natural number they denote when they are no more
    than [int] reads, and raises [ValueError] when they are more; with a
    minus sign before the digits it returns the opposite number, and raises
    likewise. *)
Theorem to_int_decimal (s : string) :
  (PyStr.isdecimal (PyStr.strip s) = true ->
   (Z.of_nat (String.length (PyStr.strip s)) <= PyNum.int_max_str_digits ->
    to_int (PyStr s) = Returns (PyNum.digits_value 0 (PyStr.strip s))
    /\ 0 <= PyNum.digits_value 0 (PyStr.strip s))
   /\ (PyNum.int_max_str_digits < Z.of_nat (String.length (PyStr.strip s)) ->
       to_int (PyStr s) = Raises ValueError))
  /\ (forall digits : string,
         PyStr.strip s = String "-" digits ->
         PyStr.isdecimal digits = true ->
         (Z.of_nat (String.length digits) <= PyNum.int_max_str_digits ->
          to_int (PyStr s) = Returns (- PyNum.digits_value 0 digits)
          /\ - PyNum.digits_value 0 digits <= 0)
         /\ (PyNum.int_max_str_digits < Z.of_nat (String.length digits) ->
             to_int (PyStr s) = Raises ValueError)).
Proof.
  split.
  - intros Hdec. pose proof (isdecimal_isdigit _ Hdec) as Hdigit.
    assert (Hne : PyStr.is_empty (PyStr.strip s) = false).
    { unfold PyStr.isdecimal in Hdec. apply andb_true_iff in Hdec as [H _].
      apply negb_true_iff, H. }
    assert (Hto : to_int (PyStr s)
                  = PyNum.within_limit (PyStr.strip s)
                                       (PyNum.digits_value 0 (PyStr.strip s))).
    { unfold to_int. cbv zeta. rewrite Hne, Hdigit. cbn [orb]. unfold PyNum.int_of_str.
      rewrite (isdigit_no_minus _ Hdigit), Hdec. reflexivity. }
    rewrite Hto. unfold PyNum.within_limit.
    destruct (Z.ltb_spec PyNum.int_max_str_digits
                (Z.of_nat (String.length (PyStr.strip s)))) as [Hlong|Hshort].
    + split; [intros H; exfalso; lia|reflexivity].
    + split; [|intros H; exfalso; lia]. intros _. split; [reflexivity|].
      apply digits_value_nonneg; [|lia].
      unfold PyStr.isdecimal in Hdec. apply andb_true_iff in Hdec as [_ H]. exact H.
  - intros digits Hstrip Hdec. pose proof (isdecimal_isdigit _ Hdec) as Hdigit.
    assert (Hto : to_int (PyStr s)
                  = PyNum.within_limit digits (- PyNum.digits_value 0 digits)).
    { unfold to_int. cbv zeta. rewrite Hstrip.
      cbn [PyStr.is_empty PyStr.startswith PyStr.drop andb]. rewrite Ascii.eqb_refl.
      cbn [andb]. rewrite Hdigit, orb_true_r. unfold PyNum.int_of_str.
      cbn [PyStr.startswith PyStr.drop]. rewrite Ascii.eqb_refl. cbn [andb].
      rewrite Hdec. reflexivity. }
    rewrite Hto. unfold PyNum.within_limit.
    destruct (Z.ltb_spec PyNum.int_max_str_digits (Z.of_nat (String.length digits)))
      as [Hlong|Hshort].
    + split; [intros H; exfalso; lia|reflexivity].
    + split; [|intros H; exfalso; lia]. intros _. split; [reflexivity|].
      assert (0 <= PyNum.digits_value 0 digits); [|lia].
      apply digits_value_nonneg; [|lia].
      unfold PyStr.isdecimal in Hdec. apply andb_true_iff in Hdec as [_ H]. exact H.
Qed.

(** ** The sample history *)

(** X5: a history of at most 60 samples stays one: the new sample is its
    last element, the older ones keep their order, and the oldest is dropped
    exactly when the history was full. *)
Theorem push_sample_window (size_samples : list Z) (total_bytes : Z) :
  (List.length size_samples <= 60)%nat ->
  let pushed := Progress.push_sample size_samples total_bytes in
  (List.length pushed <= 60)%nat
  /\ (exists front : list Z, pushed = front ++ [total_bytes])
  /\ ((List.length size_samples < 60)%nat -> pushed = size_samples ++ [total_bytes])
  /\ (List.length size_samples = 60%nat ->
      exists oldest : Z, oldest :: pushed = size_samples ++ [total_bytes]).
Proof.
  intros Hlen pushed. split; [apply push_sample_bounded, Hlen|].
  unfold pushed, Progress.push_sample. rewrite length_app. simpl.
  destruct (Nat.ltb_spec 60 (List.length size_samples + 1)) as [Hfull|Hroom].
  - destruct size_samples as [|oldest rest]; [simpl in Hfull; lia|]. simpl.
    split; [exists rest; reflexivity|].
    split; [intros H; exfalso; simpl in *; lia|].
    intros _. exists oldest. reflexivity.
  - split; [exists size_samples; reflexivity|]. split; [reflexivity|].
    intros H. exfalso. lia.
Qed.

Lemma push_sample_window_witness :
  let pushed := Progress.push_sample [10; 20] 30 in
  (List.length pushed <= 60)%nat
  /\ (exists front : list Z, pushed = front ++ [30])
  /\ ((List.length [10; 20] < 60)%nat -> pushed = [10; 20] ++ [30])
  /\ (List.length [10; 20] = 60%nat ->
      exists oldest : Z, oldest :: pushed = [10; 20] ++ [30]).
Proof.
  apply (push_sample_window [10; 20] 30). simpl. lia.
Defined.

Lemma sum_bounds (l : list Z) (lo hi : Z) :
  Forall (fun x => lo <= x <= hi) l ->
  Z.of_nat (List.length l) * lo <= Progress.sum l <= Z.of_nat (List.length l) * hi.
Proof.
  induction 1 as [|x l Hx Hl IH]; [simpl; lia|].
  change (Progress.sum (x :: l)) with (x + Progress.sum l).
  rewrite length_cons, Nat2Z.inj_succ. lia.
Qed.

(** X6: the average a tick works with never leaves the range of the
    samples it is taken from: it is at least the smallest and at most the
    largest of the last five. *)
Theorem average_within_window (size_samples : list Z) (total_bytes lo hi : Z) :
  let samples := Progress.push_sample size_samples total_bytes in
  Forall (fun x => lo <= x <= hi) (Progress.last5 samples) ->
  exists average : Z,
    Progress.average_bytes samples = Returns average /\ lo <= average <= hi.
Proof.
  intros samples Hwin.
  pose proof (push_sample_nonempty size_samples total_bytes) as Hne. fold samples in Hne.
  pose proof (last5_length samples) as Hlen.
  pose proof (sum_bounds _ lo hi Hwin) as Hsum. rewrite Hlen in Hsum.
  unfold Progress.average_bytes, PyNum.floordiv.
  set (k := Z.of_nat (Nat.min (List.length samples) 5)) in *.
  assert (Hk : 0 < k) by (unfold k; lia).
  destruct (Z.eqb_spec k 0) as [H0|_]; [lia|].
  eexists. split; [reflexivity|]. split.
  - apply Z.div_le_lower_bound; lia.
  - apply Z.div_le_upper_bound; lia.
Qed.

Lemma average_within_window_witness :
  exists average : Z,
    Progress.average_bytes (Progress.push_sample [10; 20] 30) = Returns average
    /\ 10 <= average <= 30.
Proof.
  apply (average_within_window [10; 20] 30 10 30).
  vm_compute. repeat constructor; discriminate.
Defined.

(** ** Admission and the queue commands *)

Lemma busy_refuses (s : System) :
  Manager.is_busy (download_manager s) = true ->
  (forall other : string,
      Manager.start_download s other
      = (s, (false, Some "Another download is already running")))
  /\ Manager.start_queue s = (s, (false, Some "A download is already running")).
Proof.
  intros Hs. unfold Manager.start_download, Manager.start_queue. rewrite Hs.
  split; reflexivity.
Qed.

(** X7: whichever admission succeeds, the manager is busy afterwards, the
    stop event is cleared, the status record is untouched, and every
    further admission of either kind is refused and changes nothing: at
    most one worker is admitted at a time. *)
Theorem admission_is_exclusive (sys sys' : System) (workshop_id : string) :
  Manager.start_download sys workshop_id = (sys', (true, None))
  \/ Manager.start_queue sys = (sys', (true, None)) ->
  Manager.is_busy (download_manager sys) = false
  /\ Manager.is_busy (download_manager sys') = true
  /\ stop_event (download_manager sys') = false
  /\ app_state sys' = app_state sys
  /\ (forall other : string,
         Manager.start_download sys' other
         = (sys', (false, Some "Another download is already running")))
  /\ Manager.start_queue sys' = (sys', (false, Some "A download is already running")).
Proof.
  intros H.
  assert (Hfacts : Manager.is_busy (download_manager sys) = false
                   /\ Manager.is_busy (download_manager sys') = true
                   /\ stop_event (download_manager sys') = false
                   /\ app_state sys' = app_state sys).
  { unfold Manager.start_download, Manager.start_queue in H.
    destruct (Manager.is_busy (download_manager sys)) eqn:Hbusy.
    { destruct H as [H|H]; discriminate H. }
    destruct H as [H|H].
    - injection H as <-. repeat split.
    - destruct (queue (app_state sys)) as [|next_id rest]; [discriminate H|].
      injection H as <-. repeat split. unfold Manager.is_busy. simpl.
      apply orb_true_r. }
  destruct Hfacts as [Hidle [Hbusy [Hstop Hstate]]].
  repeat (split; [assumption|]). apply busy_refuses, Hbusy.
Qed.

Lemma admission_is_exclusive_witness :
  let sys' := fst (Manager.start_download initial_system "999") in
  Manager.is_busy (download_manager initial_system) = false
  /\ Manager.is_busy (download_manager sys') = true
  /\ stop_event (download_manager sys') = false
  /\ app_state sys' = app_state initial_system
  /\ (forall other : string,
         Manager.start_download sys' other
         = (sys', (false, Some "Another download is already running")))
  /\ Manager.start_queue sys' = (sys', (false, Some "A download is already running")).
Proof.
  apply (admission_is_exclusive initial_system
           (fst (Manager.start_download initial_system "999")) "999").
  left. reflexivity.
Defined.

(** X8: [start_queue] admits exactly when no worker is alive and the queue
    is not empty; an empty queue is refused with its own message; a refusal
    changes nothing, and no outcome touches the status record. *)
Theorem start_queue_admits_iff (sys : System) :
  (fst (snd (Manager.start_queue sys)) = true
   <-> Manager.is_busy (download_manager sys) = false /\ queue (app_state sys) <> [])
  /\ (fst (snd (Manager.start_queue sys)) = false -> fst (Manager.start_queue sys) = sys)
  /\ (Manager.is_busy (download_manager sys) = false ->
      queue (app_state sys) = [] ->
      Manager.start_queue sys = (sys, (false, Some "The queue is empty")))
  /\ app_state (fst (Manager.start_queue sys)) = app_state sys.
Proof.
  unfold Manager.start_queue.
  destruct (Manager.is_busy (download_manager sys)); simpl.
  - repeat split; try discriminate; try reflexivity. intros [H _]. discriminate H.
  - destruct (queue (app_state sys)) as [|next_id rest]; simpl.
    + repeat split; try discriminate; try reflexivity. intros [_ H]. contradiction.
    + repeat split; try discriminate; try reflexivity.
Qed.

Lemma NoDup_app_disjoint (l new : list string) :
  NoDup l -> NoDup new -> (forall x, In x new -> ~ In x l) -> NoDup (l ++ new).
Proof.
  intros Hl Hnew Hdis. induction Hl as [|x l Hx Hl IH]; simpl; [exact Hnew|].
  constructor.
  - rewrite in_app_iff. intros [H|H]; [contradiction|].
    apply (Hdis x H). left. reflexivity.
  - apply IH. intros y Hy Hin. apply (Hdis y Hy). right. exact Hin.
Qed.

Lemma empty_when_no_member (l : list string) : (forall x, ~ In x l) -> l = [].
Proof.
  destruct l as [|x l]; [reflexivity|]. intros H. exfalso. apply (H x). left. reflexivity.
Qed.

(** X9: [enqueue] keeps a queue without duplicates free of them, whatever
    the items (also when they repeat); afterwards the queue holds what it
    held and the items; enqueueing the same items once more adds nothing
    and changes nothing. *)
Theorem enqueue_no_duplicates (st : AppState) (items : list string) :
  NoDup (queue st) ->
  let st' := fst (Manager.enqueue st items) in
  NoDup (queue st')
  /\ (forall x, In x (queue st') <-> In x (queue st) \/ In x items)
  /\ (exists added, queue st' = queue st ++ added /\ snd (Manager.enqueue st items) = added)
  /\ Manager.enqueue st' items = (st', []).
Proof.
  intros Hnd st'. unfold st', Manager.enqueue.
  destruct (enqueue_loop_spec items (queue st) []) as [new [Heq [Hin Hnew]]].
  rewrite Heq. cbn [fst snd app].
  assert (Hq : queue (update [Queue (queue st ++ new)] st) = queue st ++ new) by reflexivity.
  rewrite Hq. split; [|split; [|split]].
  - apply NoDup_app_disjoint; try assumption. intros x Hx. apply Hin, Hx.
  - intros x. rewrite in_app_iff, Hin.
    destruct (in_dec string_dec x (queue st)); tauto.
  - exists new. split; reflexivity.
  - destruct (enqueue_loop_spec items (queue st ++ new) []) as [again [Heq' [Hin' _]]].
    rewrite Heq'. cbn [app].
    assert (Hnone : again = []).
    { apply empty_when_no_member. intros x Hx. apply Hin' in Hx as [Hitem Hout].
      apply Hout. rewrite in_app_iff, Hin.
      destruct (in_dec string_dec x (queue st)); tauto. }
    rewrite Hnone, app_nil_r. reflexivity.
Qed.

Lemma enqueue_no_duplicates_witness :
  let st := Sample.pending ["1"] in
  let items := ["1"; "2"; "1"; "2"] in
  let st' := fst (Manager.enqueue st items) in
  NoDup (queue st')
  /\ (forall x, In x (queue st') <-> In x (queue st) \/ In x items)
  /\ (exists added, queue st' = queue st ++ added /\ snd (Manager.enqueue st items) = added)
  /\ Manager.enqueue st' items = (st', []).
Proof.
  apply (enqueue_no_duplicates (Sample.pending ["1"]) ["1"; "2"; "1"; "2"]).
  simpl. constructor; [intros []|constructor].
Defined.

Lemma extract_workshop_id_isdigit (value extracted : string) :
  extract_workshop_id value = Some extracted -> PyStr.isdigit extracted = true.
Proof.
  unfold extract_workshop_id.
  destruct (PyStr.isdigit (PyStr.strip value)) eqn:Hdigit.
  - intros [= <-]. exact Hdigit.
  - destruct (PyStr.search_id (PyStr.strip value)) as [d|] eqn:Hsearch; [|discriminate].
    intros [= <-]. apply search_id_first in Hsearch.
    destruct Hsearch as [pre [tail [_ [[post [_ [Hd _]]] _]]]].
    apply isdecimal_isdigit, Hd.
Qed.

(** X10: the endpoint that adds to the queue lets in only identifiers that
    [extract_workshop_id] found in one of the items given, so a queue of
    digit strings stays one; items without an identifier are dropped. *)
Theorem add_to_queue_filters (st : AppState) (raw_items : list string) :
  Forall (fun id => PyStr.isdigit id = true) (queue st) ->
  let st' := fst (Manager.add_to_queue st raw_items) in
  let added := snd (Manager.add_to_queue st raw_items) in
  Forall (fun id => PyStr.isdigit id = true) (queue st')
  /\ queue st' = queue st ++ added
  /\ forall id, In id added ->
       exists item, In item raw_items /\ extract_workshop_id item = Some id.
Proof.
  intros Hq st' added. unfold st', added, Manager.add_to_queue, Manager.enqueue.
  set (cleaned := flat_map _ raw_items).
  destruct (enqueue_loop_spec cleaned (queue st) []) as [new [Heq [Hin _]]].
  rewrite Heq. cbn [fst snd app].
  assert (Hfrom : forall id, In id new ->
                    exists item, In item raw_items /\ extract_workshop_id item = Some id).
  { intros id Hid. apply Hin in Hid as [Hid _]. unfold cleaned in Hid.
    apply in_flat_map in Hid as [item [Hitem Hid]]. exists item. split; [exact Hitem|].
    destruct (extract_workshop_id item) as [extracted|]; [|contradiction].
    destruct Hid as [<-|[]]. reflexivity. }
  split; [|split; [reflexivity|exact Hfrom]].
  change (queue (update [Queue (queue st ++ new)] st)) with (queue st ++ new).
  apply Forall_app. split; [exact Hq|].
  apply Forall_forall. intros id Hid. destruct (Hfrom id Hid) as [item [_ Hex]].
  eapply extract_workshop_id_isdigit, Hex.
Qed.

Lemma add_to_queue_filters_witness :
  let st := Sample.pending ["1"] in
  let raw_items := ["abc"; " 42 "; "https://example.org/?id=7&x=1"] in
  let st' := fst (Manager.add_to_queue st raw_items) in
  let added := snd (Manager.add_to_queue st raw_items) in
  Forall (fun id => PyStr.isdigit id = true) (queue st')
  /\ queue st' = queue st ++ added
  /\ forall id, In id added ->
       exists item, In item raw_items /\ extract_workshop_id item = Some id.
Proof.
  apply (add_to_queue_filters (Sample.pending ["1"])
           ["abc"; " 42 "; "https://example.org/?id=7&x=1"]).
  repeat constructor.
Defined.

Lemma list_remove_first (x : string) (l : list string) :
  In x l ->
  exists before after : list string,
    l = before ++ x :: after /\ ~ In x before /\ Api.list_remove x l = before ++ after.
Proof.
  induction l as [|y rest IH]; [intros []|]. intros Hin. simpl.
  destruct (String.eqb_spec y x) as [->|Hne].
  - exists [], rest. repeat split. intros [].
  - destruct Hin as [Heq|Hin]; [contradiction|].
    destruct (IH Hin) as [before [after [Hl [Hnot Hrem]]]].
    exists (y :: before), after. simpl. rewrite Hrem. split; [f_equal; exact Hl|].
    split; [|reflexivity]. intros [H|H]; [contradiction|exact (Hnot H)].
Qed.

(** X11: removing from the queue looks for the identifier extracted from
    the argument (the argument itself when there is none); when the queue
    holds it, its first occurrence is taken out, the rest keeps its order
    and the answer is 200; when it does not, nothing changes and the answer
    is 404. *)
Theorem remove_from_queue_first (st : AppState) (item_id : string) :
  let target := match extract_workshop_id item_id with
                | Some extracted => extracted
                | None => item_id
                end in
  (In target (queue st) ->
   exists before after : list string,
     queue st = before ++ target :: after
     /\ ~ In target before
     /\ Api.remove_from_queue st item_id = (update [Queue (before ++ after)] st, 200))
  /\ (~ In target (queue st) -> Api.remove_from_queue st item_id = (st, 404)).
Proof.
  intros target. unfold Api.remove_from_queue. fold target. split.
  - intros Hin. destruct (list_remove_first target (queue st) Hin)
      as [before [after [Hq [Hnot Hrem]]]].
    exists before, after. split; [exact Hq|]. split; [exact Hnot|].
    apply mem_In in Hin. rewrite Hin, Hrem. reflexivity.
  - intros Hout. destruct (Manager.mem target (queue st)) eqn:Hmem; [|reflexivity].
    apply mem_In in Hmem. contradiction.
Qed.

(** ** What a run of [_perform_download] leaves *)

Lemma download_loop_stopped (file_size_bytes b1 b2 : Z) (observed : list Tick)
      (size_samples : list Z) (j j' : Job) :
  Worker.download_loop file_size_bytes b1 b2 observed size_samples j
  = Worker.LoopStopped j' ->
  download_status (state j') = Stopped.
Proof.
  revert size_samples j. induction observed as [|t rest IH]; intros size_samples j; simpl;
    [discriminate|].
  destruct (stop_is_set t).
  - destruct (wait_times_out t); [discriminate|]. intros [= <-]. reflexivity.
  - destruct (Progress.tick_progress _ _ _ _) as [progress|e]; [|discriminate].
    destruct (still_running t); [apply IH|discriminate].
Qed.

Ltac settle :=
  unfold Spec.settled, Worker.handle, Worker.fail, Worker.reject, Worker.escape;
  simpl; auto.

Lemma complete_settled (env : Env) (download_path content_path : Fs.path)
      (fs : Fs.t) (j : Job) :
  Spec.settled (Worker.complete env download_path content_path fs j).
Proof.
  unfold Worker.complete.
  destruct (clean_on_finish env) as [setting|e]; [|settle].
  destruct (library env) as [e|]; settle.
Qed.

Lemma install_settled (env : Env) (workshop_id : string)
      (destination_folder download_path content_path source_root : Fs.path)
      (manifest : Manifest) (fs : Fs.t) (j : Job) :
  Spec.settled (Worker.install env workshop_id destination_folder download_path
                               content_path source_root manifest fs j).
Proof.
  unfold Worker.install.
  destruct (Install.item_type_of manifest) as [item_type|e]; [|settle].
  destruct (Fs.makedirs fs _) as [fs1|e]; [|settle].
  destruct (Fs.makedirs fs1 _) as [fs2|e]; [|settle].
  destruct (Fs.copytree fs2 _ _) as [fs3|e]; [|settle].
  apply complete_settled.
Qed.

Lemma finalize_settled (env : Env) (workshop_id : string)
      (destination_folder download_path content_path : Fs.path) (j : Job) :
  Spec.settled (Worker.finalize env workshop_id destination_folder download_path
                                content_path j).
Proof.
  unfold Worker.finalize.
  destruct (negb (return_code env =? 0)); [settle|].
  destruct (Worker.find_manifest _ _ _) as [workshop_json|]; [|settle].
  destruct (metadata env) as [manifest|]; [|settle].
  apply install_settled.
Qed.

Lemma supervise_settled (env : Env) (workshop_id : string) (file_size_bytes : Z)
      (destination_folder steamcmd_path : Fs.path) (fs : Fs.t) (j : Job) :
  Spec.settled (Worker.supervise env workshop_id file_size_bytes destination_folder
                                 steamcmd_path fs j).
Proof.
  unfold Worker.supervise.
  destruct (Fs.makedirs fs _) as [fs1|e]; [|settle].
  destruct (popen env) as [e|]; [settle|].
  destruct (Worker.download_loop _ _ _ _ _ _) as [j'|e j'|j'] eqn:Hloop.
  - apply download_loop_stopped in Hloop. settle.
  - settle.
  - apply finalize_settled.
Qed.

Lemma check_paths_settled (env : Env) (workshop_id : string)
      (destination_folder steamcmd_path : Fs.path) (j : Job) :
  Spec.settled (Worker.check_paths env workshop_id destination_folder steamcmd_path j).
Proof.
  unfold Worker.check_paths.
  destruct (negb (Fs.exists_ _ destination_folder)); [settle|].
  destruct (_ && negb (String.eqb _ "steamcmd.exe")); [settle|].
  destruct (negb (Fs.exists_ _ _)); [settle|].
  destruct (negb (Fs.exists_ _ _)); [settle|].
  unfold Worker.lookup_item.
  destruct (details env) as [exc|[title reported_size]]; [settle|].
  destruct (to_int reported_size) as [file_size_bytes|e]; [|settle].
  destruct (if file_size_bytes =? 0 then _ else _) as [size|e]; [|settle].
  destruct (if size =? 0 then _ else _) as [readable|e]; [|settle].
  apply supervise_settled.
Qed.

Lemma check_settings_settled (env : Env) (workshop_id destination steamcmd : string)
      (j : Job) :
  Spec.settled (Worker.check_settings env workshop_id destination steamcmd j).
Proof.
  unfold Worker.check_settings.
  destruct (PyStr.is_empty (PyStr.strip destination)); [settle|].
  destruct (PyStr.is_empty (PyStr.strip steamcmd)); [settle|].
  destruct (negb (PyStr.isdigit workshop_id)).
  - destruct (extract_workshop_id workshop_id) as [extracted|]; [|settle].
    apply check_paths_settled.
  - apply check_paths_settled.
Qed.

Lemma last_report_step (kwargs : list assign) (j : Job) :
  exists earlier : list AppState,
    reports (_update_state kwargs j) = earlier ++ [state (_update_state kwargs j)].
Proof.
  exists (reports j). reflexivity.
Qed.

(** X12: the status a run of [_perform_download] leaves agrees with what it
    returns: a run that returns a success has reported the completed phase
    with progress 100 and has started the external process; a run that
    returns a failure has reported the error or the stopped phase; and the
    state it leaves is the last one it reported. *)
Theorem perform_download_settled (env : Env) (st : AppState) (workshop_id : string) :
  let run := Worker._perform_download env st workshop_id in
  Spec.settled run
  /\ exists earlier : list AppState, reports (job run) = earlier ++ [state (job run)].
Proof.
  intros run. split.
  - unfold run, Worker._perform_download.
    destruct (DestinationFolder env) as [destination|e]; [|settle].
    destruct (SteamCMDPath env) as [steamcmd|e]; [|settle].
    apply check_settings_settled.
  - set (last_reported := fun j : Job =>
                            exists earlier, reports j = earlier ++ [state j]).
    apply (perform_download_invariant env (fun _ => True)
             last_reported last_reported last_reported last_reported);
      unfold last_reported; auto using last_report_step.
    + apply Forall_forall. auto.
    + intros t j samples size progress _ _ _.
      destruct (still_running t); apply last_report_step.
Qed.

(** X13: the external process is started only for a job whose
    configuration and identifier passed every check: both settings were
    read and are present, the destination folder exists, the identifier is
    a digit string or holds one, the lookup of the item succeeded, and
    [Popen] raised nothing.  A job that fails one of these never starts a
    process. *)
Theorem process_needs_valid_job (env : Env) (st : AppState) (workshop_id : string) :
  spawned (Worker._perform_download env st workshop_id) = true ->
  exists destination steamcmd : string,
    DestinationFolder env = Returns destination
    /\ SteamCMDPath env = Returns steamcmd
    /\ PyStr.is_empty (PyStr.strip destination) = false
    /\ PyStr.is_empty (PyStr.strip steamcmd) = false
    /\ Fs.exists_ (disk env) (Fs.join [] (PyStr.strip destination)) = true
    /\ extract_workshop_id workshop_id <> None
    /\ (exists title reported_size, details env = inr (title, reported_size))
    /\ popen env = None.
Proof.
  unfold Worker._perform_download.
  destruct (DestinationFolder env) as [destination|e]; [|discriminate].
  destruct (SteamCMDPath env) as [steamcmd|e]; [|discriminate].
  unfold Worker.check_settings.
  destruct (PyStr.is_empty (PyStr.strip destination)) eqn:Hdest; [discriminate|].
  destruct (PyStr.is_empty (PyStr.strip steamcmd)) eqn:Hcmd; [discriminate|].
  assert (Hcheck : forall id j,
             spawned (Worker.check_paths env id
                        (Fs.join [] (PyStr.strip destination))
                        (Fs.join [] (PyStr.strip steamcmd)) j) = true ->
             Fs.exists_ (disk env) (Fs.join [] (PyStr.strip destination)) = true
             /\ (exists title reported_size, details env = inr (title, reported_size))
             /\ popen env = None).
  { intros id j. unfold Worker.check_paths.
    destruct (Fs.exists_ (disk env) (Fs.join [] (PyStr.strip destination)));
      [|discriminate]. cbn [negb].
    destruct (_ && negb (String.eqb _ "steamcmd.exe")); [discriminate|].
    destruct (negb (Fs.exists_ _ _)); [discriminate|].
    destruct (negb (Fs.exists_ _ _)); [discriminate|].
    unfold Worker.lookup_item.
    destruct (details env) as [exc|[title reported_size]]; [discriminate|].
    destruct (to_int reported_size) as [file_size_bytes|e]; [|discriminate].
    destruct (if file_size_bytes =? 0 then _ else _) as [size|e]; [|discriminate].
    destruct (if size =? 0 then _ else _) as [readable|e]; [|discriminate].
    unfold Worker.supervise.
    destruct (Fs.makedirs (disk env) _) as [fs1|e]; [|discriminate].
    destruct (popen env) as [e|]; [discriminate|].
    intros _. split; [reflexivity|]. split; [eauto|reflexivity]. }
  intros H. exists destination, steamcmd. split; [reflexivity|]. split; [reflexivity|].
  split; [exact Hdest|]. split; [exact Hcmd|].
  destruct (PyStr.isdigit (PyStr.strip workshop_id)) eqn:Hdigit; cbn [negb] in H.
  - destruct (Hcheck _ _ H) as [Hexists [Hdetails Hpopen]].
    repeat split; try assumption.
    unfold extract_workshop_id. rewrite Hdigit. discriminate.
  - destruct (extract_workshop_id (PyStr.strip workshop_id)) as [extracted|] eqn:Hex;
      [|discriminate].
    destruct (Hcheck _ _ H) as [Hexists [Hdetails Hpopen]].
    repeat split; try assumption.
    rewrite <- extract_workshop_id_strip, Hex. discriminate.
Qed.

Lemma process_needs_valid_job_witness :
  let env := Sample.env [] 0 Sample.disk0 Sample.disk_fetched in
  exists destination steamcmd : string,
    DestinationFolder env = Returns destination
    /\ SteamCMDPath env = Returns steamcmd
    /\ PyStr.is_empty (PyStr.strip destination) = false
    /\ PyStr.is_empty (PyStr.strip steamcmd) = false
    /\ Fs.exists_ (disk env) (Fs.join [] (PyStr.strip destination)) = true
    /\ extract_workshop_id "999" <> None
    /\ (exists title reported_size, details env = inr (title, reported_size))
    /\ popen env = None.
Proof.
  apply (process_needs_valid_job (Sample.env [] 0 Sample.disk0 Sample.disk_fetched)
           initial_state "999").
  vm_compute. reflexivity.
Defined.

Lemma finalize_returns (env : Env) (workshop_id : string)
      (destination_folder download_path content_path : Fs.path) (j : Job) :
  exists result : DownloadResult,
    outcome (Worker.finalize env workshop_id destination_folder download_path
                             content_path j) = Returns result.
Proof.
  unfold Worker.finalize, Worker.install, Worker.complete, Worker.handle, Worker.fail,
    Worker.reject.
  repeat match goal with
         | |- context [match ?x with _ => _ end] => destruct x
         end; simpl; eauto.
Qed.

(** A job that is shown as active stays so when its queue is replaced. *)
Lemma shown_active_queue (q : list string) (st : AppState) :
  Spec.shown_active st -> Spec.shown_active (update [Queue q] st).
Proof.
  intros H. exact H.
Qed.



(** ** The end of the queue loop *)

Lemma finish_released (j : Job) (ids : list string) :
  Spec.released (Runner.left (Runner.finish j ids))
  /\ exists earlier,
      Runner.reported (Runner.finish j ids) = earlier ++ [Runner.left (Runner.finish j ids)].
Proof.
  split; [repeat split|]. exists (reports j). reflexivity.
Qed.

(** A round that ends the thread without an exception ends it with the
    release. *)
Lemma step_released (round : Runner.Round) (j : Job) (ids : list string)
      (drain : Runner.Drain) :
  Runner.step round j ids = inl drain ->
  Runner.died drain = None ->
  Runner.out_of_fuel drain = false
  /\ Spec.released (Runner.left drain)
  /\ exists earlier, Runner.reported drain = earlier ++ [Runner.left drain].
Proof.
  unfold Runner.step.
  destruct (queue (state j)) as [|head tail].
  { intros [= <-] _. split; [reflexivity|apply finish_released]. }
  destruct (Runner.stop_requested round).
  { intros [= <-] _. split; [reflexivity|apply finish_released]. }
  destruct (queue (Runner.serve_all _ _)) as [|next_id rest].
  { intros [= <-]. discriminate. }
  destruct (Runner.run_job _ _ _ _) as [[run seen] st'].
  destruct (outcome run) as [result|e]; [|intros [= <-]; discriminate].
  cbn [state reports]. destruct (Runner.pop0 st') as [st''|e];
    [|intros [= <-]; discriminate].
  destruct (_ && _); [|discriminate].
  intros [= <-] _. split; [reflexivity|apply finish_released].
Qed.

Lemma queue_loop_released (schedule : list Runner.Round) (j : Job) (ids : list string) :
  let drain := Runner.queue_loop schedule j ids in
  Runner.died drain = None ->
  Runner.out_of_fuel drain = false ->
  Spec.released (Runner.left drain)
  /\ exists earlier, Runner.reported drain = earlier ++ [Runner.left drain].
Proof.
  revert j ids. induction schedule as [|round later IH]; intros j ids;
    cbn [Runner.queue_loop]; [discriminate|].
  destruct (Runner.step round j ids) as [drain|[j' ids']] eqn:Hstep.
  - intros Hdied _. apply (step_released round j ids drain Hstep Hdied).
  - apply IH.
Qed.

(** While no request is served every round removes an identifier, so a
    schedule with more rounds than the queue is long ends the loop; unless
    an exception killed the thread, the identifiers passed to the download
    followed by the ones left pending are the identifiers passed so far
    followed by the queue: first in, first out. *)
Lemma queue_loop_fifo (schedule : list Runner.Round) (j : Job) (ids : list string) :
  Forall Spec.undisturbed schedule ->
  (List.length (queue (state j)) < List.length schedule)%nat ->
  let drain := Runner.queue_loop schedule j ids in
  Runner.out_of_fuel drain = false
  /\ (Runner.died drain = None ->
      Runner.attempted drain ++ queue (Runner.left drain) = ids ++ queue (state j)).
Proof.
  intros Hcalm. revert j ids.
  induction Hcalm as [|round later Hround _ IH]; intros j ids Hfuel; [simpl in Hfuel; lia|].
  cbn [Runner.queue_loop].
  destruct (queue (state j)) as [|next_id rest] eqn:Hq.
  { unfold Runner.step. rewrite Hq. split; [reflexivity|]. intros _. simpl.
    rewrite Hq. reflexivity. }
  destruct (Runner.stop_requested round) eqn:Hstop.
  { unfold Runner.step. rewrite Hq, Hstop. split; [reflexivity|]. intros _. simpl.
    rewrite Hq. reflexivity. }
  rewrite (step_undisturbed round j ids next_id rest Hq Hstop Hround).
  destruct (outcome _) as [result|e]; [|split; [reflexivity|discriminate]].
  destruct (_ && _).
  - split; [reflexivity|]. intros _. simpl. rewrite <- app_assoc. reflexivity.
  - match goal with
    | |- context [Runner.queue_loop later ?j' ?ids'] =>
        pose proof (IH j' ids') as Hrec
    end.
    simpl in Hfuel. destruct Hrec as [Hfuel' Hfifo]; [simpl; lia|].
    split; [exact Hfuel'|].
    intros Hdied. etransitivity; [exact (Hfifo Hdied)|].
    simpl. rewrite <- app_assoc. reflexivity.
Qed.

(** X15: whatever requests are served meanwhile, a queue thread that ends
    its loop without an exception ends with the release of the status
    record: no download shown as running, no current identifier or title,
    a speed of zero; that release is its last report.  When no request is
    served, one round more than the queue is long ends the loop, and the
    identifiers passed to the download followed by the ones left pending are
    the queue the thread started from. *)
Theorem process_queue_releases (schedule : list Runner.Round) (st : AppState) :
  let drain := Runner._process_queue schedule st in
  (Runner.died drain = None ->
   Runner.out_of_fuel drain = false ->
   Spec.released (Runner.left drain)
   /\ exists earlier, Runner.reported drain = earlier ++ [Runner.left drain])
  /\ (Forall Spec.undisturbed schedule ->
      (List.length (queue st) < List.length schedule)%nat ->
      Runner.out_of_fuel drain = false
      /\ (Runner.died drain = None ->
          Runner.attempted drain ++ queue (Runner.left drain) = queue st)).
Proof.
  intros drain. split.
  - apply (queue_loop_released schedule (start_job st) []).
  - intros Hcalm Hfuel. apply (queue_loop_fifo schedule (start_job st) [] Hcalm Hfuel).
Qed.

Lemma queue_loop_all_succeed (schedule : list Runner.Round) (j : Job) (ids : list string) :
  Forall Spec.undisturbed schedule ->
  Forall (fun round => Runner.stop_requested round = false) schedule ->
  (List.length (queue (state j)) < List.length schedule)%nat ->
  (forall round st' id, In round schedule -> In id (queue (state j)) ->
                        exists result,
                          outcome (Worker._perform_download (Runner.world round) st' id)
                          = Returns result
                          /\ success result = true) ->
  let drain := Runner.queue_loop schedule j ids in
  Runner.attempted drain = ids ++ queue (state j)
  /\ queue (Runner.left drain) = []
  /\ Runner.died drain = None.
Proof.
  intros Hcalm. revert j ids.
  induction Hcalm as [|round later Hround _ IH]; intros j ids Hstop Hfuel Hok;
    [simpl in Hfuel; lia|].
  cbn [Runner.queue_loop]. inversion Hstop as [|? ? Hstop0 Hstop']; subst.
  destruct (queue (state j)) as [|next_id rest] eqn:Hq.
  { unfold Runner.step. rewrite Hq. simpl. rewrite Hq, app_nil_r. repeat split. }
  rewrite (step_undisturbed round j ids next_id rest Hq Hstop0 Hround).
  destruct (Hok round (state j) next_id (or_introl eq_refl) (or_introl eq_refl))
    as [result [Hrun Hsuccess]].
  rewrite Hrun, Hsuccess. cbn [negb andb].
  match goal with
  | |- context [Runner.queue_loop later ?j' ?ids'] =>
      pose proof (IH j' ids' Hstop') as Hrec
  end.
  simpl in Hfuel. destruct Hrec as [Hids [Hleft Hdied]].
  - simpl. lia.
  - intros r st' id Hin Hid. apply Hok; [right; exact Hin|right; exact Hid].
  - split; [|split; assumption].
    etransitivity; [exact Hids|]. simpl. rewrite <- app_assoc. reflexivity.
Qed.

(** X16: when no stop is requested, no request is served and every job
    succeeds, a schedule with more rounds than the queue is long runs the
    whole queue in its order and leaves it empty. *)
Theorem process_queue_drains (schedule : list Runner.Round) (st : AppState) :
  Forall Spec.undisturbed schedule ->
  Forall (fun round => Runner.stop_requested round = false) schedule ->
  (List.length (queue st) < List.length schedule)%nat ->
  (forall round st' id, In round schedule -> In id (queue st) ->
                        exists result,
                          outcome (Worker._perform_download (Runner.world round) st' id)
                          = Returns result
                          /\ success result = true) ->
  let drain := Runner._process_queue schedule st in
  Runner.attempted drain = queue st
  /\ queue (Runner.left drain) = []
  /\ Runner.died drain = None.
Proof.
  intros Hcalm Hstop Hfuel Hok.
  apply (queue_loop_all_succeed schedule (start_job st) []); assumption.
Qed.

Lemma process_queue_drains_witness :
  let round := Sample.calm (Sample.env [] 0 Sample.disk0 Sample.disk_fetched) in
  let drain := Runner._process_queue [round; round; round]
                                     (Sample.pending ["999"; "999"]) in
  Runner.attempted drain = queue (Sample.pending ["999"; "999"])
  /\ queue (Runner.left drain) = []
  /\ Runner.died drain = None.
Proof.
  intros round drain.
  apply (process_queue_drains [round; round; round] (Sample.pending ["999"; "999"])).
  - repeat constructor.
  - repeat constructor.
  - simpl. lia.
  - intros r st' id Hr Hid.
    assert (Hround : r = round) by (destruct Hr as [<-|[<-|[<-|[]]]]; reflexivity).
    assert (His : id = "999") by (destruct Hid as [<-|[<-|[]]]; reflexivity).
    subst r id. exists {| success := true; message := "Download completed" |}.
    split; vm_compute; reflexivity.
Defined.

(** ** Requests served while the queue thread runs *)

Lemma serve_all_app (first second : list request) (st : AppState) :
  Runner.serve_all (first ++ second) st
  = Runner.serve_all second (Runner.serve_all first st).
Proof.
  unfold Runner.serve_all. apply fold_left_app.
Qed.

(** When the job is over, every request of its batches has been served. *)
Lemma observe_live (batches : list (list request)) (live : AppState)
      (job_reports : list AppState) :
  snd (Runner.observe batches live job_reports)
  = Runner.serve_all (List.concat batches) live.
Proof.
  revert batches live. induction job_reports as [|report rest IH]; intros batches live;
    [reflexivity|].
  cbn [Runner.observe].
  destruct (Runner.observe (tl batches) (Runner.serve_all (hd [] batches) live) rest)
    as [seen live'] eqn:Hrest.
  cbn [snd]. pose proof (IH (tl batches) (Runner.serve_all (hd [] batches) live)) as H.
  rewrite Hrest in H. cbn [snd] in H. rewrite H.
  destruct batches as [|batch more]; [reflexivity|].
  cbn [hd tl List.concat]. rewrite serve_all_app. reflexivity.
Qed.

(** X23: a [clear_queue] that is the last request served while a job of the
    queue thread runs kills the thread: whatever the job returns, [pop(0)]
    finds the queue empty and raises [IndexError], which nothing catches;
    the thread ends without its release, with the identifier of the job
    still shown as the current download. *)
Theorem cleared_queue_kills_thread (round : Runner.Round) (j : Job) (ids : list string)
        (next_id : string) (rest : list string) (earlier : list request)
        (result : DownloadResult) :
  queue (state j) = next_id :: rest ->
  Runner.stop_requested round = false ->
  Runner.before_read round = [] ->
  List.concat (Runner.during round) = earlier ++ [ClearQueue] ->
  outcome (Worker._perform_download (Runner.world round) (state j) next_id)
  = Returns result ->
  exists drain : Runner.Drain,
    Runner.step round j ids = inl drain
    /\ Runner.died drain = Some IndexError
    /\ Runner.attempted drain = ids ++ [next_id]
    /\ queue (Runner.left drain) = []
    /\ current_download (Runner.left drain)
       = current_download
           (state (job (Worker._perform_download (Runner.world round) (state j) next_id))).
Proof.
  intros Hq Hstop Hbefore Hduring Hresult.
  unfold Runner.step. rewrite Hq, Hstop, Hbefore.
  cbn [Runner.serve_all fold_left]. rewrite Hq. unfold Runner.run_job.
  set (run := Worker._perform_download (Runner.world round) (state j) next_id) in *.
  pose proof (observe_live (Runner.during round) (state j) (reports (job run))) as Hlive.
  destruct (Runner.observe (Runner.during round) (state j) (reports (job run)))
    as [seen live].
  cbn [snd] in Hlive. rewrite Hduring, serve_all_app in Hlive.
  assert (Hempty : queue live = []) by (rewrite Hlive; reflexivity).
  rewrite Hresult. cbn [state reports]. unfold Runner.pop0. rewrite Hempty.
  eexists. split; [reflexivity|]. repeat split.
Qed.

Lemma cleared_queue_kills_thread_witness :
  let round := {| Runner.stop_requested := false; Runner.before_read := [];
                  Runner.world := Sample.env_unset;
                  Runner.during := [[]; [AddToQueue ["7"]; ClearQueue]];
                  Runner.mode_read := Some QueueMode; Runner.after_pop := [] |} in
  let j := start_job (Sample.pending ["1"; "2"]) in
  exists drain : Runner.Drain,
    Runner.step round j [] = inl drain
    /\ Runner.died drain = Some IndexError
    /\ Runner.attempted drain = [] ++ ["1"]
    /\ queue (Runner.left drain) = []
    /\ current_download (Runner.left drain)
       = current_download
           (state (job (Worker._perform_download (Runner.world round) (state j) "1"))).
Proof.
  apply (cleared_queue_kills_thread _ (start_job (Sample.pending ["1"; "2"])) []
           "1" ["2"] [AddToQueue ["7"]]
           {| success := false; message := "Destination folder is not set" |});
    reflexivity.
Defined.

(** ** The file system operations *)

Lemma path_eqb_eq (p q : Fs.path) : Fs.path_eqb p q = true <-> p = q.
Proof.
  unfold Fs.path_eqb. destruct (list_eq_dec string_dec p q); split; congruence.
Qed.

Lemma path_eqb_refl (p : Fs.path) : Fs.path_eqb p p = true.
Proof.
  apply path_eqb_eq. reflexivity.
Qed.

Lemma path_eqb_neq (p q : Fs.path) : p <> q -> Fs.path_eqb p q = false.
Proof.
  intros H. destruct (Fs.path_eqb p q) eqn:E; [|reflexivity].
  apply path_eqb_eq in E. contradiction.
Qed.

(** A filter on the paths keeps the entry found at a path it lets through
    and leaves nothing at a path it rejects. *)
Lemma lookup_filter (keep : Fs.path -> bool) (fs : Fs.t) (q : Fs.path) :
  Fs.lookup (filter (fun e => keep (fst e)) fs) q
  = if keep q then Fs.lookup fs q else None.
Proof.
  induction fs as [|[r n] fs IH]; simpl; [destruct (keep q); reflexivity|].
  destruct (Fs.path_eqb r q) eqn:Hrq.
  - apply path_eqb_eq in Hrq. subst r. destruct (keep q) eqn:Hk; simpl.
    + rewrite path_eqb_refl. reflexivity.
    + exact IH.
  - destruct (keep r); simpl; [rewrite Hrq|]; exact IH.
Qed.

Lemma lookup_write_same (fs : Fs.t) (p : Fs.path) (n : Fs.node) :
  Fs.lookup (Fs.write fs p n) p = Some n.
Proof.
  unfold Fs.write. simpl. rewrite path_eqb_refl. reflexivity.
Qed.

Lemma lookup_write_other (fs : Fs.t) (p q : Fs.path) (n : Fs.node) :
  p <> q -> Fs.lookup (Fs.write fs p n) q = Fs.lookup fs q.
Proof.
  intros Hne. unfold Fs.write. simpl. rewrite (path_eqb_neq p q Hne).
  rewrite (lookup_filter (fun r => negb (Fs.path_eqb r p))).
  rewrite (path_eqb_neq q p); [reflexivity|congruence].
Qed.

Lemma grows_refl (fs : Fs.t) : Spec.grows_by_dirs fs fs.
Proof.
  split; auto.
Qed.

Lemma grows_trans (fs1 fs2 fs3 : Fs.t) :
  Spec.grows_by_dirs fs1 fs2 -> Spec.grows_by_dirs fs2 fs3 -> Spec.grows_by_dirs fs1 fs3.
Proof.
  intros [Hk1 Hn1] [Hk2 Hn2]. split.
  - intros q n Hq. apply Hk2, Hk1, Hq.
  - intros q Hq. destruct (Hn1 q Hq) as [H|H]; [apply Hn2, H|].
    right. apply Hk2, H.
Qed.

Lemma mkdir_grows (fs fs' : Fs.t) (q : Fs.path) :
  Fs.mkdir fs q = Returns fs' ->
  Spec.grows_by_dirs fs fs' /\ Fs.lookup fs' q = Some Fs.Dir.
Proof.
  unfold Fs.mkdir. destruct (Fs.lookup fs q) as [[|content]|] eqn:Hq; try discriminate.
  - intros [= <-]. split; [apply grows_refl|exact Hq].
  - intros [= <-]. split; [|apply lookup_write_same]. split.
    + intros r n Hr. rewrite lookup_write_other; [exact Hr|]. congruence.
    + intros r Hr. destruct (list_eq_dec string_dec q r) as [<-|Hne].
      * right. apply lookup_write_same.
      * left. rewrite lookup_write_other; assumption.
Qed.

Lemma makedirs_step_raises (l : list Fs.path) (e : exn) :
  fold_left (fun acc q => fs' <- acc ;; Fs.mkdir fs' q) l (Raises e) = Raises e.
Proof.
  induction l as [|q l IH]; simpl; [reflexivity|exact IH].
Qed.

Lemma makedirs_fold_returns (l : list Fs.path) (fs fs' : Fs.t) :
  fold_left (fun acc q => fs' <- acc ;; Fs.mkdir fs' q) l (Returns fs) = Returns fs' ->
  Spec.grows_by_dirs fs fs' /\ forall q, In q l -> Fs.lookup fs' q = Some Fs.Dir.
Proof.
  revert fs. induction l as [|q l IH]; intros fs; simpl.
  - intros [= <-]. split; [apply grows_refl|intros q []].
  - destruct (Fs.mkdir fs q) as [fs1|e] eqn:Hmk;
      [|rewrite makedirs_step_raises; discriminate].
    intros Hfold. destruct (IH fs1 Hfold) as [Hgrow Hdirs].
    destruct (mkdir_grows fs fs1 q Hmk) as [Hgrow1 Hq].
    split; [eapply grows_trans; eassumption|].
    intros r [<-|Hr]; [apply Hgrow, Hq|apply Hdirs, Hr].
Qed.

Lemma makedirs_fold_idle (l : list Fs.path) (fs : Fs.t) :
  (forall q, In q l -> Fs.lookup fs q = Some Fs.Dir) ->
  fold_left (fun acc q => fs' <- acc ;; Fs.mkdir fs' q) l (Returns fs) = Returns fs.
Proof.
  induction l as [|q l IH]; intros Hdirs; simpl; [reflexivity|].
  unfold Fs.mkdir at 2. rewrite (Hdirs q (or_introl eq_refl)).
  apply IH. intros r Hr. apply Hdirs. right. exact Hr.
Qed.

Lemma makedirs_fold_raises (l : list Fs.path) (fs0 fs : Fs.t) :
  Spec.grows_by_dirs fs0 fs ->
  (exists e, fold_left (fun acc q => fs' <- acc ;; Fs.mkdir fs' q) l (Returns fs) = Raises e)
  <-> exists q content, In q l /\ Fs.lookup fs0 q = Some (Fs.File content).
Proof.
  revert fs. induction l as [|q l IH]; intros fs Hgrow; simpl.
  - split; [intros [e H]; discriminate|intros [q [c [[] _]]]].
  - destruct (Fs.mkdir fs q) as [fs1|e] eqn:Hmk.
    + destruct (mkdir_grows fs fs1 q Hmk) as [Hgrow1 Hq].
      rewrite (IH fs1 (grows_trans _ _ _ Hgrow Hgrow1)). split.
      * intros [r [c [Hr Hfile]]]. exists r, c. auto.
      * intros [r [c [[<-|Hr] Hfile]]]; [|exists r, c; auto].
        destruct Hgrow as [Hkeep _]. apply Hkeep in Hfile.
        destruct Hgrow1 as [Hkeep1 _]. apply Hkeep1 in Hfile. congruence.
    + rewrite makedirs_step_raises. split; [|intros _; eauto].
      intros _. unfold Fs.mkdir in Hmk.
      destruct (Fs.lookup fs q) as [[|content]|] eqn:Hq; try discriminate.
      destruct Hgrow as [Hkeep Hnew].
      destruct (Fs.lookup fs0 q) as [n|] eqn:H0.
      * pose proof (Hkeep _ _ H0) as H1. exists q, content.
        split; [left; reflexivity|congruence].
      * destruct (Hnew q H0); congruence.
Qed.

(** X17: [ensure_directory] either fails, exactly when a file stands at the
    path or at one of its parents, or returns a file system in which the
    path and all its parents are directories, every entry there was is
    unchanged and nothing but directories was added; done again it
    changes nothing. *)
Theorem ensure_directory_spec (fs : Fs.t) (p : Fs.path) :
  (forall fs', Fs.makedirs fs p = Returns fs' ->
               Spec.grows_by_dirs fs fs'
               /\ (forall q, In q (Fs.prefixes p) -> Fs.lookup fs' q = Some Fs.Dir)
               /\ Fs.makedirs fs' p = Returns fs')
  /\ ((exists e, Fs.makedirs fs p = Raises e)
      <-> exists q content, In q (Fs.prefixes p) /\ Fs.lookup fs q = Some (Fs.File content)).
Proof.
  unfold Fs.makedirs. split.
  - intros fs' Hmk. destruct (makedirs_fold_returns _ _ _ Hmk) as [Hgrow Hdirs].
    split; [exact Hgrow|]. split; [exact Hdirs|]. apply makedirs_fold_idle, Hdirs.
  - apply makedirs_fold_raises, grows_refl.
Qed.

Lemma under_self_prefix (p q : Fs.path) :
  Fs.under p q = true <-> exists rel, q = p ++ rel.
Proof.
  unfold Fs.under. revert q. induction p as [|b p IH]; intros q; simpl.
  - split; [intros _; exists q; reflexivity|reflexivity].
  - destruct q as [|c q]; [split; [discriminate|intros [rel H]; discriminate]|].
    destruct (String.eqb_spec b c) as [->|Hne].
    + rewrite IH. split; intros [rel H]; exists rel; [f_equal; exact H|].
      injection H as H. exact H.
    + split; [discriminate|]. intros [rel H]. injection H as H _. congruence.
Qed.

Lemma get_folder_size_nonneg (fs : Fs.t) (p : Fs.path) : 0 <= Worker.get_folder_size fs p.
Proof.
  unfold Worker.get_folder_size. destruct (Fs.lookup fs p) as [[|content]|]; try lia.
  induction fs as [|[q n] fs IH]; simpl; [lia|].
  destruct n as [|content]; [exact IH|]. destruct (Fs.under p q); lia.
Qed.

(** X18: [remove_tree] removes a directory with all that is below it and
    leaves every other entry as it was; a path that is missing or is a file
    is left as it is.  A folder size is never negative, it is 0 for a path
    that is missing or is a file, and it is 0 for the path that
    [remove_tree] was called on. *)
Theorem remove_tree_spec (fs : Fs.t) (p : Fs.path) :
  (Fs.lookup fs p = Some Fs.Dir ->
   (forall rel, Fs.lookup (Fs.remove_tree fs p) (p ++ rel) = None)
   /\ (forall q, Fs.under p q = false ->
                 Fs.lookup (Fs.remove_tree fs p) q = Fs.lookup fs q))
  /\ (Fs.lookup fs p <> Some Fs.Dir ->
      Fs.remove_tree fs p = fs /\ Worker.get_folder_size fs p = 0)
  /\ Worker.get_folder_size (Fs.remove_tree fs p) p = 0
  /\ 0 <= Worker.get_folder_size fs p.
Proof.
  assert (Hlookup : Fs.lookup fs p = Some Fs.Dir ->
                    forall q, Fs.lookup (Fs.remove_tree fs p) q
                              = if negb (Fs.under p q) then Fs.lookup fs q else None).
  { intros Hdir q. unfold Fs.remove_tree. rewrite Hdir.
    apply (lookup_filter (fun r => negb (Fs.under p r))). }
  assert (Hself : forall rel, Fs.under p (p ++ rel) = true)
    by (intros rel; apply under_self_prefix; eauto).
  assert (Hkept : Fs.lookup fs p <> Some Fs.Dir ->
                  Fs.remove_tree fs p = fs /\ Worker.get_folder_size fs p = 0).
  { intros Hnot. unfold Fs.remove_tree, Worker.get_folder_size.
    destruct (Fs.lookup fs p) as [[|content]|]; [contradiction|split; reflexivity..]. }
  split; [|split; [exact Hkept|split; [|apply get_folder_size_nonneg]]].
  - intros Hdir. split.
    + intros rel. rewrite (Hlookup Hdir), Hself. reflexivity.
    + intros q Hq. rewrite (Hlookup Hdir), Hq. reflexivity.
  - destruct (Fs.lookup fs p) as [[|content]|] eqn:Hp.
    + unfold Worker.get_folder_size. rewrite (Hlookup eq_refl).
      rewrite <- (app_nil_r p) at 2. rewrite Hself. reflexivity.
    + destruct Hkept as [-> Hsize]; [discriminate|exact Hsize].
    + destruct Hkept as [-> Hsize]; [discriminate|exact Hsize].
Qed.

Lemma relative_to_app (src p rel : Fs.path) :
  Fs.relative_to src p = Some rel -> p = src ++ rel.
Proof.
  revert p. induction src as [|b src IH]; intros p; simpl.
  - intros [= ->]. reflexivity.
  - destruct p as [|c p]; [discriminate|].
    destruct (String.eqb_spec b c) as [->|_]; [|discriminate].
    intros H. f_equal. apply IH, H.
Qed.

Lemma makedirs_grows (fs fs' : Fs.t) (p : Fs.path) :
  Fs.makedirs fs p = Returns fs' -> Spec.grows_by_dirs fs fs'.
Proof.
  unfold Fs.makedirs. intros H. apply (makedirs_fold_returns _ _ _ H).
Qed.

(** A prefix of a path is the path cut short. *)
Lemma prefixes_cut (p t : Fs.path) :
  In t (Fs.prefixes p) -> exists rest, p = t ++ rest.
Proof.
  revert t. induction p as [|c r IH]; intros t; simpl; [intros []|].
  intros [<-|Hin]; [exists r; reflexivity|].
  apply in_map_iff in Hin as [t' [<- Hin]].
  destruct (IH t' Hin) as [rest ->]. exists rest. reflexivity.
Qed.

(** The directories [makedirs] leaves are those that were there and the
    path with its parents. *)
Lemma makedirs_dirs (fs fs' : Fs.t) (p t : Fs.path) :
  Fs.makedirs fs p = Returns fs' ->
  Fs.lookup fs' t = Some Fs.Dir ->
  Fs.lookup fs t = Some Fs.Dir \/ In t (Fs.prefixes p).
Proof.
  unfold Fs.makedirs. generalize (Fs.prefixes p). intros l. revert fs.
  induction l as [|q l IH]; intros fs; simpl.
  - intros [= <-] H. left. exact H.
  - destruct (Fs.mkdir fs q) as [fs1|e] eqn:Hmk;
      [|rewrite makedirs_step_raises; discriminate].
    intros Hfold Ht. destruct (IH fs1 Hfold Ht) as [H1|Hin]; [|right; right; exact Hin].
    unfold Fs.mkdir in Hmk. destruct (Fs.lookup fs q) as [[|content]|] eqn:Hq;
      try discriminate; injection Hmk as <-; [left; exact H1|].
    destruct (list_eq_dec string_dec q t) as [<-|Hne]; [right; left; reflexivity|].
    left. rewrite lookup_write_other in H1; assumption.
Qed.

Lemma copy_entry_raises (src dst : Fs.path) (l : Fs.t) (e : exn) :
  fold_left (Fs.copy_entry src dst) l (Raises e) = Raises e.
Proof.
  induction l as [|x l IH]; simpl; [reflexivity|exact IH].
Qed.

Section Copy.

Variables (fs0 : Fs.t) (src dst : Fs.path).

Hypothesis one_entry_per_path : NoDup (map fst fs0).
Hypothesis files_are_leaves : Spec.tree_like fs0.

Let clear := Spec.unobstructed fs0 src dst.

Lemma same_entry (p : Fs.path) (n m : Fs.node) :
  In (p, n) fs0 -> In (p, m) fs0 -> n = m.
Proof.
  revert one_entry_per_path. generalize fs0.
  intros fs1. induction fs1 as [|[q k] l IH]; simpl; [intros _ []|].
  intros Hnd. inversion Hnd as [|? ? Hnot Hnd']; subst.
  intros [H1|H1] [H2|H2].
  - congruence.
  - injection H1 as -> ->. elim Hnot. apply (in_map fst _ _ H2).
  - injection H2 as -> ->. elim Hnot. apply (in_map fst _ _ H1).
  - apply IH; assumption.
Qed.

(** Making the directories of an entry of the source puts none at the
    place of a file of the source. *)
Lemma makedirs_clear (fs fs' : Fs.t) (q : Fs.path) (n : Fs.node) (rel below : Fs.path) :
  In (q, n) fs0 -> Fs.relative_to src q = Some rel ->
  (below = rel /\ n = Fs.Dir \/ below = removelast rel /\ rel <> []) ->
  Fs.makedirs fs (dst ++ below) = Returns fs' ->
  clear fs -> clear fs'.
Proof.
  intros Hq Hrel Hbelow Hmk Hclear p content rel' Hp Hrel' Hne Hdir.
  destruct (makedirs_dirs _ _ _ _ Hmk Hdir) as [Hold|Hnew];
    [exact (Hclear p content rel' Hp Hrel' Hne Hold)|].
  apply prefixes_cut in Hnew as [rest Hrest].
  rewrite <- app_assoc in Hrest. apply app_inv_head in Hrest.
  apply relative_to_app in Hrel. apply relative_to_app in Hrel'.
  assert (Hunder : exists more, q = p ++ more).
  { destruct Hbelow as [[-> _]|[-> Hne']].
    - exists rest. rewrite Hrel, Hrel', Hrest, <- app_assoc. reflexivity.
    - exists (rest ++ [last rel ""]). rewrite Hrel, Hrel'.
      rewrite (app_removelast_last "" Hne') at 1. rewrite Hrest, <- !app_assoc.
      reflexivity. }
  assert (Hsame : q = p).
  { apply (files_are_leaves p content q n Hp Hq). apply under_self_prefix, Hunder. }
  rewrite Hsame in Hrel, Hq. assert (Hrels : rel = rel').
  { rewrite Hrel in Hrel'. apply app_inv_head in Hrel'. exact Hrel'. }
  destruct Hbelow as [[Hb Hn]|[Hb Hne']].
  - rewrite Hn in Hq. pose proof (same_entry _ _ _ Hp Hq). discriminate.
  - rewrite Hb, <- Hrels in Hrest.
    apply (f_equal (@List.length string)) in Hrest. rewrite length_app in Hrest.
    rewrite (app_removelast_last "" Hne') in Hrest at 2.
    rewrite length_app in Hrest. simpl in Hrest. lia.
Qed.

(** Under that condition the copy of a file writes it at its own place. *)
Lemma copy_entry_file (fs fs' : Fs.t) (p rel : Fs.path) (content : string) :
  clear fs ->
  In (p, Fs.File content) fs0 -> Fs.relative_to src p = Some rel -> rel <> [] ->
  Fs.copy_entry src dst (Returns fs) (p, Fs.File content) = Returns fs' ->
  exists fs1,
    Fs.makedirs fs (dst ++ removelast rel) = Returns fs1
    /\ clear fs1
    /\ fs' = Fs.write fs1 (dst ++ rel) (Fs.File content).
Proof.
  intros Hclear Hp Hrel Hne. unfold Fs.copy_entry. cbn [bind fst snd]. rewrite Hrel.
  destruct rel as [|c rel]; [contradiction|].
  destruct (Fs.makedirs fs (dst ++ removelast (c :: rel))) as [fs1|e] eqn:Hmk;
    [|discriminate]. cbn [bind].
  assert (Hclear1 : clear fs1).
  { apply (makedirs_clear fs fs1 p (Fs.File content) (c :: rel) (removelast (c :: rel))
             Hp Hrel); [right; split; [reflexivity|discriminate]|exact Hmk|exact Hclear]. }
  pose proof (Hclear1 p content (c :: rel) Hp Hrel Hne) as Hfree.
  destruct (Fs.lookup fs1 (dst ++ c :: rel)) as [[|old]|] eqn:Hat;
    [contradiction| |]; rewrite Hat; intros [= <-]; exists fs1; repeat split; assumption.
Qed.

Lemma write_file_clear (fs : Fs.t) (t : Fs.path) (content : string) :
  clear fs -> clear (Fs.write fs t (Fs.File content)).
Proof.
  intros Hclear p c rel Hp Hrel Hne Hdir.
  destruct (list_eq_dec string_dec t (dst ++ rel)) as [->|Hother].
  - rewrite lookup_write_same in Hdir. discriminate.
  - rewrite lookup_write_other in Hdir by exact Hother.
    exact (Hclear p c rel Hp Hrel Hne Hdir).
Qed.

(** One step of the copy keeps the condition, and leaves a file alone
    unless the step writes to its path. *)
Lemma copy_entry_step (fs fs' : Fs.t) (x : Fs.path * Fs.node) :
  clear fs -> In x fs0 ->
  Fs.copy_entry src dst (Returns fs) x = Returns fs' ->
  clear fs'
  /\ forall t content,
      Fs.lookup fs t = Some (Fs.File content) ->
      (forall rel, Fs.relative_to src (fst x) = Some rel -> t <> dst ++ rel) ->
      Fs.lookup fs' t = Some (Fs.File content).
Proof.
  intros Hclear Hx Hstep. destruct x as [q n].
  destruct (Fs.relative_to src q) as [[|c rel]|] eqn:Hrel.
  - unfold Fs.copy_entry in Hstep. cbn [bind fst snd] in Hstep. rewrite Hrel in Hstep.
    injection Hstep as <-. split; [exact Hclear|auto].
  - destruct n as [|content].
    + unfold Fs.copy_entry in Hstep. cbn [bind fst snd] in Hstep. rewrite Hrel in Hstep.
      split.
      * apply (makedirs_clear fs fs' q Fs.Dir (c :: rel) (c :: rel) Hx Hrel);
          [left; split; reflexivity|exact Hstep|exact Hclear].
      * intros t content Ht _. apply makedirs_grows in Hstep. apply Hstep, Ht.
    + destruct (copy_entry_file fs fs' q (c :: rel) content Hclear Hx Hrel
                  ltac:(discriminate) Hstep) as [fs1 [Hmk [Hclear1 ->]]].
      split; [apply write_file_clear, Hclear1|].
      intros t old Ht Hfree. cbn [fst] in Hfree.
      rewrite lookup_write_other; [apply (makedirs_grows _ _ _ Hmk), Ht|].
      intros Heq. apply (Hfree (c :: rel) Hrel). symmetry. exact Heq.
  - unfold Fs.copy_entry in Hstep. cbn [bind fst snd] in Hstep. rewrite Hrel in Hstep.
    injection Hstep as <-. split; [exact Hclear|auto].
Qed.

Lemma copy_fold_keeps (l : Fs.t) (fs fs' : Fs.t) (t : Fs.path) (content : string) :
  (forall x, In x l -> In x fs0) -> clear fs ->
  fold_left (Fs.copy_entry src dst) l (Returns fs) = Returns fs' ->
  Fs.lookup fs t = Some (Fs.File content) ->
  (forall x rel, In x l -> Fs.relative_to src (fst x) = Some rel -> t <> dst ++ rel) ->
  Fs.lookup fs' t = Some (Fs.File content).
Proof.
  revert fs. induction l as [|x l IH]; intros fs Hsub Hclear; cbn [fold_left].
  - intros [= <-] Ht _. exact Ht.
  - destruct (Fs.copy_entry src dst (Returns fs) x) as [fs1|e] eqn:Hstep;
      [|rewrite copy_entry_raises; discriminate].
    destruct (copy_entry_step fs fs1 x Hclear (Hsub x (or_introl eq_refl)) Hstep)
      as [Hclear1 Hkeep].
    intros Hfold Ht Hfree. apply (IH fs1); try assumption.
    + intros y Hy. apply Hsub. right. exact Hy.
    + apply Hkeep; [exact Ht|]. intros rel. apply Hfree. left. reflexivity.
    + intros y rel Hy. apply Hfree. right. exact Hy.
Qed.

Lemma copy_fold_puts (l : Fs.t) (fs fs' : Fs.t) (p rel : Fs.path) (content : string) :
  (forall x, In x l -> In x fs0) -> NoDup (map fst l) -> clear fs ->
  fold_left (Fs.copy_entry src dst) l (Returns fs) = Returns fs' ->
  In (p, Fs.File content) l ->
  Fs.relative_to src p = Some rel -> rel <> [] ->
  Fs.lookup fs' (dst ++ rel) = Some (Fs.File content).
Proof.
  revert fs. induction l as [|x l IH]; intros fs Hsub Hnd Hclear; cbn [fold_left];
    [intros _ []|].
  destruct (Fs.copy_entry src dst (Returns fs) x) as [fs1|e] eqn:Hstep;
    [|rewrite copy_entry_raises; discriminate].
  destruct (copy_entry_step fs fs1 x Hclear (Hsub x (or_introl eq_refl)) Hstep)
    as [Hclear1 _].
  assert (Hsub' : forall y, In y l -> In y fs0) by (intros y Hy; apply Hsub; right; exact Hy).
  inversion Hnd as [|? ? Hnot Hnd']; subst.
  intros Hfold [->|Hin] Hrel Hne.
  - destruct (copy_entry_file fs fs1 p rel content Hclear (Hsub _ (or_introl eq_refl))
                Hrel Hne Hstep) as [fs2 [_ [_ ->]]].
    apply (copy_fold_keeps l _ fs' (dst ++ rel) content Hsub' Hclear1 Hfold).
    + apply lookup_write_same.
    + intros y rel' Hy Hrel' Heq. apply app_inv_head in Heq. subst rel'.
      apply relative_to_app in Hrel. apply relative_to_app in Hrel'.
      apply Hnot. cbn [fst]. rewrite Hrel, <- Hrel'. apply in_map, Hy.
  - eapply IH; eassumption.
Qed.

End Copy.



(** ** The folder an item is installed into *)

Lemma split_slash_plain (s : string) :
  PyStr.all_chars (fun c => negb (Ascii.eqb c "/")) s = true -> Fs.split_slash s = [s].
Proof.
  induction s as [|c r IH]; simpl; [reflexivity|]. intros H.
  apply andb_true_iff in H as [Hc Hr]. apply negb_true_iff in Hc.
  rewrite Hc, (IH Hr). reflexivity.
Qed.

Lemma join_plain (base : Fs.path) (s : string) :
  Spec.plain_name s = true -> Fs.join base s = base ++ [s].
Proof.
  unfold Spec.plain_name. intros H.
  apply andb_true_iff in H as [H Hall]. apply andb_true_iff in H as [Hne Hdot].
  unfold Fs.join, Fs.components. rewrite (split_slash_plain s Hall).
  cbn [filter]. rewrite Hne, Hdot. cbn [andb].
  assert (Hstart : PyStr.startswith "/" s = false).
  { destruct s as [|c r]; [reflexivity|]. cbn [PyStr.all_chars] in Hall.
    apply andb_true_iff in Hall as [Hc _]. apply negb_true_iff in Hc.
    cbn [PyStr.startswith]. rewrite Ascii.eqb_sym, Hc. reflexivity. }
  rewrite Hstart. reflexivity.
Qed.

(** X20: the declared folder name wins: when the manifest declares a plain
    folder name, the item is installed into the folder of that name below
    the destination, whatever the file system holds, also when that folder
    exists already. *)
Theorem declared_name_wins (fs : Fs.t) (destination_base : Fs.path)
        (manifest : Manifest) (workshop_id folder : string) :
  FolderName manifest = JStr folder ->
  Spec.plain_name folder = true ->
  Install.final_folder_of fs destination_base
                          (Install.folder_name_of manifest workshop_id) workshop_id
  = destination_base ++ [folder].
Proof.
  intros Hdecl Hplain.
  assert (Hname : Install.folder_name_of manifest workshop_id = JStr folder).
  { unfold Install.folder_name_of, Install.or_. rewrite Hdecl. simpl.
    unfold Spec.plain_name in Hplain.
    apply andb_true_iff in Hplain as [H _]. apply andb_true_iff in H as [-> _].
    reflexivity. }
  rewrite Hname, <- (join_plain destination_base folder Hplain).
  apply final_folder_declared_name.
  rewrite (join_plain destination_base folder Hplain).
  unfold Fs.name. apply last_last.
Qed.

Lemma declared_name_wins_witness :
  Install.final_folder_of (Sample.disk0 ++ Sample.other_item) ["games"; "bo3"; "usermaps"]
                          (Install.folder_name_of Sample.cool_map "999") "999"
  = ["games"; "bo3"; "usermaps"] ++ ["cool_map"].
Proof.
  apply (declared_name_wins (Sample.disk0 ++ Sample.other_item)
           ["games"; "bo3"; "usermaps"] Sample.cool_map "999" "cool_map");
    reflexivity.
Defined.

Lemma resolve_candidates (fs : Fs.t) (destination_base : Fs.path) (folder_name : jvalue)
      (workshop_id : string) (rounds : nat) (attempts : Z) :
  0 <= attempts -> Z.of_nat rounds = 10 - attempts ->
  exists k : Z,
    attempts <= k <= 10
    /\ Install.resolve rounds fs destination_base folder_name workshop_id attempts
                       (Spec.candidate destination_base folder_name workshop_id attempts)
       = Spec.candidate destination_base folder_name workshop_id k
    /\ (forall i, attempts <= i < k ->
          Fs.exists_ fs (Spec.candidate destination_base folder_name workshop_id i) = true
          /\ Install.name_differs
               (Spec.candidate destination_base folder_name workshop_id i) folder_name = true)
    /\ (k < 10 ->
        Fs.exists_ fs (Spec.candidate destination_base folder_name workshop_id k)
        && Install.name_differs
             (Spec.candidate destination_base folder_name workshop_id k) folder_name = false).
Proof.
  revert attempts. induction rounds as [|rounds IH]; intros attempts Hpos Hleft.
  - exists attempts. simpl. repeat split; lia.
  - cbn [Install.resolve].
    set (here := Spec.candidate destination_base folder_name workshop_id attempts).
    assert (Hlt : (attempts <? 10) = true) by (apply Z.ltb_lt; lia). rewrite Hlt.
    rewrite andb_true_r.
    destruct (Fs.exists_ fs here && Install.name_differs here folder_name) eqn:Htaken.
    + assert (Hnext : Fs.join destination_base
                        (Install.suffixed folder_name workshop_id (attempts + 1))
                      = Spec.candidate destination_base folder_name workshop_id
                                       (attempts + 1)).
      { unfold Spec.candidate. destruct (Z.eqb_spec (attempts + 1) 0); [lia|reflexivity]. }
      rewrite Hnext.
      destruct (IH (attempts + 1) ltac:(lia) ltac:(lia)) as [k [Hk [Hres [Hbefore Hstop]]]].
      exists k. split; [lia|]. split; [exact Hres|]. split; [|exact Hstop].
      intros i Hi. destruct (Z.eq_dec i attempts) as [->|Hne].
      * apply andb_true_iff in Htaken. exact Htaken.
      * apply Hbefore. lia.
    + exists attempts. split; [lia|]. split; [reflexivity|]. split.
      * intros i Hi. lia.
      * intros _. exact Htaken.
Qed.

(** X21: the install step settles on the first folder, among the declared
    name and the names with the suffixes 1 to 10, that does not exist or
    bears the declared name; when all of them are taken it settles on the
    tenth suffix, which exists: the loop gives up without an error. *)
Theorem final_folder_first_free (fs : Fs.t) (destination_base : Fs.path)
        (folder_name : jvalue) (workshop_id : string) :
  exists k : Z,
    0 <= k <= 10
    /\ Install.final_folder_of fs destination_base folder_name workshop_id
       = Spec.candidate destination_base folder_name workshop_id k
    /\ (forall i, 0 <= i < k ->
          Fs.exists_ fs (Spec.candidate destination_base folder_name workshop_id i) = true
          /\ Install.name_differs
               (Spec.candidate destination_base folder_name workshop_id i) folder_name = true)
    /\ (k < 10 ->
        Fs.exists_ fs (Spec.candidate destination_base folder_name workshop_id k)
        && Install.name_differs
             (Spec.candidate destination_base folder_name workshop_id k) folder_name = false).
Proof.
  unfold Install.final_folder_of.
  apply (resolve_candidates fs destination_base folder_name workshop_id 10 0); lia.
Qed.

(** ** The repair of folder names finds a free name *)

Lemma string_of_uint_plain (d : Decimal.uint) :
  PyStr.all_chars (fun c => negb (Ascii.eqb c "/")) (NilEmpty.string_of_uint d) = true.
Proof.
  induction d; simpl; auto.
Qed.

Lemma str_of_Z_plain (z : Z) :
  PyStr.all_chars (fun c => negb (Ascii.eqb c "/")) (Install.str_of_Z z) = true.
Proof.
  unfold Install.str_of_Z, NilZero.string_of_int, NilZero.string_of_uint.
  destruct (Z.to_int z) as [d|d]; destruct d; simpl; auto using string_of_uint_plain.
Qed.

Lemma to_int_not_nil (z : Z) :
  Z.to_int z <> Decimal.Pos Decimal.Nil /\ Z.to_int z <> Decimal.Neg Decimal.Nil.
Proof.
  split; intros H; pose proof (f_equal Z.of_int H) as H0;
    rewrite DecimalZ.of_to in H0; subst z; discriminate H.
Qed.

Lemma str_of_Z_inj (a b : Z) : Install.str_of_Z a = Install.str_of_Z b -> a = b.
Proof.
  unfold Install.str_of_Z. intros H.
  apply (f_equal NilZero.int_of_string) in H.
  destruct (to_int_not_nil a) as [Ha1 Ha2]. destruct (to_int_not_nil b) as [Hb1 Hb2].
  rewrite !NilZero.isi in H by assumption.
  injection H as H. apply DecimalZ.to_int_inj, H.
Qed.

Lemma string_app_inv_head (s a b : string) : (s ++ a)%string = (s ++ b)%string -> a = b.
Proof.
  induction s as [|c s IH]; simpl; [auto|]. intros [= H]. apply IH, H.
Qed.

Lemma string_app_not_self (s t : string) : t <> EmptyString -> s <> (s ++ t)%string.
Proof.
  intros Ht. induction s as [|c s IH]; simpl.
  - intros H. apply Ht. symmetry. exact H.
  - intros [= H]. apply IH, H.
Qed.

(** The segments of a path string end with a last one, to which a text
    without separator is appended when it is appended to the string. *)
Lemma split_slash_last (x : string) :
  exists (front : list string) (lastseg : string),
    Fs.split_slash x = front ++ [lastseg]
    /\ forall y, PyStr.all_chars (fun c => negb (Ascii.eqb c "/")) y = true ->
                 Fs.split_slash (x ++ y) = front ++ [(lastseg ++ y)%string].
Proof.
  induction x as [|c r [front [lastseg [Hsplit Happ]]]].
  - exists [], EmptyString. split; [reflexivity|]. intros y Hy. simpl.
    apply split_slash_plain, Hy.
  - simpl. destruct (Ascii.eqb c "/").
    + exists (EmptyString :: front), lastseg. rewrite Hsplit. split; [reflexivity|].
      intros y Hy. rewrite (Happ y Hy). reflexivity.
    + destruct front as [|h front'].
      * exists [], (String c lastseg). rewrite Hsplit. split; [reflexivity|].
        intros y Hy. rewrite (Happ y Hy). reflexivity.
      * exists (String c h :: front'), lastseg. rewrite Hsplit. split; [reflexivity|].
        intros y Hy. rewrite (Happ y Hy). reflexivity.
Qed.

(** The candidates of the repair share everything but their last component,
    which ends in the suffix. *)
Lemma repair_candidate_shape (usermaps_dir : Fs.path) (expected_folder : string) :
  expected_folder <> EmptyString ->
  exists (stem : Fs.path) (lastseg : string) (first : Fs.path),
    Spec.repair_candidate usermaps_dir expected_folder 0 = stem ++ first
    /\ (first = [] \/ first = [lastseg])
    /\ forall k, k <> 0 ->
         Spec.repair_candidate usermaps_dir expected_folder k
         = stem ++ [(lastseg ++ "_" ++ Install.str_of_Z k)%string].
Proof.
  intros Hne. destruct (split_slash_last expected_folder) as [front [lastseg [Hsplit Happ]]].
  set (keep := fun c : string => negb (PyStr.is_empty c) && negb (String.eqb c ".")).
  set (root := if PyStr.startswith "/" expected_folder then [] else usermaps_dir).
  exists (root ++ filter keep front), lastseg, (filter keep [lastseg]).
  split; [|split].
  - unfold Spec.repair_candidate, Fs.join, Fs.components. simpl Z.eqb. cbv iota.
    rewrite Hsplit, filter_app. fold keep. unfold root.
    destruct (PyStr.startswith "/" expected_folder); [reflexivity|].
    rewrite app_assoc. reflexivity.
  - simpl. destruct (keep lastseg); auto.
  - intros k Hk. unfold Spec.repair_candidate.
    destruct (Z.eqb_spec k 0) as [|_]; [contradiction|].
    unfold Fs.join, Fs.components, Repair.suffixed.
    assert (Hplain : PyStr.all_chars (fun c => negb (Ascii.eqb c "/"))
                                     ("_" ++ Install.str_of_Z k) = true).
    { simpl. apply str_of_Z_plain. }
    rewrite (Happ _ Hplain), filter_app. fold keep.
    assert (Hkeep : keep (lastseg ++ "_" ++ Install.str_of_Z k)%string = true).
    { unfold keep. destruct lastseg as [|c l]; [reflexivity|]. simpl.
      destruct l; simpl; destruct (Ascii.eqb c "."); reflexivity. }
    cbn [filter]. rewrite Hkeep.
    assert (Hstart : PyStr.startswith "/" (expected_folder ++ "_" ++ Install.str_of_Z k)
                     = PyStr.startswith "/" expected_folder).
    { destruct expected_folder; [contradiction|]. reflexivity. }
    rewrite Hstart. unfold root.
    destruct (PyStr.startswith "/" expected_folder); [reflexivity|].
    rewrite app_assoc. reflexivity.
Qed.

Lemma repair_candidate_inj (usermaps_dir : Fs.path) (expected_folder : string) (i k : Z) :
  expected_folder <> EmptyString ->
  Spec.repair_candidate usermaps_dir expected_folder i
  = Spec.repair_candidate usermaps_dir expected_folder k ->
  i = k.
Proof.
  intros Hne.
  destruct (repair_candidate_shape usermaps_dir expected_folder Hne)
    as [stem [lastseg [first [H0 [Hfirst Hk]]]]].
  assert (Hzero : forall j, j <> 0 ->
             Spec.repair_candidate usermaps_dir expected_folder 0
             <> Spec.repair_candidate usermaps_dir expected_folder j).
  { intros j Hj Heq. rewrite H0, (Hk j Hj) in Heq. apply app_inv_head in Heq.
    destruct Hfirst as [->| ->]; [discriminate|].
    injection Heq as Heq. revert Heq. apply string_app_not_self. discriminate. }
  destruct (Z.eq_dec i 0) as [->|Hi]; destruct (Z.eq_dec k 0) as [->|Hk0]; auto.
  - intros H. elim (Hzero k Hk0 H).
  - intros H. symmetry in H. elim (Hzero i Hi H).
  - rewrite (Hk i Hi), (Hk k Hk0). intros H. apply app_inv_head in H.
    injection H as H. apply string_app_inv_head in H.
    simpl in H. injection H as H. apply str_of_Z_inj, H.
Qed.

Lemma exists_in (fs : Fs.t) (p : Fs.path) :
  Fs.exists_ fs p = true -> In p (map fst fs).
Proof.
  unfold Fs.exists_. induction fs as [|[q n] rest IH]; simpl; [discriminate|].
  destruct (Fs.path_eqb q p) eqn:E.
  - intros _. left. apply path_eqb_eq, E.
  - intros H. right. apply IH, H.
Qed.

(** The search, started at the candidate of index [k], returns the first
    later candidate that is free or is the entry itself. *)
Lemma rename_target_some (fs : Fs.t) (usermaps_dir entry : Fs.path)
      (expected_folder : string) (fuel : nat) :
  forall (k : Z) (t : Fs.path),
    0 <= k ->
    Repair.rename_target fuel fs usermaps_dir entry expected_folder k
                         (Spec.repair_candidate usermaps_dir expected_folder k) = Some t ->
    exists j,
      k <= j
      /\ t = Spec.repair_candidate usermaps_dir expected_folder j
      /\ (Fs.exists_ fs t = false \/ t = entry)
      /\ forall i, k <= i < j ->
           Fs.exists_ fs (Spec.repair_candidate usermaps_dir expected_folder i) = true
           /\ Spec.repair_candidate usermaps_dir expected_folder i <> entry.
Proof.
  induction fuel as [|fuel IH]; intros k t Hk; cbn [Repair.rename_target]; [discriminate|].
  cbv zeta.
  destruct (Fs.exists_ fs (Spec.repair_candidate usermaps_dir expected_folder k)) eqn:Hex;
    cbn [andb].
  - destruct (Fs.path_eqb (Spec.repair_candidate usermaps_dir expected_folder k) entry)
      eqn:Heq; cbn [negb].
    + intros [= <-]. exists k. repeat split; try lia.
      right. apply path_eqb_eq, Heq.
    + assert (Hnext : Fs.join usermaps_dir (Repair.suffixed expected_folder (k + 1))
                      = Spec.repair_candidate usermaps_dir expected_folder (k + 1)).
      { unfold Spec.repair_candidate. destruct (Z.eqb_spec (k + 1) 0); [lia|reflexivity]. }
      rewrite Hnext. intros H. destruct (IH (k + 1) t ltac:(lia) H) as [j [Hj [Ht [Hfree Hbefore]]]].
      exists j. split; [lia|]. split; [exact Ht|]. split; [exact Hfree|].
      intros i Hi. destruct (Z.eq_dec i k) as [->|Hik].
      * split; [exact Hex|]. intros Habs. apply path_eqb_eq in Habs. congruence.
      * apply Hbefore. lia.
  - intros [= <-]. exists k. repeat split; try lia. left. exact Hex.
Qed.

(** A search that uses up its rounds has found every candidate taken. *)
Lemma rename_target_none (fs : Fs.t) (usermaps_dir entry : Fs.path)
      (expected_folder : string) (fuel : nat) :
  forall (k : Z),
    0 <= k ->
    Repair.rename_target fuel fs usermaps_dir entry expected_folder k
                         (Spec.repair_candidate usermaps_dir expected_folder k) = None ->
    forall i, k <= i < k + Z.of_nat fuel ->
      Fs.exists_ fs (Spec.repair_candidate usermaps_dir expected_folder i) = true.
Proof.
  induction fuel as [|fuel IH]; intros k Hk; cbn [Repair.rename_target]; [intros _ i Hi; lia|].
  cbv zeta.
  destruct (Fs.exists_ fs (Spec.repair_candidate usermaps_dir expected_folder k)) eqn:Hex;
    cbn [andb]; [|discriminate].
  destruct (Fs.path_eqb (Spec.repair_candidate usermaps_dir expected_folder k) entry);
    cbn [negb]; [discriminate|].
  assert (Hnext : Fs.join usermaps_dir (Repair.suffixed expected_folder (k + 1))
                  = Spec.repair_candidate usermaps_dir expected_folder (k + 1)).
  { unfold Spec.repair_candidate. destruct (Z.eqb_spec (k + 1) 0); [lia|reflexivity]. }
  rewrite Hnext. intros H i Hi. destruct (Z.eq_dec i k) as [->|Hik]; [exact Hex|].
  apply (IH (k + 1) ltac:(lia) H). lia.
Qed.

Lemma NoDup_map_injective {A B : Type} (f : A -> B) (l : list A) :
  (forall a b, f a = f b -> a = b) -> NoDup l -> NoDup (map f l).
Proof.
  intros Hinj Hl. induction Hl as [|a l Hnotin Hl IH]; simpl; constructor; [|exact IH].
  intros Hin. apply in_map_iff in Hin as [b [Hb Hin]]. apply Hinj in Hb. subst b.
  contradiction.
Qed.

(** More distinct candidates than the file system has entries cannot all
    be taken. *)
Lemma candidates_not_all_taken (fs : Fs.t) (usermaps_dir : Fs.path)
      (expected_folder : string) :
  expected_folder <> EmptyString ->
  ~ (forall i, 0 <= i < Z.of_nat (S (List.length fs)) ->
       Fs.exists_ fs (Spec.repair_candidate usermaps_dir expected_folder i) = true).
Proof.
  intros Hne Hall.
  set (cand := fun n : nat => Spec.repair_candidate usermaps_dir expected_folder (Z.of_nat n)).
  set (l := map cand (seq 0 (S (List.length fs)))).
  assert (Hnodup : NoDup l).
  { unfold l. apply NoDup_map_injective; [|apply seq_NoDup].
    intros a b Hab. unfold cand in Hab.
    apply repair_candidate_inj in Hab; [lia|exact Hne]. }
  assert (Hincl : incl l (map fst fs)).
  { intros p Hp. unfold l in Hp. apply in_map_iff in Hp as [n [<- Hn]].
    apply in_seq in Hn. apply exists_in. unfold cand. apply Hall. lia. }
  pose proof (NoDup_incl_length Hnodup Hincl) as Hlen.
  unfold l in Hlen. rewrite !length_map, length_seq in Hlen. lia.
Qed.

(** X22: the search for the new name of an entry ends although the loop has
    no bound: for a declared name that is not empty, some candidate among
    the declared name and its first suffixed names, as many as the file
    system has entries, is free or is the entry itself, and the search
    returns the first such candidate; every candidate before it is taken by
    something else. *)
Theorem repair_finds_first_free (fs : Fs.t) (usermaps_dir entry : Fs.path)
        (expected_folder : string) :
  expected_folder <> EmptyString ->
  exists (k : Z) (target_path : Fs.path),
    Repair.free_target fs usermaps_dir entry expected_folder = Some target_path
    /\ 0 <= k <= Z.of_nat (List.length fs)
    /\ target_path = Spec.repair_candidate usermaps_dir expected_folder k
    /\ (Fs.exists_ fs target_path = false \/ target_path = entry)
    /\ forall i, 0 <= i < k ->
         Fs.exists_ fs (Spec.repair_candidate usermaps_dir expected_folder i) = true
         /\ Spec.repair_candidate usermaps_dir expected_folder i <> entry.
Proof.
  intros Hne. unfold Repair.free_target.
  change (Fs.join usermaps_dir expected_folder)
    with (Spec.repair_candidate usermaps_dir expected_folder 0).
  destruct (Repair.rename_target (S (List.length fs)) fs usermaps_dir entry expected_folder 0
              (Spec.repair_candidate usermaps_dir expected_folder 0)) as [t|] eqn:Hrun.
  - destruct (rename_target_some fs usermaps_dir entry expected_folder _ 0 t ltac:(lia) Hrun)
      as [j [Hj [Ht [Hfree Hbefore]]]].
    exists j, t. split; [reflexivity|]. split; [|split; [exact Ht|split; [exact Hfree|exact Hbefore]]].
    split; [lia|].
    destruct (Z_le_gt_dec j (Z.of_nat (List.length fs))) as [Hle|Hgt]; [exact Hle|].
    exfalso. apply (candidates_not_all_taken fs usermaps_dir expected_folder Hne).
    intros i Hi. apply Hbefore. lia.
  - exfalso. apply (candidates_not_all_taken fs usermaps_dir expected_folder Hne).
    intros i Hi.
    apply (rename_target_none fs usermaps_dir entry expected_folder _ 0 ltac:(lia) Hrun). lia.
Qed.

Lemma repair_finds_first_free_witness :
  "zm_town" <> EmptyString
  /\ exists (k : Z) (target_path : Fs.path),
       Repair.free_target Sample_usermaps ["usermaps"] ["usermaps"; "123456"] "zm_town"
       = Some target_path
       /\ 0 <= k <= Z.of_nat (List.length Sample_usermaps)
       /\ target_path = Spec.repair_candidate ["usermaps"] "zm_town" k
       /\ (Fs.exists_ Sample_usermaps target_path = false
           \/ target_path = ["usermaps"; "123456"])
       /\ forall i, 0 <= i < k ->
            Fs.exists_ Sample_usermaps (Spec.repair_candidate ["usermaps"] "zm_town" i) = true
            /\ Spec.repair_candidate ["usermaps"] "zm_town" i <> ["usermaps"; "123456"].
Proof.
  split; [discriminate|].
  apply (repair_finds_first_free Sample_usermaps ["usermaps"] ["usermaps"; "123456"] "zm_town").
  discriminate.
Defined.
